(** * Region editor of the display-monitor configuration view

    A shallow embedding of the JavaScript region editor (config view):
    the geometry helpers, the pointer-event handlers, the undo/redo history,
    the configuration loader, the property panel, the overlay, saving and
    the reconciliation of regions with cameras.

    JavaScript numbers are idealised as real numbers (exact arithmetic, no
    rounding, no overflow); [NaN] is modelled explicitly where the code can
    produce or store it.  A property that depends on the arithmetic being
    exact says so, and module [Doubles] embeds the arithmetic concerned on
    binary64 values, where section [Rounding] evaluates it. *)

From Stdlib Require Import String Ascii Bool ZArith NArith DecimalString DecimalN Reals Lra Lia List.
From Stdlib Require Floats.
Import ListNotations.
Open Scope R_scope.

(** ** JavaScript number helpers *)

Module Js.

(** [a < b] and [a <= b] on numbers, as booleans. *)
Definition ltb (a b : R) : bool := if Rlt_dec a b then true else false.
Definition leb (a b : R) : bool := if Rle_dec a b then true else false.

(** [a || b] on numbers: [0] is the only falsy real. *)
Definition orElse (a b : R) : R := if Req_dec_T a 0 then b else a.

(** [Math.abs], [Math.sqrt]. *)
Definition Math_abs (x : R) : R := Rabs x.
Definition Math_sqrt (x : R) : R := sqrt x.

(** [Math.round]: the nearest integer, halves rounded up. *)
Definition Math_round (x : R) : Z := Int_part (x + / 2).

(** [Math.atan2(y, x)], in radians, in (-PI, PI]. *)
Definition Math_atan2 (y x : R) : R :=
  if Rlt_dec 0 x then atan (y / x)
  else if Rlt_dec x 0 then
         (if Rle_dec 0 y then atan (y / x) + PI else atan (y / x) - PI)
       else if Rlt_dec 0 y then PI / 2
            else if Rlt_dec y 0 then - (PI / 2)
                 else 0.

(** [Math.min(...xs)] and [Math.max(...xs)] on a non-empty argument list
    (the editor only spreads the four corner coordinates). *)
Definition Math_min (xs : list R) : R :=
  match xs with
  | [] => 0
  | x :: tl => fold_left Rmin tl x
  end.

Definition Math_max (xs : list R) : R :=
  match xs with
  | [] => 0
  | x :: tl => fold_left Rmax tl x
  end.

(** [parseInt(s)] without a radix argument, on a string: leading white
    space is skipped, then an optional sign, an optional [0x]/[0X] prefix
    (radix 16), then the longest run of digits; [None] stands for [NaN]. *)
Definition isWhiteSpace (c : ascii) : bool :=
  match nat_of_ascii c with
  | 9%nat | 10%nat | 11%nat | 12%nat | 13%nat | 32%nat => true
  | _ => false
  end.

Fixpoint trimStart (s : string) : string :=
  match s with
  | String c tl => if isWhiteSpace c then trimStart tl else s
  | EmptyString => s
  end.

Definition digitValue (radix : Z) (c : ascii) : option Z :=
  let n := Z.of_nat (nat_of_ascii c) in
  let v := if (48 <=? n)%Z && (n <=? 57)%Z then (n - 48)%Z
           else if (97 <=? n)%Z && (n <=? 122)%Z then (n - 87)%Z
           else if (65 <=? n)%Z && (n <=? 90)%Z then (n - 55)%Z
           else radix in
  if (v <? radix)%Z then Some v else None.

Fixpoint parseDigits (radix : Z) (s : string) (acc : option Z) : option Z :=
  match s with
  | String c tl =>
      match digitValue radix c with
      | Some v =>
          parseDigits radix tl
            (Some (radix * match acc with Some a => a | None => 0 end + v)%Z)
      | None => acc
      end
  | EmptyString => acc
  end.

Definition parseInt (input : string) : option Z :=
  let s := trimStart input in
  let '(sign, s) :=
    match s with
    | String "-"%char tl => ((-1)%Z, tl)
    | String "+"%char tl => (1%Z, tl)
    | _ => (1%Z, s)
    end in
  let '(radix, s) :=
    match s with
    | String "0"%char (String "x"%char tl) => (16%Z, tl)
    | String "0"%char (String "X"%char tl) => (16%Z, tl)
    | _ => (10%Z, s)
    end in
  option_map (Z.mul sign) (parseDigits radix s None).

(** ['disp_' + n] for a non-negative integer [n] (a [Date.now()] stamp). *)
Definition decimal (n : N) : string :=
  NilZero.string_of_uint (N.to_uint n).

End Js.

(** ** Geometry helpers *)

Module Geometry.

Record Point := mkPoint { px : R; py : R }.

(** The inline conversions of the pointer handlers:
    [offsetX + c.x * scale] and [(mouseX - offsetX) / scale]. *)
Definition toRendered (offsetX offsetY scale : R) (p : Point) : Point :=
  mkPoint (offsetX + px p * scale) (offsetY + py p * scale).

Definition toNative (offsetX offsetY scale : R) (q : Point) : Point :=
  mkPoint ((px q - offsetX) / scale) ((py q - offsetY) / scale).

(** One iteration of the loop of [isPointInPoly]: does the edge from
    [poly[j]] to [poly[i]] flip the parity for [pt]? *)
Definition crossesEdge (pt pi pj : Point) : bool :=
  ((Js.leb (py pi) (py pt) && Js.ltb (py pt) (py pj))
   || (Js.leb (py pj) (py pt) && Js.ltb (py pt) (py pi)))
  && Js.ltb (px pt)
       ((px pj - px pi) * (py pt - py pi) / (py pj - py pi) + px pi).

(** The loop [for (i = 0, j = poly.length - 1; i < poly.length; j = i++)]:
    [pj] is the vertex visited just before, initially the last one. *)
Fixpoint polyLoop (pt pj : Point) (rest : list Point) (c : bool) : bool :=
  match rest with
  | [] => c
  | pi :: tl => polyLoop pt pi tl (if crossesEdge pt pi pj then negb c else c)
  end.

Definition isPointInPoly (pt : Point) (poly : list Point) : bool :=
  match poly with
  | [] => false
  | p0 :: _ => polyLoop pt (last poly p0) poly false
  end.

(** Distance from [p] to the segment [v]-[w]. *)
Definition distToSegment (p v w : Point) : R :=
  let l2 := (px v - px w) ^ 2 + (py v - py w) ^ 2 in
  if Req_dec_T l2 0 then
    Js.Math_sqrt ((px p - px v) ^ 2 + (py p - py v) ^ 2)
  else
    let t := ((px p - px v) * (px w - px v) + (py p - py v) * (py w - py v)) / l2 in
    let t := Rmax 0 (Rmin 1 t) in
    Js.Math_sqrt ((px p - (px v + t * (px w - px v))) ^ 2
                  + (py p - (py v + t * (py w - py v))) ^ 2).

(** [poly.reduce((sum, p) => sum + p.x, 0) / poly.length]. *)
Definition getPolyCenter (poly : list Point) : Point :=
  mkPoint (fold_left (fun sum p => sum + px p) poly 0 / INR (length poly))
          (fold_left (fun sum p => sum + py p) poly 0 / INR (length poly)).

Definition rotatePoint (p center : Point) (angleDeg : R) : Point :=
  let rad := angleDeg * PI / 180 in
  let s := sin rad in
  let c := cos rad in
  let x := px p - px center in
  let y := py p - py center in
  mkPoint (x * c - y * s + px center) (x * s + y * c + py center).

Definition rotatePoints (points : list Point) (center : Point) (angleDeg : R)
  : list Point :=
  map (fun p => rotatePoint p center angleDeg) points.

(** Euclidean distance between two corners. *)
Definition dist (p q : Point) : R :=
  sqrt ((px p - px q) ^ 2 + (py p - py q) ^ 2).

End Geometry.


(** ** The region editor *)

Module Editor.

Import Geometry.

(** The [rotation] field of a region holds an integer, [NaN] (after
    [parseInt] of an unparsable string) or [null] (a [NaN] that went
    through [JSON.stringify]). *)
Inductive Rotation := RotNum (z : Z) | RotNaN | RotNull.

(** The stored box [x, y, w, h] that [startAddDisplayMode] writes. *)
Record Box := mkBox { bx : R; by_ : R; bw : R; bh : R }.

(** A region.  Fields written by the camera reconciliation only
    ([camera_name], [hardware_id]) are left out. *)
Record Display := mkDisplay {
  id : string;
  name : string;
  camId : option string;
  box : option Box;
  rotation : Rotation;
  enablePerspective : bool;
  corners : list Point
}.

Definition set_corners (cs : list Point) (d : Display) : Display :=
  mkDisplay (id d) (name d) (camId d) (box d) (rotation d)
            (enablePerspective d) cs.

Definition set_rotation (r : Rotation) (d : Display) : Display :=
  mkDisplay (id d) (name d) (camId d) (box d) r (enablePerspective d)
            (corners d).

(** [a === b] on identifiers that are strings or [null]. *)
Definition sameId (a b : option string) : bool :=
  match a, b with
  | Some x, Some y => String.eqb x y
  | None, None => true
  | _, _ => false
  end.

(** [x.id === ident] where [x.id] is a string. *)
Definition hasId (ident : option string) (d : Display) : bool :=
  sameId (Some (id d)) ident.

(** [d.rotation || 0]. *)
Definition rotationOrZero (r : Rotation) : Z :=
  match r with
  | RotNum z => z
  | RotNaN | RotNull => 0
  end.

(** The media element under the pointer ([<video>] or [<img>]): whether it
    is displayed, its box relative to the canvas container, and the width
    properties the handlers read.  A property that the element does not
    have reads [undefined], which is falsy like [0]. *)
Record Media := mkMedia {
  shown : bool;
  tagVideo : bool;
  offsetX : R;
  offsetY : R;
  renderedW : R;
  renderedH : R;
  videoWidth : R;
  naturalWidth : R;
  widthAttr : R
}.

(** [renderedW / (nativeW || 1)] as computed on mousedown. *)
Definition scaleDown (m : Media) : R :=
  let nativeW :=
    if tagVideo m then videoWidth m
    else Js.orElse (naturalWidth m) (widthAttr m) in
  renderedW m / Js.orElse nativeW 1.

(** [mediaRect.width / (target.videoWidth || target.naturalWidth ||
    target.width || 1)] as computed on mousemove. *)
Definition scaleMove (m : Media) : R :=
  let vw := if tagVideo m then videoWidth m else 0 in
  let nw := if tagVideo m then 0 else naturalWidth m in
  renderedW m / Js.orElse vw (Js.orElse nw (Js.orElse (widthAttr m) 1)).

Record State := mkState {
  displays : list Display;
  selectedCameraId : option string;
  activeDisplayId : option string;
  isDragging : bool;
  isResizing : bool;
  isDrawing : bool;
  drawingDisplayId : option string;
  dragStartX : R;
  dragStartY : R;
  activeCornerIndex : Z;
  originalCorners : list Point;
  isRotating : bool;
  activeSideIndex : Z;
  rotateStartAngle : R;
  rotateStartValue : Z;
  displayCenter : Point;
  undoStack : list (list Display);
  redoStack : list (list Display)
}.

Definition set_displays (v : list Display) (s : State) : State :=
  mkState v (selectedCameraId s) (activeDisplayId s) (isDragging s)
    (isResizing s) (isDrawing s) (drawingDisplayId s) (dragStartX s)
    (dragStartY s) (activeCornerIndex s) (originalCorners s) (isRotating s)
    (activeSideIndex s) (rotateStartAngle s) (rotateStartValue s)
    (displayCenter s) (undoStack s) (redoStack s).

Definition set_selectedCameraId (v : option string) (s : State) : State :=
  mkState (displays s) v (activeDisplayId s) (isDragging s) (isResizing s)
    (isDrawing s) (drawingDisplayId s) (dragStartX s) (dragStartY s)
    (activeCornerIndex s) (originalCorners s) (isRotating s)
    (activeSideIndex s) (rotateStartAngle s) (rotateStartValue s)
    (displayCenter s) (undoStack s) (redoStack s).

Definition set_activeDisplayId (v : option string) (s : State) : State :=
  mkState (displays s) (selectedCameraId s) v (isDragging s) (isResizing s)
    (isDrawing s) (drawingDisplayId s) (dragStartX s) (dragStartY s)
    (activeCornerIndex s) (originalCorners s) (isRotating s)
    (activeSideIndex s) (rotateStartAngle s) (rotateStartValue s)
    (displayCenter s) (undoStack s) (redoStack s).

Definition set_isDragging (v : bool) (s : State) : State :=
  mkState (displays s) (selectedCameraId s) (activeDisplayId s) v
    (isResizing s) (isDrawing s) (drawingDisplayId s) (dragStartX s)
    (dragStartY s) (activeCornerIndex s) (originalCorners s) (isRotating s)
    (activeSideIndex s) (rotateStartAngle s) (rotateStartValue s)
    (displayCenter s) (undoStack s) (redoStack s).

Definition set_isResizing (v : bool) (s : State) : State :=
  mkState (displays s) (selectedCameraId s) (activeDisplayId s)
    (isDragging s) v (isDrawing s) (drawingDisplayId s) (dragStartX s)
    (dragStartY s) (activeCornerIndex s) (originalCorners s) (isRotating s)
    (activeSideIndex s) (rotateStartAngle s) (rotateStartValue s)
    (displayCenter s) (undoStack s) (redoStack s).

Definition set_isDrawing (v : bool) (s : State) : State :=
  mkState (displays s) (selectedCameraId s) (activeDisplayId s)
    (isDragging s) (isResizing s) v (drawingDisplayId s) (dragStartX s)
    (dragStartY s) (activeCornerIndex s) (originalCorners s) (isRotating s)
    (activeSideIndex s) (rotateStartAngle s) (rotateStartValue s)
    (displayCenter s) (undoStack s) (redoStack s).

Definition set_drawingDisplayId (v : option string) (s : State) : State :=
  mkState (displays s) (selectedCameraId s) (activeDisplayId s)
    (isDragging s) (isResizing s) (isDrawing s) v (dragStartX s)
    (dragStartY s) (activeCornerIndex s) (originalCorners s) (isRotating s)
    (activeSideIndex s) (rotateStartAngle s) (rotateStartValue s)
    (displayCenter s) (undoStack s) (redoStack s).

Definition set_dragStartX (v : R) (s : State) : State :=
  mkState (displays s) (selectedCameraId s) (activeDisplayId s)
    (isDragging s) (isResizing s) (isDrawing s) (drawingDisplayId s) v
    (dragStartY s) (activeCornerIndex s) (originalCorners s) (isRotating s)
    (activeSideIndex s) (rotateStartAngle s) (rotateStartValue s)
    (displayCenter s) (undoStack s) (redoStack s).

Definition set_dragStartY (v : R) (s : State) : State :=
  mkState (displays s) (selectedCameraId s) (activeDisplayId s)
    (isDragging s) (isResizing s) (isDrawing s) (drawingDisplayId s)
    (dragStartX s) v (activeCornerIndex s) (originalCorners s)
    (isRotating s) (activeSideIndex s) (rotateStartAngle s)
    (rotateStartValue s) (displayCenter s) (undoStack s) (redoStack s).

Definition set_activeCornerIndex (v : Z) (s : State) : State :=
  mkState (displays s) (selectedCameraId s) (activeDisplayId s)
    (isDragging s) (isResizing s) (isDrawing s) (drawingDisplayId s)
    (dragStartX s) (dragStartY s) v (originalCorners s) (isRotating s)
    (activeSideIndex s) (rotateStartAngle s) (rotateStartValue s)
    (displayCenter s) (undoStack s) (redoStack s).

Definition set_originalCorners (v : list Point) (s : State) : State :=
  mkState (displays s) (selectedCameraId s) (activeDisplayId s)
    (isDragging s) (isResizing s) (isDrawing s) (drawingDisplayId s)
    (dragStartX s) (dragStartY s) (activeCornerIndex s) v (isRotating s)
    (activeSideIndex s) (rotateStartAngle s) (rotateStartValue s)
    (displayCenter s) (undoStack s) (redoStack s).

Definition set_isRotating (v : bool) (s : State) : State :=
  mkState (displays s) (selectedCameraId s) (activeDisplayId s)
    (isDragging s) (isResizing s) (isDrawing s) (drawingDisplayId s)
    (dragStartX s) (dragStartY s) (activeCornerIndex s) (originalCorners s)
    v (activeSideIndex s) (rotateStartAngle s) (rotateStartValue s)
    (displayCenter s) (undoStack s) (redoStack s).

Definition set_activeSideIndex (v : Z) (s : State) : State :=
  mkState (displays s) (selectedCameraId s) (activeDisplayId s)
    (isDragging s) (isResizing s) (isDrawing s) (drawingDisplayId s)
    (dragStartX s) (dragStartY s) (activeCornerIndex s) (originalCorners s)
    (isRotating s) v (rotateStartAngle s) (rotateStartValue s)
    (displayCenter s) (undoStack s) (redoStack s).

Definition set_rotateStartAngle (v : R) (s : State) : State :=
  mkState (displays s) (selectedCameraId s) (activeDisplayId s)
    (isDragging s) (isResizing s) (isDrawing s) (drawingDisplayId s)
    (dragStartX s) (dragStartY s) (activeCornerIndex s) (originalCorners s)
    (isRotating s) (activeSideIndex s) v (rotateStartValue s)
    (displayCenter s) (undoStack s) (redoStack s).

Definition set_rotateStartValue (v : Z) (s : State) : State :=
  mkState (displays s) (selectedCameraId s) (activeDisplayId s)
    (isDragging s) (isResizing s) (isDrawing s) (drawingDisplayId s)
    (dragStartX s) (dragStartY s) (activeCornerIndex s) (originalCorners s)
    (isRotating s) (activeSideIndex s) (rotateStartAngle s) v
    (displayCenter s) (undoStack s) (redoStack s).

Definition set_displayCenter (v : Point) (s : State) : State :=
  mkState (displays s) (selectedCameraId s) (activeDisplayId s)
    (isDragging s) (isResizing s) (isDrawing s) (drawingDisplayId s)
    (dragStartX s) (dragStartY s) (activeCornerIndex s) (originalCorners s)
    (isRotating s) (activeSideIndex s) (rotateStartAngle s)
    (rotateStartValue s) v (undoStack s) (redoStack s).

Definition set_undoStack (v : list (list Display)) (s : State) : State :=
  mkState (displays s) (selectedCameraId s) (activeDisplayId s)
    (isDragging s) (isResizing s) (isDrawing s) (drawingDisplayId s)
    (dragStartX s) (dragStartY s) (activeCornerIndex s) (originalCorners s)
    (isRotating s) (activeSideIndex s) (rotateStartAngle s)
    (rotateStartValue s) (displayCenter s) v (redoStack s).

Definition set_redoStack (v : list (list Display)) (s : State) : State :=
  mkState (displays s) (selectedCameraId s) (activeDisplayId s)
    (isDragging s) (isResizing s) (isDrawing s) (drawingDisplayId s)
    (dragStartX s) (dragStartY s) (activeCornerIndex s) (originalCorners s)
    (isRotating s) (activeSideIndex s) (rotateStartAngle s)
    (rotateStartValue s) (displayCenter s) (undoStack s) v.

Notation "s |> f" := (f s) (at level 45, left associativity, only parsing).

Definition init : State :=
  mkState [] None None false false false None 0 0 (-1) [] false (-1) 0 0
          (mkPoint 0 0) [] [].

(** *** History *)

(** [JSON.parse(JSON.stringify(displays))]: a [NaN] becomes [null];
    every other modelled field survives unchanged. *)
Definition cloneDisplay (d : Display) : Display :=
  match rotation d with
  | RotNaN => set_rotation RotNull d
  | _ => d
  end.

Definition jsonClone (ds : list Display) : list Display := map cloneDisplay ds.

(** Arrays used as stacks: the newest entry is the last one. *)
Definition push {A} (x : A) (l : list A) : list A := l ++ [x].
Definition shift {A} (l : list A) : list A := tl l.

Definition saveState (s : State) : State :=
  let state := jsonClone (displays s) in
  let stack := push state (undoStack s) in
  let stack := if (50 <? List.length stack)%nat then shift stack else stack in
  s |> set_undoStack stack |> set_redoStack [].

Definition undo (s : State) : State :=
  match undoStack s with
  | [] => s
  | first :: rest =>
      let currentState := jsonClone (displays s) in
      let prevState := last rest first in
      s |> set_redoStack (push currentState (redoStack s))
        |> set_undoStack (removelast (first :: rest))
        |> set_displays prevState
  end.

Definition redo (s : State) : State :=
  match redoStack s with
  | [] => s
  | first :: rest =>
      let currentState := jsonClone (displays s) in
      let nextState := last rest first in
      s |> set_undoStack (push currentState (undoStack s))
        |> set_redoStack (removelast (first :: rest))
        |> set_displays nextState
  end.

(** *** Array access *)

(** [cs[i]]: [None] when the element is undefined. *)
Definition corner (cs : list Point) (i : Z) : option Point :=
  if (i <? 0)%Z then None else nth_error cs (Z.to_nat i).

Fixpoint replaceNth {A} (n : nat) (x : A) (l : list A) : list A :=
  match l, n with
  | [], _ => []
  | _ :: tl, O => x :: tl
  | y :: tl, S m => y :: replaceNth m x tl
  end.

(** A run of in-place corner assignments; the first assignment through an
    undefined element raises a [TypeError], which ends the handler and
    keeps what was written before it. *)
Inductive Run := Running (cs : list Point) | Thrown (cs : list Point).

(** [d.corners[i].x = orig[i].x + delta]. *)
Definition assignX (orig : list Point) (i : Z) (delta : R) (r : Run) : Run :=
  match r with
  | Thrown _ => r
  | Running cs =>
      match corner cs i, corner orig i with
      | Some c, Some o =>
          Running (replaceNth (Z.to_nat i) (mkPoint (px o + delta) (py c)) cs)
      | _, _ => Thrown cs
      end
  end.

(** [d.corners[i].y = orig[i].y + delta]. *)
Definition assignY (orig : list Point) (i : Z) (delta : R) (r : Run) : Run :=
  match r with
  | Thrown _ => r
  | Running cs =>
      match corner cs i, corner orig i with
      | Some c, Some o =>
          Running (replaceNth (Z.to_nat i) (mkPoint (px c) (py o + delta)) cs)
      | _, _ => Thrown cs
      end
  end.

Definition written (r : Run) : list Point :=
  match r with
  | Running cs | Thrown cs => cs
  end.

(** [displays.find(x => x.id === ident)]. *)
Definition findDisplay (ident : option string) (ds : list Display)
  : option Display :=
  find (hasId ident) ds.

(** In-place mutation of the object that [find] returned: the first
    element with that id is the one that changes. *)
Fixpoint updateFirst (ident : option string) (f : Display -> Display)
  (ds : list Display) : list Display :=
  match ds with
  | [] => []
  | d :: tl =>
      if hasId ident d then f d :: tl else d :: updateFirst ident f tl
  end.

(** *** Hit testing (mousedown) *)

Inductive Hit :=
| HitCorner (idx : Z)
| HitRotate
| HitSide (idx : Z)
| HitInside.

Inductive Probe := Matched (h : Hit) | Missed | ProbeThrew.

(** Priority 1: the [forEach] over the corners keeps the last index whose
    handle is within 15px of the pointer. *)
Definition cornerHandle (mouseX mouseY ox oy scale : R) (cs : list Point) : Z :=
  fst (fold_left
         (fun '(handleIdx, idx) c =>
            let sx := px (toRendered ox oy scale c) in
            let sy := py (toRendered ox oy scale c) in
            (if Js.ltb (Js.Math_abs (mouseX - sx)) 15
                && Js.ltb (Js.Math_abs (mouseY - sy)) 15
             then idx else handleIdx, (idx + 1)%Z))
         cs ((-1)%Z, 0%Z)).

(** Priority 2: the rotation handle, 40px along the normal of the edge
    between corner 0 and corner 1, from its midpoint. *)
Definition rotationHandle (ox oy scale : R) (c0 c1 : Point) : Point :=
  let s0 := toRendered ox oy scale c0 in
  let s1 := toRendered ox oy scale c1 in
  let midX := (px s0 + px s1) / 2 in
  let midY := (py s0 + py s1) / 2 in
  let dx := px s1 - px s0 in
  let dy := py s1 - py s0 in
  let len := Js.orElse (Js.Math_sqrt (dx * dx + dy * dy)) 1 in
  let nx := - dy / len in
  let ny := dx / len in
  mkPoint (midX + nx * 40) (midY + ny * 40).

(** Priority 3: the first side within 10px of the pointer. *)
Inductive SideProbe := Side (i : Z) | NoSide | SideThrew.

Fixpoint findSide (mouseX mouseY ox oy scale : R) (cs : list Point)
  (indices : list Z) : SideProbe :=
  match indices with
  | [] => NoSide
  | i :: rest =>
      match corner cs i, corner cs (Z.rem (i + 1) 4) with
      | Some head, Some tail =>
          let sH := toRendered ox oy scale head in
          let sT := toRendered ox oy scale tail in
          if Js.ltb (distToSegment (mkPoint mouseX mouseY) sH sT) 10
          then Side i
          else findSide mouseX mouseY ox oy scale cs rest
      | _, _ => SideThrew
      end
  end.

(** The body of the loop over the candidate regions, for one region. *)
Definition probeDisplay (mouseX mouseY ox oy scale : R) (d : Display) : Probe :=
  let handleIdx := cornerHandle mouseX mouseY ox oy scale (corners d) in
  if negb (handleIdx =? -1)%Z then Matched (HitCorner handleIdx)
  else
    match corner (corners d) 0, corner (corners d) 1 with
    | Some c0, Some c1 =>
        let hr := rotationHandle ox oy scale c0 c1 in
        if Js.ltb (Js.Math_abs (mouseX - px hr)) 15
           && Js.ltb (Js.Math_abs (mouseY - py hr)) 15
        then Matched HitRotate
        else
          match findSide mouseX mouseY ox oy scale (corners d)
                  [0; 1; 2; 3]%Z with
          | SideThrew => ProbeThrew
          | Side i => Matched (HitSide i)
          | NoSide =>
              let nativePt := toNative ox oy scale (mkPoint mouseX mouseY) in
              if isPointInPoly nativePt (corners d) then Matched HitInside
              else Missed
          end
    | _, _ => ProbeThrew
    end.

Inductive HitResult := Found (d : Display) (h : Hit) | NotFound | Threw.

(** [for (const d of displayOrder)]: the first region that matches wins. *)
Fixpoint hitTest (mouseX mouseY ox oy scale : R) (order : list Display)
  : HitResult :=
  match order with
  | [] => NotFound
  | d :: rest =>
      match probeDisplay mouseX mouseY ox oy scale d with
      | Matched h => Found d h
      | ProbeThrew => Threw
      | Missed => hitTest mouseX mouseY ox oy scale rest
      end
  end.

(** *** Pointer handlers *)

Definition newId (now : N) : string := ("disp_" ++ Js.decimal now)%string.

(** [mouseX < offsetX || mouseX > offsetX + mediaRect.width || mouseY <
    offsetY || mouseY > offsetY + mediaRect.height]. *)
Definition outsideMedia (mouseX mouseY : R) (target : Media) : bool :=
  Js.ltb mouseX (offsetX target)
  || Js.ltb (offsetX target + renderedW target) mouseX
  || Js.ltb mouseY (offsetY target)
  || Js.ltb (offsetY target + renderedH target) mouseY.

(** The regions of the selected camera, front to back, or back to front
    when Alt is held. *)
Definition displayOrder (altKey : bool) (s : State) : list Display :=
  let visibleDisplays :=
    filter (fun d => sameId (camId d) (selectedCameraId s)) (displays s) in
  if altKey then visibleDisplays else rev visibleDisplays.

(** The [mousedown] listener of the canvas container.  [mouseX], [mouseY]
    are relative to the container; [now] is the value of [Date.now()]. *)
Definition mousedown (mouseX mouseY : R) (altKey : bool) (target : Media)
  (now : N) (s : State) : State :=
  if negb (shown target) then s
  else
    let ox := offsetX target in
    let oy := offsetY target in
    if outsideMedia mouseX mouseY target then s
    else
      let scale := scaleDown target in
      match hitTest mouseX mouseY ox oy scale (displayOrder altKey s) with
      | Threw => s
      | Found d (HitCorner handleIdx) =>
          saveState s
            |> set_activeDisplayId (Some (id d))
            |> set_activeCornerIndex handleIdx
            |> set_isResizing true
            |> set_dragStartX mouseX
            |> set_dragStartY mouseY
            |> set_originalCorners (corners d)
      | Found d HitRotate =>
          let center := getPolyCenter (corners d) in
          saveState s
            |> set_activeDisplayId (Some (id d))
            |> set_isRotating true
            |> set_displayCenter center
            |> set_rotateStartAngle
                 (Js.Math_atan2 (mouseY - (oy + py center * scale))
                                (mouseX - (ox + px center * scale))
                  * 180 / PI)
            |> set_rotateStartValue (rotationOrZero (rotation d))
            |> set_originalCorners (corners d)
      | Found d (HitSide sideIdx) =>
          saveState s
            |> set_activeDisplayId (Some (id d))
            |> set_activeSideIndex sideIdx
            |> set_isResizing false
            |> set_dragStartX mouseX
            |> set_dragStartY mouseY
            |> set_originalCorners (corners d)
      | Found d HitInside =>
          saveState s
            |> set_activeDisplayId (Some (id d))
            |> set_isDragging true
            |> set_dragStartX mouseX
            |> set_dragStartY mouseY
            |> set_originalCorners (corners d)
      | NotFound =>
          let s := saveState s in
          let nx := (mouseX - ox) / scale in
          let ny := (mouseY - oy) / scale in
          let ident := newId now in
          let newD :=
            mkDisplay ident "New Display" (selectedCameraId s) None (RotNum 0)
              false
              [mkPoint nx ny; mkPoint nx ny; mkPoint nx ny; mkPoint nx ny] in
          s |> set_isDrawing true
            |> set_displays (push newD (displays s))
            |> set_activeDisplayId (Some ident)
            |> set_drawingDisplayId (Some ident)
            |> set_activeCornerIndex 2
            |> set_originalCorners (corners newD)
            |> set_dragStartX mouseX
            |> set_dragStartY mouseY
      end.

(** [(rotateStartValue + Math.round(delta)) % 360], plus 360 when negative;
    [%] is the truncating remainder. *)
Definition gestureRotation (rotateStartValue : Z) (delta : R) : Z :=
  let r := Z.rem (rotateStartValue + Js.Math_round delta) 360 in
  if (r <? 0)%Z then (r + 360)%Z else r.

(** The [mousemove] listener of the window. *)
Definition mousemove (mouseX mouseY : R) (target : Media) (s : State) : State :=
  if negb (isDragging s) && negb (isResizing s) && negb (isDrawing s)
     && negb (isRotating s) && (activeSideIndex s =? -1)%Z
  then s
  else
    let dx := mouseX - dragStartX s in
    let dy := mouseY - dragStartY s in
    match findDisplay (activeDisplayId s) (displays s) with
    | None => s
    | Some _ =>
        let ox := offsetX target in
        let oy := offsetY target in
        let scale := scaleMove target in
        let ndx := dx / scale in
        let ndy := dy / scale in
        let orig := originalCorners s in
        let change : Display -> Display :=
          if isRotating s then
            let center := displayCenter s in
            let currentAngle :=
              Js.Math_atan2 (mouseY - (oy + py center * scale))
                            (mouseX - (ox + px center * scale))
              * 180 / PI in
            let delta := currentAngle - rotateStartAngle s in
            fun d =>
              d |> set_corners (rotatePoints orig center delta)
                |> set_rotation
                     (RotNum (gestureRotation (rotateStartValue s) delta))
          else if isDrawing s then
            fun d =>
              set_corners
                (written (Running (corners d)
                            |> assignX orig 1 ndx
                            |> assignX orig 2 ndx
                            |> assignY orig 2 ndy
                            |> assignY orig 3 ndy)) d
          else if isDragging s then
            set_corners
              (map (fun c => mkPoint (px c + ndx) (py c + ndy)) orig)
          else if isResizing s then
            fun d =>
              set_corners
                (written (Running (corners d)
                            |> assignX orig (activeCornerIndex s) ndx
                            |> assignY orig (activeCornerIndex s) ndy)) d
          else
            let i1 := activeSideIndex s in
            let i2 := Z.rem (activeSideIndex s + 1) 4 in
            fun d =>
              set_corners
                (written (Running (corners d)
                            |> assignX orig i1 ndx
                            |> assignY orig i1 ndy
                            |> assignX orig i2 ndx
                            |> assignY orig i2 ndy)) d
        in
        s |> set_displays (updateFirst (activeDisplayId s) change (displays s))
    end.

(** What every [mouseup] ends with. *)
Definition endGesture (s : State) : State :=
  s |> set_isDragging false |> set_isResizing false |> set_isDrawing false
    |> set_isRotating false |> set_activeCornerIndex (-1)
    |> set_activeSideIndex (-1).

(** The [mouseup] listener of the window.  [drawingDisplayId] only ever
    holds [null] or a non-empty string, so it is truthy when it is set. *)
Definition mouseup (s : State) : State :=
  match isDrawing s, drawingDisplayId s with
  | true, Some drawingId =>
      match findDisplay (Some drawingId) (displays s) with
      | Some d =>
          match corner (corners d) 0, corner (corners d) 2 with
          | Some c0, Some c2 =>
              let w := Js.Math_abs (px c0 - px c2) in
              let h := Js.Math_abs (py c0 - py c2) in
              if Js.ltb w 20 || Js.ltb h 20 then
                s |> set_displays
                       (filter (fun x => negb (hasId (Some drawingId) x))
                               (displays s))
                  |> set_activeDisplayId None
                  |> endGesture
              else endGesture s
          | _, _ => s
          end
      | None => endGesture s
      end
  | _, _ => endGesture s
  end.

(** *** Property panel and toolbar *)

(** The click handler of [btn-update-display], given the values of the
    name, rotation and perspective inputs. *)
Definition updateDisplay (propName propRotation : string)
  (propPerspective : bool) (s : State) : State :=
  match findDisplay (activeDisplayId s) (displays s) with
  | None => s
  | Some _ =>
      let s := saveState s in
      let change d :=
        mkDisplay (id d) propName (camId d) (box d)
          (match Js.parseInt propRotation with
           | Some z => RotNum z
           | None => RotNaN
           end)
          propPerspective (corners d) in
      s |> set_displays (updateFirst (activeDisplayId s) change (displays s))
  end.

(** The click handler of [btn-delete-display]. *)
Definition deleteDisplay (s : State) : State :=
  let s := saveState s in
  s |> set_displays
         (filter (fun x => negb (hasId (activeDisplayId s) x)) (displays s))
    |> set_activeDisplayId None.

(** The click handler of [close-prop-panel]. *)
Definition closePanel (s : State) : State := set_activeDisplayId None s.

(** [!window.appState.selectedCameraId]: [null] and the empty string are
    falsy. *)
Definition noCameraSelected (s : State) : bool :=
  match selectedCameraId s with
  | None => true
  | Some c => String.eqb c ""
  end.

Definition startAddDisplayMode (now : N) (s : State) : State :=
  let s := saveState s in
  if noCameraSelected s then s
  else
    let ident := newId now in
    let newD :=
      mkDisplay ident "New Display" (selectedCameraId s)
        (Some (mkBox 100 100 300 180)) (RotNum 0) false
        [mkPoint 100 100; mkPoint 400 100; mkPoint 400 280; mkPoint 100 280] in
    s |> set_displays (push newD (displays s))
      |> set_activeDisplayId (Some ident).

(** The bounding box that [saveConfig] derives from four corners. *)
Definition boundingBox (cs : list Point) : Box :=
  mkBox (Js.Math_min (map px cs))
        (Js.Math_min (map py cs))
        (Js.Math_max (map px cs) - Js.Math_min (map px cs))
        (Js.Math_max (map py cs) - Js.Math_min (map py cs)).

(** *** Events *)

(** Everything that can happen to the editor.  [External] stands for the
    handlers that rewrite the region list, the selected camera or the
    selection without touching the gesture or the history ([loadConfig],
    [autoFuzzyMatch], [selectCamera], [selectDisplayFromList]). *)
Inductive Event :=
| MouseDown (mouseX mouseY : R) (altKey : bool) (target : Media) (now : N)
| MouseMove (mouseX mouseY : R) (target : Media)
| MouseUp
| Undo
| Redo
| UpdateDisplay (propName propRotation : string) (propPerspective : bool)
| DeleteDisplay
| ClosePanel
| StartAddDisplayMode (now : N)
| External (ds : list Display) (camera selection : option string).

Definition step (e : Event) (s : State) : State :=
  match e with
  | MouseDown mouseX mouseY altKey target now =>
      mousedown mouseX mouseY altKey target now s
  | MouseMove mouseX mouseY target => mousemove mouseX mouseY target s
  | MouseUp => mouseup s
  | Undo => undo s
  | Redo => redo s
  | UpdateDisplay propName propRotation propPerspective =>
      updateDisplay propName propRotation propPerspective s
  | DeleteDisplay => deleteDisplay s
  | ClosePanel => closePanel s
  | StartAddDisplayMode now => startAddDisplayMode now s
  | External ds camera selection =>
      s |> set_displays ds |> set_selectedCameraId camera
        |> set_activeDisplayId selection
  end.

(** Events are handled one at a time, in order. *)
Definition run (es : list Event) (s : State) : State :=
  fold_left (fun st e => step e st) es s.

Inductive reachable : State -> Prop :=
| reach_init : reachable init
| reach_step e s : reachable s -> reachable (step e s).

End Editor.

(** ** The configuration loader *)

Module Config.

(** A JavaScript number: [NaN], an infinity, or a finite value. *)
Inductive number := NaN | Infinity (negative : bool) | Fin (r : R).

(** A value as [JSON.parse] builds it, and as the loader rewrites it.  An
    object carries its own properties; an Array object also carries its
    elements. *)
#[warnings="-register-all"]
Inductive value :=
| VUndefined
| VNull
| VBool (b : bool)
| VNum (n : number)
| VStr (s : string)
| VObj (elems : option (list value)) (props : list (string * value)).

Definition array (l : list value) : value := VObj (Some l) [].
Definition object (props : list (string * value)) : value := VObj None props.
Definition num (r : R) : value := VNum (Fin r).

(** Evaluation either yields a result or raises a [TypeError]. *)
Inductive outcome (A : Type) := Ok (a : A) | TypeError.
Arguments Ok {A} a.
Arguments TypeError {A}.

Definition bind {A B} (o : outcome A) (f : A -> outcome B) : outcome B :=
  match o with
  | Ok a => f a
  | TypeError => TypeError
  end.

Notation "'let*' x ':=' o 'in' k" := (bind o (fun x => k))
  (at level 10, x name, o at level 100, k at level 200, only parsing).

Definition isNaN (n : number) : bool :=
  match n with
  | NaN => true
  | _ => false
  end.

(** [a + b] on numbers. *)
Definition add (a b : number) : number :=
  match a, b with
  | NaN, _ | _, NaN => NaN
  | Fin x, Fin y => Fin (x + y)
  | Infinity s, Fin _ | Fin _, Infinity s => Infinity s
  | Infinity s, Infinity t => if Bool.eqb s t then Infinity s else NaN
  end.

(** [n || 0] on a number. *)
Definition orZero (n : number) : number :=
  match n with
  | NaN => Fin 0
  | Fin r => if Req_dec_T r 0 then Fin 0 else n
  | Infinity _ => n
  end.

(** Truthiness. *)
Definition truthy (v : value) : bool :=
  match v with
  | VUndefined | VNull => false
  | VBool b => b
  | VNum NaN => false
  | VNum (Fin r) => if Req_dec_T r 0 then false else true
  | VNum (Infinity _) => true
  | VStr s => negb (String.eqb s "")
  | VObj _ _ => true
  end.

(** [v === 4]. *)
Definition isFour (v : value) : bool :=
  match v with
  | VNum (Fin r) => if Req_dec_T r 4 then true else false
  | _ => false
  end.

Fixpoint lookup (k : string) (props : list (string * value)) : value :=
  match props with
  | [] => VUndefined
  | (k', v) :: tl => if String.eqb k k' then v else lookup k tl
  end.

Fixpoint store (k : string) (v : value) (props : list (string * value))
  : list (string * value) :=
  match props with
  | [] => [(k, v)]
  | (k', v') :: tl =>
      if String.eqb k k' then (k, v) :: tl else (k', v') :: store k v tl
  end.

(** [v.k] for the property names the loader reads. *)
Definition getProp (v : value) (k : string) : outcome value :=
  match v with
  | VUndefined | VNull => TypeError
  | VBool _ | VNum _ => Ok VUndefined
  | VStr s =>
      if String.eqb k "length" then Ok (num (INR (String.length s)))
      else Ok VUndefined
  | VObj (Some l) props =>
      if String.eqb k "length" then Ok (num (INR (List.length l)))
      else Ok (lookup k props)
  | VObj None props => Ok (lookup k props)
  end.

(** [v.k = x] in strict mode (the file is an ES module): only objects
    accept the assignment. *)
Definition setProp (v : value) (k : string) (x : value) : outcome value :=
  match v with
  | VObj elems props => Ok (VObj elems (store k x props))
  | _ => TypeError
  end.

Fixpoint forEach (f : value -> outcome value) (l : list value)
  : outcome (list value) :=
  match l with
  | [] => Ok []
  | v :: tl =>
      let* v' := f v in
      let* tl' := forEach f tl in
      Ok (v' :: tl')
  end.

Section Loader.

(** The built-ins [parseFloat] and [parseInt] on arbitrary values. *)
Variable parseFloat : value -> number.
Variable parseInt : value -> number.

Definition parseNum (val : value) : number :=
  if isNaN (parseFloat val) then Fin 0 else parseFloat val.

(** [c.x = parseNum(c.x); c.y = parseNum(c.y)]. *)
Definition coerceCorner (c : value) : outcome value :=
  let* x := getProp c "x" in
  let* c := setProp c "x" (VNum (parseNum x)) in
  let* y := getProp c "y" in
  setProp c "y" (VNum (parseNum y)).

Definition point (x y : number) : value :=
  object [("x"%string, VNum x); ("y"%string, VNum y)].

(** The rest of the callback, once [display.corners] is settled. *)
Definition coerceFields (display : value) : outcome value :=
  let* x := getProp display "x" in
  let* display := setProp display "x" (VNum (parseNum x)) in
  let* y := getProp display "y" in
  let* display := setProp display "y" (VNum (parseNum y)) in
  let* w := getProp display "w" in
  let* display := setProp display "w" (VNum (parseNum w)) in
  let* h := getProp display "h" in
  let* display := setProp display "h" (VNum (parseNum h)) in
  let* r := getProp display "rotation" in
  setProp display "rotation" (VNum (orZero (parseInt r))).

(** The callback of [savedDisplays.forEach]. *)
Definition normalizeDisplay (display : value) : outcome value :=
  let* cs := getProp display "corners" in
  let* len := (if truthy cs then getProp cs "length" else Ok VUndefined) in
  let* display :=
    (if truthy cs && isFour len then
       match cs with
       | VObj (Some l) props =>
           let* l' := forEach coerceCorner l in
           setProp display "corners" (VObj (Some l') props)
       | _ => TypeError
       end
     else
       let* xv := getProp display "x" in
       let* yv := getProp display "y" in
       let* wv := getProp display "w" in
       let* hv := getProp display "h" in
       let x := parseNum xv in
       let y := parseNum yv in
       let w := parseNum wv in
       let h := parseNum hv in
       setProp display "corners"
         (array [point x y; point (add x w) y;
                 point (add x w) (add y h); point x (add y h)])) in
  coerceFields display.

(** What [loadConfig] does with the parsed response: the new region list,
    nothing ([Skipped], the response holds no array), or the [catch]
    branch ([Failed], "Failed to load config"). *)
Inductive LoadResult :=
| Loaded (displays : list value)
| Skipped
| Failed.

Definition loadConfig (data : value) : LoadResult :=
  let savedDisplays :=
    match data with
    | VObj (Some _) _ => Ok data
    | _ =>
        let* ds := getProp data "displays" in
        Ok (if truthy ds then ds else array [])
    end in
  match savedDisplays with
  | TypeError => Failed
  | Ok (VObj (Some l) _) =>
      match forEach normalizeDisplay l with
      | Ok l' => Loaded l'
      | TypeError => Failed
      end
  | Ok _ => Skipped
  end.

(** [window.appState.displays] after [loadConfig]. *)
Definition displaysAfter (data : value) (current : list value) : list value :=
  match loadConfig data with
  | Loaded ds => ds
  | Skipped | Failed => current
  end.

End Loader.

(** *** Notions used in the statements *)

Definition isObject (v : value) : Prop :=
  match v with
  | VObj _ _ => True
  | _ => False
  end.

(** The test [display.corners && display.corners.length === 4]. *)
Definition hasFourCorners (cs : value) : bool :=
  truthy cs
  && match getProp cs "length" with
     | Ok len => isFour len
     | TypeError => false
     end.

(** A record that the loader can normalise: an object whose [corners],
    when they pass the test above, are an array of objects. *)
Definition usable (display : value) : Prop :=
  exists elems props,
    display = VObj elems props
    /\ (hasFourCorners (lookup "corners" props) = true ->
        exists l ps,
          lookup "corners" props = VObj (Some l) ps /\ Forall isObject l).

(** A point with numeric coordinates. *)
Definition numericPoint (c : value) : Prop :=
  exists x y, getProp c "x" = Ok (VNum x) /\ getProp c "y" = Ok (VNum y).

(** A region whose [corners] are an array of four such points. *)
Definition fourNumericCorners (display : value) : Prop :=
  exists l ps,
    getProp display "corners" = Ok (VObj (Some l) ps)
    /\ List.length l = 4%nat
    /\ Forall numericPoint l.

(** A record whose four corners are [null]. *)
Definition nullCorners : value :=
  object [("id"%string, VStr "d1");
          ("corners"%string, array [VNull; VNull; VNull; VNull]);
          ("x"%string, num 0); ("y"%string, num 0);
          ("w"%string, num 10); ("h"%string, num 10)].

(** A record whose corners are four plain numbers. *)
Definition numberCorners : value :=
  object [("id"%string, VStr "d2");
          ("corners"%string, array [num 100; num 100; num 300; num 180])].

(** A record with a box, no corners, and a rotation of 400. *)
Definition boxOnly : value :=
  object [("id"%string, VStr "d3");
          ("x"%string, num 10); ("y"%string, num 20);
          ("w"%string, VStr "wide"); ("h"%string, num 40);
          ("rotation"%string, num 400)].

(** [parseFloat] and [parseInt] restricted to number values, where they
    return a finite integer-valued argument unchanged. *)
Definition numberOnly (v : value) : number :=
  match v with
  | VNum n => n
  | _ => NaN
  end.

End Config.

(** ** Notions used in the statements *)

Module Notions.

Import Geometry Editor.

(** The square of the point-in-polygon checks. *)
Definition square10 : list Point :=
  [mkPoint 0 0; mkPoint 10 0; mkPoint 10 10; mkPoint 0 10].

(** The last [n] entries of an array. *)
Definition lastN {A} (n : nat) (l : list A) : list A :=
  skipn (List.length l - n) l.

(** Pushing one snapshot per region list, in a row. *)
Definition pushAll (snaps : list (list Display)) (s : State) : State :=
  fold_left (fun st ds => saveState (set_displays ds st)) snaps s.

(** A gesture: a run of events that pushes exactly one snapshot, the one
    of the state it starts in. *)
Definition pushesOnce (g : list Event) (s : State) : Prop :=
  undoStack (run g s) = undoStack (saveState s)
  /\ redoStack (run g s) = [].



(** The events of a pointer gesture: press, moves, release. *)
Definition pointerGesture (mouseX mouseY : R) (altKey : bool)
  (target : Media) (now : N) (moves : list (R * R)) : list Event :=
  MouseDown mouseX mouseY altKey target now
  :: map (fun m => MouseMove (fst m) (snd m) target) moves ++ [MouseUp].



Definition cameraSelected : State :=
  step (External [] (Some "cam1"%string) None) init.

(** A press that starts drawing: the media is displayed, the pointer is
    over it, and no region of the selected camera is hit. *)
Definition startsDrawing (mouseX mouseY : R) (altKey : bool) (target : Media)
  (s : State) : Prop :=
  shown target = true
  /\ outsideMedia mouseX mouseY target = false
  /\ hitTest mouseX mouseY (offsetX target) (offsetY target)
       (scaleDown target) (displayOrder altKey s) = NotFound.

(** [Date.now()] gives an id that no region carries yet. *)
Definition freshId (now : N) (s : State) : Prop :=
  Forall (fun d => id d <> newId now) (displays s).

(** Pointer positions of the successive [mousemove] events. *)
Definition moveAll (moves : list (R * R)) (target : Media) (s : State)
  : State :=
  fold_left (fun st m => mousemove (fst m) (snd m) target st) moves s.

(** A whole gesture: press, moves, release. *)
Definition gesture (mouseX mouseY : R) (altKey : bool) (target : Media)
  (now : N) (moves : list (R * R)) (s : State) : State :=
  mouseup (moveAll moves target (mousedown mouseX mouseY altKey target now s)).

(** The axis-aligned rectangle spanned by two opposite corners, in the
    corner order of the editor. *)
Definition rectangle (x0 y0 x1 y1 : R) : list Point :=
  [mkPoint x0 y0; mkPoint x1 y0; mkPoint x1 y1; mkPoint x0 y1].

(** The outcome of a drawing gesture pressed at the rendered position
    [(mouseX0, mouseY0)]: with [p0] and [p1] the native points under the
    pointer at the press and at the last move, the region is dropped when
    it is less than 20 wide or high, and kept as the rectangle between
    [p0] and [p1] otherwise, as a region of the selected camera named
    "New Display" with rotation 0; either way the gesture is over, with
    every gesture flag cleared. *)
Definition drawOutcome (mouseX0 mouseY0 : R) (altKey : bool) (target : Media)
  (now : N) (moves : list (R * R)) (s : State) : Prop :=
  let native :=
    toNative (offsetX target) (offsetY target) (scaleDown target) in
  let p0 := native (mkPoint mouseX0 mouseY0) in
  let pointer := last moves (mouseX0, mouseY0) in
  let p1 := native (mkPoint (fst pointer) (snd pointer)) in
  let final := gesture mouseX0 mouseY0 altKey target now moves s in
  (Rabs (px p1 - px p0) < 20 \/ Rabs (py p1 - py p0) < 20 ->
   displays final = displays s /\ activeDisplayId final = None)
  /\ (~ (Rabs (px p1 - px p0) < 20 \/ Rabs (py p1 - py p0) < 20) ->
      exists d,
        displays final = displays s ++ [d]
        /\ id d = newId now
        /\ activeDisplayId final = Some (id d)
        /\ corners d = rectangle (px p0) (py p0) (px p1) (py p1)
        /\ boundingBox (corners d)
           = mkBox (Rmin (px p0) (px p1)) (Rmin (py p0) (py p1))
                   (Rabs (px p1 - px p0)) (Rabs (py p1 - py p0))
        /\ name d = "New Display"%string
        /\ camId d = selectedCameraId s
        /\ rotation d = RotNum 0)
  /\ (isDrawing final = false /\ isDragging final = false
      /\ isResizing final = false /\ isRotating final = false
      /\ activeCornerIndex final = (-1)%Z
      /\ activeSideIndex final = (-1)%Z).

(** A corner moved by a native delta. *)
Definition translate (dx dy : R) (c : Point) : Point :=
  mkPoint (px c + dx) (py c + dy).

(** The outcome of an edge-resize gesture on edge [i] of region [d]: in
    the region that carries the id of [d], corners [i] and [(i + 1) % 4]
    are the corners of [d] moved by the native delta of the pointer, and
    the other corners are those of [d]. *)
Definition edgeOutcome (mouseX0 mouseY0 : R) (altKey : bool) (target : Media)
  (now : N) (moves : list (R * R)) (d : Display) (i : Z) (s : State) : Prop :=
  let pointer := last moves (mouseX0, mouseY0) in
  let dx := (fst pointer - mouseX0) / scaleMove target in
  let dy := (snd pointer - mouseY0) / scaleMove target in
  let final := gesture mouseX0 mouseY0 altKey target now moves s in
  (0 <= i < 4)%Z
  /\ exists d',
       findDisplay (Some (id d)) (displays final) = Some d'
       /\ List.length (corners d') = 4%nat
       /\ forall j,
            corner (corners d') j
            = if (j =? i)%Z || (j =? Z.rem (i + 1) 4)%Z
              then option_map (translate dx dy) (corner (corners d) j)
              else corner (corners d) j.

(** An image of 640 by 480 pixels shown at its native size, at the origin
    of the container. *)
Definition image640 : Media := mkMedia true false 0 0 640 480 0 640 0.

(** The same image shown one and a half times as large. *)
Definition image960 : Media := mkMedia true false 0 0 960 720 0 640 0.

(** One region, as [startAddDisplayMode] creates it at time 1. *)
Definition region1 : Display :=
  mkDisplay "disp_1" "New Display" (Some "cam1"%string)
    (Some (mkBox 100 100 300 180)) (RotNum 0) false
    [mkPoint 100 100; mkPoint 400 100; mkPoint 400 280; mkPoint 100 280].

Definition oneRegion : State := step (StartAddDisplayMode 1) cameraSelected.


(** The bound that the operations keep: the two stacks together never
    hold more than 50 snapshots. *)
Definition capped (s : State) : Prop :=
  (List.length (undoStack s) + List.length (redoStack s) <= 50)%nat.

End Notions.

(** ** Further notions used in the statements *)

Module GestureNotions.

Import Geometry Editor Notions.

(** Everything about a region but its corners and its rotation. *)
Definition identity (d : Display)
  : string * string * option string * option Box * bool :=
  (id d, name d, camId d, box d, enablePerspective d).

(** The regions that do not carry the id [ident]. *)
Definition others (ident : option string) (ds : list Display) : list Display :=
  filter (fun x => negb (hasId ident x)) ds.


(** Every region of a list has four corners. *)
Definition fourCorners (ds : list Display) : Prop :=
  Forall (fun d => List.length (corners d) = 4%nat) ds.

(** The four-corner invariant of a state: the regions on screen and in
    both history stacks have four corners, and so do the corners kept
    from the press while a drag or a rotation is going on. *)
Definition wellShaped (s : State) : Prop :=
  fourCorners (displays s)
  /\ Forall fourCorners (undoStack s)
  /\ Forall fourCorners (redoStack s)
  /\ (isDragging s || isRotating s = true ->
      List.length (originalCorners s) = 4%nat).

(** An event that brings no region without four corners from outside. *)
Definition wellShapedEvent (e : Event) : Prop :=
  match e with
  | External ds _ _ => fourCorners ds
  | _ => True
  end.

(** No gesture is going on. *)
Definition idle (s : State) : Prop :=
  isDragging s = false /\ isResizing s = false /\ isDrawing s = false
  /\ isRotating s = false /\ activeCornerIndex s = (-1)%Z
  /\ activeSideIndex s = (-1)%Z.

(** The rotation that the update handler stores for the text of the
    rotation input. *)
Definition enteredRotation (propRotation : string) : Rotation :=
  match Js.parseInt propRotation with
  | Some z => RotNum z
  | None => RotNaN
  end.

End GestureNotions.

(** ** The property panel *)

Module Panel.
Import Editor.

(** [String(z)] on an integer that JavaScript prints without an exponent,
    that is below [10^21] in absolute value; [None] beyond. *)
Definition numberText (z : Z) : option string :=
  if (Z.abs z <? 10 ^ 21)%Z then
    Some (if (z <? 0)%Z then String "-" (Js.decimal (Z.to_N (- z)))
          else Js.decimal (Z.to_N z))
  else None.

(** What the rotation input, of type [number], holds after
    [el.value = d.rotation]: the number as text; the empty string for
    [null], and for [NaN], whose text is no valid number. *)
Definition rotationInput (r : Rotation) : option string :=
  match r with
  | RotNum z => numberText z
  | RotNaN | RotNull => Some ""%string
  end.

(** What the name input, of type [text], holds after [el.value = d.name]:
    the name without its line feeds and carriage returns, which a text
    input strips from a value set on it. *)
Definition isNewline (c : ascii) : bool :=
  match nat_of_ascii c with
  | 10%nat | 13%nat => true
  | _ => false
  end.

Fixpoint stripNewlines (text : string) : string :=
  match text with
  | EmptyString => EmptyString
  | String c tl =>
      if isNewline c then stripNewlines tl else String c (stripNewlines tl)
  end.

(** The values of the name, rotation and perspective inputs as
    [openPropertyPanel] leaves them. *)
Definition openPropertyPanel (d : Display) : option (string * string * bool) :=
  option_map (fun r => (stripNewlines (name d), r, enablePerspective d))
             (rotationInput (rotation d)).

(** The number that a run of decimal digits stands for, read from the
    left with [acc] for the digits already read. *)
Fixpoint digitsValue (d : Decimal.uint) (acc : Z) : Z :=
  match d with
  | Decimal.Nil => acc
  | Decimal.D0 l => digitsValue l (10 * acc + 0)
  | Decimal.D1 l => digitsValue l (10 * acc + 1)
  | Decimal.D2 l => digitsValue l (10 * acc + 2)
  | Decimal.D3 l => digitsValue l (10 * acc + 3)
  | Decimal.D4 l => digitsValue l (10 * acc + 4)
  | Decimal.D5 l => digitsValue l (10 * acc + 5)
  | Decimal.D6 l => digitsValue l (10 * acc + 6)
  | Decimal.D7 l => digitsValue l (10 * acc + 7)
  | Decimal.D8 l => digitsValue l (10 * acc + 8)
  | Decimal.D9 l => digitsValue l (10 * acc + 9)
  end%Z.

End Panel.

(** ** The overlay *)

Module Overlay.
Import Geometry Editor.







End Overlay.

(** ** Outcomes of the gestures on a region *)

Module GestureOutcomes.
Import Geometry Editor Notions GestureNotions Overlay.

(** [ds'] is [ds] with its first region carrying the id [ident], which is
    [d], replaced by [d']: the regions before it carry other ids, and
    every other region, before or after, also one that carries the same
    id, is where and what it was. *)
Definition firstReplaced (ident : string) (d d' : Display)
  (ds ds' : list Display) : Prop :=
  exists before after,
    ds = before ++ d :: after
    /\ Forall (fun x => id x <> ident) before
    /\ id d = ident
    /\ ds' = before ++ d' :: after.

(** A gesture on region [d] that started in [s] is over in [final]: [d]
    is selected, the history is what [saveState] made of it at the press,
    one snapshot of the list of [s] pushed and the redo stack emptied,
    and no gesture flag is set. *)
Definition gestureDone (s final : State) (d : Display) : Prop :=
  activeDisplayId final = Some (id d)
  /\ undoStack final = undoStack (saveState s)
  /\ redoStack final = []
  /\ idle final.



(** The angle, in degrees, under which the pointer is seen from the
    rendered position of [center]. *)
Definition pointerAngle (target : Media) (scale : R) (center : Point)
  (mouseX mouseY : R) : R :=
  Js.Math_atan2 (mouseY - (offsetY target + py center * scale))
                (mouseX - (offsetX target + px center * scale))
  * 180 / PI.

(** The outcome of a rotate gesture on region [d] with at least one move.
    With [delta] the angle of the pointer at the last move less its angle
    at the press, both seen from the centroid of the corners of [d], the
    first region with the id of [d] is [d] with its corners turned about
    that centroid by [delta], and with the start rotation plus the
    rounded [delta], modulo 360, as its rotation; nothing else of the list
    changes.  The turn keeps the centroid and the distances between
    corners. *)
Definition rotateOutcome (mouseX0 mouseY0 : R) (altKey : bool)
  (target : Media) (now : N) (moves : list (R * R)) (d : Display) (s : State)
  : Prop :=
  let center := getPolyCenter (corners d) in
  let pointer := last moves (mouseX0, mouseY0) in
  let delta :=
    pointerAngle target (scaleMove target) center (fst pointer) (snd pointer)
    - pointerAngle target (scaleDown target) center mouseX0 mouseY0 in
  let z := ((rotationOrZero (rotation d) + Js.Math_round delta) mod 360)%Z in
  let d' :=
    d |> set_corners (rotatePoints (corners d) center delta)
      |> set_rotation (RotNum z) in
  let final := gesture mouseX0 mouseY0 altKey target now moves s in
  firstReplaced (id d) d d' (displays s) (displays final)
  /\ (0 <= z < 360)%Z
  /\ getPolyCenter (corners d') = center
  /\ (forall i j p q p' q',
         nth_error (corners d) i = Some p ->
         nth_error (corners d) j = Some q ->
         nth_error (corners d') i = Some p' ->
         nth_error (corners d') j = Some q' ->
         dist p' q' = dist p q)
  /\ gestureDone s final d.




End GestureOutcomes.

(** ** Saving *)

Module Saving.
Import Geometry Editor.

(** An entry of the array that [saveConfig] posts, without [camera_name]
    and [hardware_id], which come from the camera list. *)
Record Saved := mkSaved {
  savedId : string;
  savedName : string;
  savedCamId : option string;
  savedCorners : list Point;
  savedBox : Box;
  savedRotation : Z;
  savedPerspective : bool
}.

(** The corners that are saved: those of the region when there are four,
    and otherwise the corners of its box; [None] when that box is missing,
    so that the coordinates are [undefined] or [NaN]. *)
Definition cornersToSave (d : Display) : option (list Point) :=
  if negb (List.length (corners d) =? 4)%nat then
    match box d with
    | Some b =>
        Some [mkPoint (bx b) (by_ b); mkPoint (bx b + bw b) (by_ b);
              mkPoint (bx b + bw b) (by_ b + bh b);
              mkPoint (bx b) (by_ b + bh b)]
    | None => None
    end
  else Some (corners d).

(** The callback of [displays.map] in [saveConfig]. *)
Definition toSave (d : Display) : option Saved :=
  option_map
    (fun cs =>
       mkSaved (id d) (name d) (camId d) cs (boundingBox cs)
         (rotationOrZero (rotation d)) (enablePerspective d))
    (cornersToSave d).

End Saving.

(** ** Reconciling regions with the cameras found *)

Module Reconcile.
Import Geometry Editor.

(** A camera of [window.appState.cameras]. *)
Record Camera := mkCamera {
  cameraId : string;
  cameraName : string;
  cameraHardwareId : option string
}.

(** A region together with the two fields that only the reconciliation
    reads and writes. *)
Record Entry := mkEntry {
  display : Display;
  camera_name : option string;
  hardware_id : option string
}.

(** Truthiness of a string that may be missing. *)
Definition present (v : option string) : bool :=
  match v with
  | Some x => negb (String.eqb x "")
  | None => false
  end.

Section Matching.

(** [normalizeCameraName]: the name without a trailing device suffix,
    trimmed, in lower case. *)
Variable normalizeCameraName : string -> string.

(** The callback of [cameras.find] for a region whose saved camera name
    is [saved]. *)
Definition isMatch (d : Entry) (saved : string) (c : Camera) : bool :=
  (present (hardware_id d) && sameId (cameraHardwareId c) (hardware_id d))
  || String.eqb (normalizeCameraName (cameraName c))
                (normalizeCameraName saved).

(** The callback of [displays.forEach]. *)
Definition reconcile (cameras : list Camera) (d : Entry) : Entry :=
  match camera_name d with
  | Some saved =>
      if negb (present (camera_name d)) then d
      else
        match find (isMatch d saved) cameras with
        | Some m =>
            if negb (sameId (camId (display d)) (Some (cameraId m))) then
              mkEntry
                (mkDisplay (id (display d)) (name (display d))
                   (Some (cameraId m)) (box (display d))
                   (rotation (display d)) (enablePerspective (display d))
                   (corners (display d)))
                (Some (cameraName m)) (hardware_id d)
            else d
        | None => d
        end
  | None => d
  end.

Definition autoFuzzyMatch (cameras : list Camera) (ds : list Entry)
  : list Entry :=
  map (reconcile cameras) ds.

End Matching.

(** Everything of an entry but its camera and the saved camera name. *)
Definition untouched (d : Entry)
  : string * string * option Box * Rotation * bool * list Point
    * option string :=
  (id (display d), name (display d), box (display d), rotation (display d),
   enablePerspective (display d), corners (display d), hardware_id d).

End Reconcile.

(** ** Further notions about the loader *)

Module LoaderNotions.
Import Config.



End LoaderNotions.

(** ** The arithmetic on doubles *)

(** The modules above read a JavaScript number as a real number.  This
    module embeds the arithmetic of the same lines on what a number is, an
    IEEE 754 binary64 value, so that the places where rounding makes the
    program differ from its reading over the reals can be evaluated. *)
Module Doubles.

Import PrimFloat.
#[local] Open Scope float_scope.

Record Point := mkPoint { px : float; py : float }.

(** [(mouseX - offsetX) / scale]. *)
Definition toNative (offsetX offsetY scale : float) (q : Point) : Point :=
  mkPoint ((px q - offsetX) / scale) ((py q - offsetY) / scale).

(** [Math.min] and [Math.max] of two numbers: [NaN] if either is [NaN],
    and [-0] below [+0]. *)
Definition min2 (a b : float) : float :=
  if (is_nan a || is_nan b)%bool then nan
  else if a <? b then a
  else if b <? a then b
  else match classify a with FloatClass.NZero => a | _ => b end.

Definition max2 (a b : float) : float :=
  if (is_nan a || is_nan b)%bool then nan
  else if b <? a then a
  else if a <? b then b
  else match classify a with FloatClass.NZero => b | _ => a end.

(** [Math.min(...xs)] and [Math.max(...xs)]. *)
Definition Math_min (xs : list float) : float := fold_left min2 xs infinity.
Definition Math_max (xs : list float) : float :=
  fold_left max2 xs neg_infinity.

(** [isPointInPoly], as in [Geometry]. *)
Definition crossesEdge (pt pi pj : Point) : bool :=
  (((py pi <=? py pt) && (py pt <? py pj))
   || ((py pj <=? py pt) && (py pt <? py pi)))
  && (px pt <? (px pj - px pi) * (py pt - py pi) / (py pj - py pi) + px pi).

Fixpoint polyLoop (pt pj : Point) (rest : list Point) (c : bool) : bool :=
  match rest with
  | [] => c
  | pi :: tl => polyLoop pt pi tl (if crossesEdge pt pi pj then negb c else c)
  end.

Definition isPointInPoly (pt : Point) (poly : list Point) : bool :=
  match poly with
  | [] => false
  | p0 :: _ => polyLoop pt (last poly p0) poly false
  end.

(** [x ** 2], which is [x * x]. *)
Definition square (x : float) : float := x * x.

(** [distToSegment], as in [Geometry]. *)
Definition distToSegment (p v w : Point) : float :=
  let l2 := square (px v - px w) + square (py v - py w) in
  if l2 =? 0 then sqrt (square (px p - px v) + square (py p - py v))
  else
    let t :=
      ((px p - px v) * (px w - px v) + (py p - py v) * (py w - py v)) / l2 in
    let t := max2 0 (min2 1 t) in
    sqrt (square (px p - (px v + t * (px w - px v)))
          + square (py p - (py v + t * (py w - py v)))).

(** The [x], [y], [w], [h] that [saveConfig] derives from the corners. *)
Definition boundingBox (cs : list Point) : float * float * float * float :=
  (Math_min (map px cs),
   Math_min (map py cs),
   Math_max (map px cs) - Math_min (map px cs),
   Math_max (map py cs) - Math_min (map py cs)).

(** The four corners of the provisional region of a drawing gesture,
    [corners[0]] to [corners[3]]. *)
Record Quad := mkQuad { c0 : Point; c1 : Point; c2 : Point; c3 : Point }.

(** What the three pointer handlers keep of a drawing gesture: the corners
    of the provisional region, the corners at the press and the position
    of the press. *)
Record Drawing := mkDrawing {
  corners : Quad;
  originalCorners : Quad;
  dragStartX : float;
  dragStartY : float
}.

(** The drawing branch of [mousedown]. *)
Definition mousedown (mouseX mouseY offsetX offsetY scale : float) : Drawing :=
  let nx := (mouseX - offsetX) / scale in
  let ny := (mouseY - offsetY) / scale in
  let cs := mkQuad (mkPoint nx ny) (mkPoint nx ny) (mkPoint nx ny)
              (mkPoint nx ny) in
  mkDrawing cs cs mouseX mouseY.

(** The [isDrawing] branch of [mousemove]. *)
Definition mousemove (mouseX mouseY scale : float) (g : Drawing) : Drawing :=
  let dx := mouseX - dragStartX g in
  let dy := mouseY - dragStartY g in
  let ndx := dx / scale in
  let ndy := dy / scale in
  let cs := corners g in
  let orig := originalCorners g in
  mkDrawing
    (mkQuad (c0 cs)
       (mkPoint (px (c1 orig) + ndx) (py (c1 cs)))
       (mkPoint (px (c2 orig) + ndx) (py (c2 orig) + ndy))
       (mkPoint (px (c3 cs)) (py (c3 orig) + ndy)))
    orig (dragStartX g) (dragStartY g).

(** The test of [mouseup] on the provisional region: [None] when the
    region is removed, its corners when it is kept. *)
Definition mouseup (g : Drawing) : option Quad :=
  let w := abs (px (c0 (corners g)) - px (c2 (corners g))) in
  let h := abs (py (c0 (corners g)) - py (c2 (corners g))) in
  if ((w <? 20) || (h <? 20))%bool then None else Some (corners g).

(** A drawing gesture: press, moves, release. *)
Definition gesture (mouseX mouseY offsetX offsetY scaleDown scaleMove : float)
  (moves : list (float * float)) : option Quad :=
  mouseup
    (fold_left (fun g m => mousemove (fst m) (snd m) scaleMove g) moves
       (mousedown mouseX mouseY offsetX offsetY scaleDown)).

End Doubles.

(** * Properties *)

Import Geometry Editor Notions.

(** ** Comparisons on numbers *)

Lemma Js_ltb_true a b : Js.ltb a b = true <-> a < b.
Proof. unfold Js.ltb; destruct (Rlt_dec a b); split; intros; try easy. Qed.

Lemma Js_ltb_false a b : Js.ltb a b = false <-> b <= a.
Proof.
  unfold Js.ltb; destruct (Rlt_dec a b); split; intros; try easy; lra.
Qed.

Lemma Js_leb_true a b : Js.leb a b = true <-> a <= b.
Proof. unfold Js.leb; destruct (Rle_dec a b); split; intros; try easy. Qed.

Lemma Js_leb_false a b : Js.leb a b = false <-> b < a.
Proof.
  unfold Js.leb; destruct (Rle_dec a b); split; intros; try easy; lra.
Qed.

Lemma Js_orElse_nonzero a b : a <> 0 -> Js.orElse a b = a.
Proof. unfold Js.orElse; destruct (Req_dec_T a 0); intros; easy. Qed.

Lemma Js_orElse_zero b : Js.orElse 0 b = b.
Proof. unfold Js.orElse; destruct (Req_dec_T 0 0); intros; easy. Qed.


(** Decide a comparison between concrete reals. *)
Ltac js_cmp :=
  repeat match goal with
  | |- context [Js.ltb ?a ?b] =>
      first [ replace (Js.ltb a b) with true by (symmetry; apply Js_ltb_true; lra)
            | replace (Js.ltb a b) with false by (symmetry; apply Js_ltb_false; lra) ]
  | |- context [Js.leb ?a ?b] =>
      first [ replace (Js.leb a b) with true by (symmetry; apply Js_leb_true; lra)
            | replace (Js.leb a b) with false by (symmetry; apply Js_leb_false; lra) ]
  end.

(** ** Coordinate mapping *)

(** C6.  For every offset, every non-zero scale and every native point
    [p], mapping [p] to the rendered surface and back returns [p]
    exactly. *)
Theorem toNative_toRendered (ox oy scale : R) (p : Point) :
  scale <> 0 -> toNative ox oy scale (toRendered ox oy scale p) = p.
Proof.
  intros Hs. destruct p as [x y]. unfold toNative, toRendered; simpl.
  f_equal; field; exact Hs.
Qed.

Lemma toNative_toRendered_witness :
  toNative 12 7 (3 / 2) (toRendered 12 7 (3 / 2) (mkPoint 100 40))
  = mkPoint 100 40.
Proof. apply toNative_toRendered. lra. Defined.

(** ** Rotation *)

Section Rotation.

Variable center : Point.
Variable angleDeg : R.

Let rot (p : Point) : Point := rotatePoint p center angleDeg.

Lemma rotatePoint_dist (p q : Point) : dist (rot p) (rot q) = dist p q.
Proof.
  unfold dist, rot, rotatePoint; cbn [px py]. f_equal.
  set (a := angleDeg * PI / 180).
  pose proof (sin2_cos2 a) as H. unfold Rsqr in H.
  transitivity (((px p - px q) ^ 2 + (py p - py q) ^ 2)
                * (sin a * sin a + cos a * cos a)).
  - ring.
  - rewrite H. ring.
Qed.

Lemma fold_sum_acc (f : Point -> R) (l : list Point) (acc : R) :
  fold_left (fun sum p => sum + f p) l acc
  = acc + fold_left (fun sum p => sum + f p) l 0.
Proof.
  revert acc. induction l as [|p l IH]; intros acc; simpl.
  - ring.
  - rewrite (IH (acc + f p)), (IH (0 + f p)). ring.
Qed.

Lemma sum_px_rotated (l : list Point) :
  fold_left (fun sum p => sum + px p) (map rot l) 0
  = (fold_left (fun sum p => sum + px p) l 0 - INR (length l) * px center)
      * cos (angleDeg * PI / 180)
    - (fold_left (fun sum p => sum + py p) l 0 - INR (length l) * py center)
      * sin (angleDeg * PI / 180)
    + INR (length l) * px center.
Proof.
  induction l as [|p l IH].
  - simpl. ring.
  - cbn [map fold_left]. change (length (p :: l)) with (S (length l)).
    rewrite S_INR.
    rewrite (fold_sum_acc px (map rot l)), (fold_sum_acc px l),
      (fold_sum_acc py l), IH.
    unfold rot, rotatePoint; cbn [px py]. ring.
Qed.

Lemma sum_py_rotated (l : list Point) :
  fold_left (fun sum p => sum + py p) (map rot l) 0
  = (fold_left (fun sum p => sum + px p) l 0 - INR (length l) * px center)
      * sin (angleDeg * PI / 180)
    + (fold_left (fun sum p => sum + py p) l 0 - INR (length l) * py center)
      * cos (angleDeg * PI / 180)
    + INR (length l) * py center.
Proof.
  induction l as [|p l IH].
  - simpl. ring.
  - cbn [map fold_left]. change (length (p :: l)) with (S (length l)).
    rewrite S_INR.
    rewrite (fold_sum_acc py (map rot l)), (fold_sum_acc px l),
      (fold_sum_acc py l), IH.
    unfold rot, rotatePoint; cbn [px py]. ring.
Qed.

End Rotation.

(** Rotating a non-empty polygon about its own centroid keeps the
    centroid where it was. *)
Lemma getPolyCenter_rotatePoints (poly : list Point) (angleDeg : R) :
  poly <> [] ->
  getPolyCenter (rotatePoints poly (getPolyCenter poly) angleDeg)
  = getPolyCenter poly.
Proof.
  intros Hne.
  assert (Hn : INR (length poly) <> 0).
  { destruct poly; [easy|]. apply not_0_INR. simpl. lia. }
  unfold getPolyCenter at 1 3. unfold rotatePoints.
  rewrite sum_px_rotated, sum_py_rotated, length_map.
  unfold getPolyCenter; cbn [px py]. f_equal; field; exact Hn.
Qed.

(** C4.  Rotating the four corners of a quadrilateral about their
    centroid, by any angle, preserves every pairwise corner distance and
    the centroid. *)
Theorem rotation_preserves_shape (poly : list Point) (angleDeg : R) :
  length poly = 4%nat ->
  let center := getPolyCenter poly in
  let rotated := rotatePoints poly center angleDeg in
  length rotated = 4%nat
  /\ (forall i j p q p' q',
        nth_error poly i = Some p -> nth_error poly j = Some q ->
        nth_error rotated i = Some p' -> nth_error rotated j = Some q' ->
        dist p' q' = dist p q)
  /\ getPolyCenter rotated = center.
Proof.
  intros Hlen center rotated. repeat split.
  - unfold rotated, rotatePoints. now rewrite length_map.
  - intros i j p q p' q' Hp Hq Hp' Hq'.
    unfold rotated, rotatePoints in Hp', Hq'.
    rewrite nth_error_map, Hp in Hp'. rewrite nth_error_map, Hq in Hq'.
    simpl in Hp', Hq'. injection Hp' as <-. injection Hq' as <-.
    apply rotatePoint_dist.
  - apply getPolyCenter_rotatePoints. intros ->. discriminate.
Qed.

Lemma rotation_preserves_shape_witness :
  let poly := [mkPoint 0 0; mkPoint 4 0; mkPoint 4 2; mkPoint 0 2] in
  let rotated := rotatePoints poly (getPolyCenter poly) 90 in
  length rotated = 4%nat
  /\ (forall i j p q p' q',
        nth_error poly i = Some p -> nth_error poly j = Some q ->
        nth_error rotated i = Some p' -> nth_error rotated j = Some q' ->
        dist p' q' = dist p q)
  /\ getPolyCenter rotated = getPolyCenter poly.
Proof.
  exact (rotation_preserves_shape
           [mkPoint 0 0; mkPoint 4 0; mkPoint 4 2; mkPoint 0 2] 90 eq_refl).
Defined.

(** ** Point in polygon *)

Ltac edge_value :=
  unfold crossesEdge; cbn [px py]; js_cmp; cbn [andb orb]; js_cmp;
  reflexivity.

(** Evaluate every edge crossing of a concrete polygon and point. *)
Ltac crossings :=
  repeat match goal with
  | |- context [crossesEdge ?a ?b ?c] =>
      let v := fresh "v" in
      first [ assert (v : crossesEdge a b c = true) by edge_value
            | assert (v : crossesEdge a b c = false) by edge_value ];
      rewrite !v; clear v
  end.

Ltac in_poly :=
  unfold isPointInPoly; cbn [polyLoop last]; crossings; cbn [negb];
  reflexivity.

(** The boundary behaviour on the vertices of the square: the vertex with
    the smallest coordinates counts as inside, the other three as
    outside. *)
Lemma isPointInPoly_square_vertices :
  isPointInPoly (mkPoint 0 0) square10 = true
  /\ isPointInPoly (mkPoint 10 0) square10 = false
  /\ isPointInPoly (mkPoint 10 10) square10 = false
  /\ isPointInPoly (mkPoint 0 10) square10 = false.
Proof. unfold square10. repeat split; in_poly. Qed.

(** C9.  On the square [(0,0),(10,0),(10,10),(0,10)] the test puts (5,5)
    inside and (15,15) outside, and for every polygon and point (a vertex
    included) it has exactly one answer. *)
Theorem isPointInPoly_square :
  isPointInPoly (mkPoint 5 5) square10 = true
  /\ isPointInPoly (mkPoint 15 15) square10 = false
  /\ (forall pt poly, exists! b : bool, isPointInPoly pt poly = b)
  /\ (exists! b : bool, isPointInPoly (mkPoint 0 0) square10 = b).
Proof.
  unfold square10. split; [in_poly|]. split; [in_poly|]. split.
  - intros pt poly. exists (isPointInPoly pt poly). split; [reflexivity|].
    intros b Hb. exact Hb.
  - exists true. split; [in_poly|]. intros b <-. symmetry. in_poly.
Qed.

(** ** History *)

(** Read a field through the setters applied before. *)
Ltac fields :=
  cbn [displays
       selectedCameraId activeDisplayId isDragging isResizing isDrawing drawingDisplayId dragStartX
       dragStartY activeCornerIndex originalCorners isRotating activeSideIndex
       rotateStartAngle rotateStartValue displayCenter undoStack redoStack
       set_displays set_selectedCameraId set_activeDisplayId set_isDragging
       set_isResizing set_isDrawing set_drawingDisplayId set_dragStartX set_dragStartY
       set_activeCornerIndex set_originalCorners set_isRotating set_activeSideIndex
       set_rotateStartAngle set_rotateStartValue set_displayCenter
       set_undoStack set_redoStack
       id name camId box rotation enablePerspective corners
       set_corners set_rotation] in *.

Lemma cloneDisplay_idem d : cloneDisplay (cloneDisplay d) = cloneDisplay d.
Proof. destruct d as [i n c b [z| |] e cs]; reflexivity. Qed.

Lemma jsonClone_idem ds : jsonClone (jsonClone ds) = jsonClone ds.
Proof.
  unfold jsonClone. rewrite map_map. apply map_ext, cloneDisplay_idem.
Qed.


Lemma saveState_displays s : displays (saveState s) = displays s.
Proof. reflexivity. Qed.

Lemma saveState_redoStack s : redoStack (saveState s) = [].
Proof. reflexivity. Qed.

Lemma saveState_undoStack s :
  (length (undoStack s) <= 50)%nat ->
  undoStack (saveState s)
  = lastN 50 (push (jsonClone (displays s)) (undoStack s)).
Proof.
  intros Hle. unfold saveState, lastN, push, shift. fields.
  set (c := jsonClone (displays s)).
  rewrite length_app; cbn [length].
  destruct (Nat.ltb_spec 50 (length (undoStack s) + 1)) as [H|H].
  - replace (length (undoStack s) + 1 - 50)%nat with 1%nat by lia.
    destruct (undoStack s); reflexivity.
  - replace (length (undoStack s) + 1 - 50)%nat with 0%nat by lia.
    reflexivity.
Qed.

Lemma saveState_length s :
  (length (undoStack s) <= 50)%nat ->
  (length (undoStack (saveState s)) <= 50)%nat.
Proof.
  intros Hle. unfold saveState, push, shift. fields.
  destruct (Nat.ltb_spec 50 (length (undoStack s ++ [jsonClone (displays s)])))
    as [H|H]; [|exact H].
  rewrite length_app in H; cbn [length] in H.
  destruct (undoStack s) as [|x l]; cbn [length app tl] in *; [lia|].
  rewrite length_app; cbn [length]. lia.
Qed.

Lemma capped_saveState s : capped s -> capped (saveState s).
Proof.
  unfold capped. intros H. rewrite saveState_redoStack; cbn [length].
  pose proof (saveState_length s). lia.
Qed.

Lemma length_removelast_cons {A} (x : A) l :
  length (removelast (x :: l)) = length l.
Proof. rewrite removelast_firstn_len, length_firstn. cbn [length]. lia. Qed.

Lemma capped_undo s : capped s -> capped (undo s).
Proof.
  unfold capped, undo. destruct (undoStack s) as [|x l] eqn:E; [now rewrite E|].
  fields. unfold push. rewrite length_app, length_removelast_cons.
  cbn [length]. lia.
Qed.

Lemma capped_redo s : capped s -> capped (redo s).
Proof.
  unfold capped, redo. destruct (redoStack s) as [|x l] eqn:E; [now rewrite E|].
  fields. unfold push. rewrite length_app, length_removelast_cons.
  cbn [length]. lia.
Qed.

(** Case analysis on every test that a handler makes. *)
Ltac handler_cases :=
  repeat match goal with
  | |- context [if ?b then _ else _] => destruct b
  | |- context [match ?x with _ => _ end] => destruct x
  end.

(** Apart from undo and redo, a handler either leaves both stacks alone or
    leaves them as [saveState] does. *)
Lemma step_history e s :
  e <> Undo -> e <> Redo ->
  (undoStack (step e s) = undoStack s /\ redoStack (step e s) = redoStack s)
  \/ (undoStack (step e s) = undoStack (saveState s)
      /\ redoStack (step e s) = redoStack (saveState s)).
Proof.
  intros HU HR. destruct e; try congruence; cbn [step].
  - unfold mousedown. handler_cases; fields; auto.
  - unfold mousemove. handler_cases; fields; auto.
  - unfold mouseup, endGesture. handler_cases; fields; auto.
  - unfold updateDisplay. handler_cases; fields; auto.
  - unfold deleteDisplay. fields; auto.
  - unfold closePanel. fields; auto.
  - unfold startAddDisplayMode. handler_cases; fields; auto.
  - fields; auto.
Qed.

Lemma Event_undo_redo e : {e = Undo} + {e = Redo} + {e <> Undo /\ e <> Redo}.
Proof. destruct e; auto; right; split; discriminate. Qed.

Lemma capped_step e s : capped s -> capped (step e s).
Proof.
  intros H.
  destruct (Event_undo_redo e) as [[->| ->]|[HU HR]].
  - apply capped_undo, H.
  - apply capped_redo, H.
  - destruct (step_history e s HU HR) as [[E1 E2]|[E1 E2]];
      unfold capped; rewrite E1, E2; [exact H|apply capped_saveState, H].
Qed.

Lemma reachable_capped s : reachable s -> capped s.
Proof.
  induction 1 as [|e s _ IH].
  - unfold capped; cbn. lia.
  - apply capped_step, IH.
Qed.

Lemma lastN_app_lastN {A} (n : nat) (l r : list A) :
  lastN n (lastN n l ++ r) = lastN n (l ++ r).
Proof.
  unfold lastN. rewrite !length_app, length_skipn.
  destruct (Nat.le_gt_cases (length l) n) as [H|H].
  - replace (length l - n)%nat with 0%nat by lia. cbn [skipn].
    now rewrite Nat.sub_0_r.
  - replace (length l - (length l - n) + length r - n)%nat
      with (length r) by lia.
    replace (length l + length r - n)%nat
      with (length r + (length l - n))%nat by lia.
    rewrite <- skipn_skipn. f_equal.
    rewrite skipn_app.
    replace (length l - n - length l)%nat with 0%nat by lia.
    reflexivity.
Qed.

Lemma pushAll_undoStack (snaps : list (list Display)) s :
  (length (undoStack s) <= 50)%nat ->
  undoStack (pushAll snaps s) = lastN 50 (undoStack s ++ map jsonClone snaps).
Proof.
  revert s. induction snaps as [|ds snaps IH]; intros s Hle.
  - cbn [pushAll fold_left map]. rewrite app_nil_r. unfold lastN.
    replace (length (undoStack s) - 50)%nat with 0%nat by lia. reflexivity.
  - change (pushAll (ds :: snaps) s)
      with (pushAll snaps (saveState (set_displays ds s))).
    rewrite IH by (apply saveState_length; exact Hle).
    rewrite saveState_undoStack by exact Hle. fields. unfold push.
    rewrite lastN_app_lastN, <- app_assoc. reflexivity.
Qed.

(** C3.  At every reachable state the undo stack holds at most 50
    snapshots; [saveState] clears the redo stack and keeps the 50 most
    recent entries, evicting the oldest; every operation, undo and redo
    included, keeps the bound; and 60 pushes in a row leave exactly the 50
    most recent snapshots. *)
Theorem undo_stack_capped (s : State) :
  reachable s ->
  (length (undoStack s) <= 50)%nat
  /\ redoStack (saveState s) = []
  /\ undoStack (saveState s)
     = lastN 50 (push (jsonClone (displays s)) (undoStack s))
  /\ (forall e, (length (undoStack (step e s)) <= 50)%nat)
  /\ (forall snaps : list (list Display),
        length snaps = 60%nat ->
        undoStack (pushAll snaps init) = map jsonClone (skipn 10 snaps)).
Proof.
  intros Hr. pose proof (reachable_capped s Hr) as Hc.
  assert (Hle : (length (undoStack s) <= 50)%nat) by (unfold capped in Hc; lia).
  split; [exact Hle|]. split; [reflexivity|].
  split; [apply saveState_undoStack, Hle|]. split.
  - intros e. pose proof (capped_step e s Hc) as H. unfold capped in H. lia.
  - intros snaps Hlen. rewrite pushAll_undoStack by (cbn; lia).
    cbn [undoStack init app]. unfold lastN.
    rewrite length_map, Hlen. cbn [Nat.sub]. apply skipn_map.
Qed.

Lemma undo_stack_capped_witness :
  let s := step (StartAddDisplayMode 1) init in
  reachable s
  /\ (length (undoStack s) <= 50)%nat
  /\ redoStack (saveState s) = []
  /\ undoStack (saveState s)
     = lastN 50 (push (jsonClone (displays s)) (undoStack s))
  /\ (forall e, (length (undoStack (step e s)) <= 50)%nat)
  /\ (forall snaps : list (list Display),
        length snaps = 60%nat ->
        undoStack (pushAll snaps init) = map jsonClone (skipn 10 snaps)).
Proof.
  split.
  - apply reach_step, reach_init.
  - apply (undo_stack_capped (step (StartAddDisplayMode 1) init)).
    apply reach_step, reach_init.
Defined.

(** ** Undo and redo *)

Lemma undo_snoc s U c :
  undoStack s = U ++ [c] ->
  undoStack (undo s) = U
  /\ displays (undo s) = c
  /\ redoStack (undo s) = redoStack s ++ [jsonClone (displays s)].
Proof.
  intros H. unfold undo. rewrite H.
  destruct U as [|u U]; cbn [app]; fields.
  - repeat split.
  - change (u :: U ++ [c]) with ((u :: U) ++ [c]).
    rewrite removelast_last, last_last. repeat split.
Qed.






(** A push never evicts one of the newest 49 entries. *)
Lemma saveState_keeps s U C :
  undoStack s = U ++ C -> (length C < 50)%nat ->
  exists U', undoStack (saveState s) = U' ++ (C ++ [jsonClone (displays s)]).
Proof.
  intros H Hlen. unfold saveState, push, shift. fields. rewrite H.
  destruct (Nat.ltb_spec 50 (length ((U ++ C) ++ [jsonClone (displays s)])))
    as [Hlt|_].
  - rewrite !length_app in Hlt; cbn [length] in Hlt.
    destruct U as [|u U]; [cbn [length] in Hlt; lia|].
    exists U. cbn [app tl]. now rewrite app_assoc.
  - exists U. now rewrite app_assoc.
Qed.






(** The mutating gestures of the editor each push one snapshot. *)
Lemma deleteDisplay_pushesOnce s : pushesOnce [DeleteDisplay] s.
Proof. split; reflexivity. Qed.

Lemma updateDisplay_pushesOnce propName propRotation propPerspective s d :
  findDisplay (activeDisplayId s) (displays s) = Some d ->
  pushesOnce [UpdateDisplay propName propRotation propPerspective] s.
Proof.
  intros H. unfold pushesOnce, run; cbn [fold_left step].
  unfold updateDisplay. rewrite H. split; reflexivity.
Qed.

Lemma mousemove_history mouseX mouseY target s :
  undoStack (mousemove mouseX mouseY target s) = undoStack s
  /\ redoStack (mousemove mouseX mouseY target s) = redoStack s.
Proof. unfold mousemove. handler_cases; fields; auto. Qed.

Lemma mouseup_history s :
  undoStack (mouseup s) = undoStack s /\ redoStack (mouseup s) = redoStack s.
Proof. unfold mouseup, endGesture. handler_cases; fields; auto. Qed.

Lemma mousedown_history mouseX mouseY altKey target now s :
  shown target = true ->
  outsideMedia mouseX mouseY target = false ->
  hitTest mouseX mouseY (offsetX target) (offsetY target) (scaleDown target)
    (displayOrder altKey s) <> Threw ->
  undoStack (mousedown mouseX mouseY altKey target now s)
  = undoStack (saveState s)
  /\ redoStack (mousedown mouseX mouseY altKey target now s) = [].
Proof.
  intros Hs Hin Hhit. unfold mousedown. rewrite Hs, Hin. cbn [negb].
  destruct (hitTest _ _ _ _ _ _) as [d [idx| |idx|]| |];
    try contradiction; fields; split; reflexivity.
Qed.

Lemma pointerGesture_pushesOnce mouseX mouseY altKey target now moves s :
  shown target = true ->
  outsideMedia mouseX mouseY target = false ->
  hitTest mouseX mouseY (offsetX target) (offsetY target) (scaleDown target)
    (displayOrder altKey s) <> Threw ->
  pushesOnce (pointerGesture mouseX mouseY altKey target now moves) s.
Proof.
  intros Hs Hin Hhit.
  destruct (mousedown_history mouseX mouseY altKey target now s Hs Hin Hhit)
    as [HU HR].
  unfold pushesOnce, pointerGesture, run. cbn [fold_left step].
  rewrite <- HU, <- HR.
  generalize (mousedown mouseX mouseY altKey target now s) as st.
  induction moves as [|m moves IH]; intros st; cbn [map app fold_left step].
  - apply mouseup_history.
  - destruct (mousemove_history (fst m) (snd m) target st) as [<- <-].
    apply IH.
Qed.

Lemma run_pointerGesture mouseX mouseY altKey target now moves s :
  run (pointerGesture mouseX mouseY altKey target now moves) s
  = gesture mouseX mouseY altKey target now moves s.
Proof.
  unfold pointerGesture, gesture, run, moveAll. cbn [fold_left step].
  generalize (mousedown mouseX mouseY altKey target now s) as st.
  induction moves as [|m moves IH]; intros st; cbn [map app fold_left step];
    [reflexivity|apply IH].
Qed.



(** A snapshot turns a [NaN] rotation into [null]: undoing a gesture that
    started from a region list with a [NaN] rotation does not give that
    list back. *)
Lemma undo_NaN_rotation :
  let s := run [StartAddDisplayMode 1; UpdateDisplay "A" "" false]
               cameraSelected in
  map rotation (displays s) = [RotNaN]
  /\ pushesOnce [UpdateDisplay "B" "90" true] s
  /\ map rotation (displays (undo (run [UpdateDisplay "B" "90" true] s)))
     = [RotNull].
Proof.
  split; [vm_compute; reflexivity|]. split; [|vm_compute; reflexivity].
  split; vm_compute; reflexivity.
Qed.

(** ** Adding a region without a camera *)

Lemma saveState_top s :
  exists older, undoStack (saveState s) = older ++ [jsonClone (displays s)].
Proof.
  destruct (saveState_keeps s (undoStack s) []) as [U HU];
    [now rewrite app_nil_r|cbn; lia|].
  exists U. exact HU.
Qed.

(** C10.  With no camera selected, [startAddDisplayMode] adds no region
    but has already pushed a snapshot of the region list on the undo stack
    and cleared the redo stack: it does what [saveState] does, and nothing
    else. *)
Theorem startAddDisplayMode_no_camera (now : N) (s : State) :
  noCameraSelected s = true ->
  let s' := startAddDisplayMode now s in
  s' = saveState s
  /\ displays s' = displays s
  /\ redoStack s' = []
  /\ (exists older, undoStack s' = older ++ [jsonClone (displays s)])
  /\ ((length (undoStack s) < 50)%nat ->
      length (undoStack s') = S (length (undoStack s))).
Proof.
  intros Hc s'.
  assert (E : s' = saveState s).
  { unfold s', startAddDisplayMode.
    replace (noCameraSelected (saveState s)) with true; reflexivity. }
  rewrite E. split; [reflexivity|]. split; [reflexivity|].
  split; [reflexivity|]. split; [apply saveState_top|].
  intros Hlt. unfold saveState, push, shift. fields.
  destruct (Nat.ltb_spec 50 (length (undoStack s ++ [jsonClone (displays s)])))
    as [H|H]; rewrite length_app in *; cbn [length] in *; lia.
Qed.

Lemma startAddDisplayMode_no_camera_witness :
  let s' := startAddDisplayMode 7 init in
  s' = saveState init
  /\ displays s' = displays init
  /\ redoStack s' = []
  /\ (exists older, undoStack s' = older ++ [jsonClone (displays init)])
  /\ ((length (undoStack init) < 50)%nat ->
      length (undoStack s') = S (length (undoStack init))).
Proof. exact (startAddDisplayMode_no_camera 7 init eq_refl). Defined.

(** ** Drawing a region *)

Lemma hasId_eq ident d : hasId (Some ident) d = String.eqb (id d) ident.
Proof. reflexivity. Qed.

Lemma findDisplay_fresh ident ds d :
  Forall (fun x => id x <> ident) ds -> id d = ident ->
  findDisplay (Some ident) (ds ++ [d]) = Some d.
Proof.
  intros Hf Hd. unfold findDisplay. induction Hf as [|x ds Hx _ IH].
  - cbn [app find]. rewrite hasId_eq, Hd, String.eqb_refl. reflexivity.
  - cbn [app find]. rewrite hasId_eq.
    destruct (String.eqb_spec (id x) ident); [contradiction|exact IH].
Qed.

Lemma updateFirst_fresh ident f ds d :
  Forall (fun x => id x <> ident) ds -> id d = ident ->
  updateFirst (Some ident) f (ds ++ [d]) = ds ++ [f d].
Proof.
  intros Hf Hd. induction Hf as [|x ds Hx _ IH].
  - cbn [app updateFirst]. rewrite hasId_eq, Hd, String.eqb_refl.
    reflexivity.
  - cbn [app updateFirst]. rewrite hasId_eq.
    destruct (String.eqb_spec (id x) ident); [contradiction|now rewrite IH].
Qed.

Lemma filter_fresh ident ds d :
  Forall (fun x => id x <> ident) ds -> id d = ident ->
  filter (fun x => negb (hasId (Some ident) x)) (ds ++ [d]) = ds.
Proof.
  intros Hf Hd. induction Hf as [|x ds Hx _ IH].
  - cbn [app filter]. rewrite hasId_eq, Hd, String.eqb_refl. reflexivity.
  - cbn [app filter]. rewrite hasId_eq.
    destruct (String.eqb_spec (id x) ident); [contradiction|].
    cbn [negb]. now rewrite IH.
Qed.

(** Settle [Rmin], [Rmax] and [Rabs] once the order of [a] and [b] is
    known. *)
Ltac minmax a b :=
  destruct (Rle_lt_dec a b);
  repeat match goal with
         | |- context [Rmin ?x ?y] =>
             first [ rewrite (Rmin_left x y) by lra
                   | rewrite (Rmin_right x y) by lra ]
         | |- context [Rmax ?x ?y] =>
             first [ rewrite (Rmax_left x y) by lra
                   | rewrite (Rmax_right x y) by lra ]
         | |- context [Rabs ?x] =>
             first [ rewrite (Rabs_right x) by lra
                   | rewrite (Rabs_left1 x) by lra ]
         end.

Lemma boundingBox_rectangle (x0 y0 x1 y1 : R) :
  boundingBox (rectangle x0 y0 x1 y1)
  = mkBox (Rmin x0 x1) (Rmin y0 y1) (Rabs (x1 - x0)) (Rabs (y1 - y0)).
Proof.
  unfold boundingBox, rectangle; cbn [map px py].
  unfold Js.Math_min, Js.Math_max; cbn [fold_left].
  f_equal.
  - minmax x0 x1; lra.
  - minmax y0 y1; lra.
  - minmax x0 x1; lra.
  - minmax y0 y1; lra.
Qed.

(** Evaluate accesses at the constant indices 0 to 3. *)
Ltac indices :=
  cbn [Z.ltb Z.compare Z.to_nat] in *;
  change (Pos.to_nat 1) with 1%nat in *;
  change (Pos.to_nat 2) with 2%nat in *;
  change (Pos.to_nat 3) with 3%nat in *;
  cbn [nth_error replaceNth px py] in *.

Lemma last_cons_default {A} (x : A) (l : list A) (d d' : A) :
  last (x :: l) d = last (x :: l) d'.
Proof.
  revert x. induction l as [|y l IH]; intros x; [reflexivity|].
  change (last (x :: y :: l) d) with (last (y :: l) d).
  change (last (x :: y :: l) d') with (last (y :: l) d'). apply IH.
Qed.

Section Drawing.

Variables (s : State) (target : Media) (mouseX0 mouseY0 : R).
Variables (altKey : bool) (now : N).

Hypothesis Hstart : startsDrawing mouseX0 mouseY0 altKey target s.
Hypothesis Hfresh : freshId now s.
Hypothesis Hidle : isRotating s = false.
Hypothesis Hscale : scaleMove target = scaleDown target.
Hypothesis Hnz : scaleDown target <> 0.

Let scale := scaleDown target.
Let x0 := (mouseX0 - offsetX target) / scale.
Let y0 := (mouseY0 - offsetY target) / scale.

(** The provisional region with the given corners. *)
Let newD (cs : list Point) : Display :=
  mkDisplay (newId now) "New Display" (selectedCameraId s) None (RotNum 0)
    false cs.

Let pressed : State := mousedown mouseX0 mouseY0 altKey target now s.

(** The state while drawing, the provisional region having corners [cs]. *)
Let drawing (cs : list Point) : State :=
  set_displays (displays s ++ [newD cs]) pressed.

Lemma pressed_drawing : pressed = drawing (rectangle x0 y0 x0 y0).
Proof.
  destruct Hstart as (Hshown & Hin & Hhit).
  unfold drawing, pressed, mousedown.
  rewrite Hshown, Hin, Hhit. cbn [negb]. reflexivity.
Qed.

Lemma pressed_fields :
  isDrawing pressed = true
  /\ isRotating pressed = false
  /\ activeDisplayId pressed = Some (newId now)
  /\ drawingDisplayId pressed = Some (newId now)
  /\ originalCorners pressed = rectangle x0 y0 x0 y0
  /\ dragStartX pressed = mouseX0
  /\ dragStartY pressed = mouseY0.
Proof.
  destruct Hstart as (Hshown & Hin & Hhit).
  unfold pressed, mousedown. rewrite Hshown, Hin, Hhit. cbn [negb].
  unfold saveState. fields. rewrite Hidle. repeat split.
Qed.

Lemma set_displays_twice a b st :
  set_displays a (set_displays b st) = set_displays a st.
Proof. reflexivity. Qed.

Lemma mousemove_drawing (a b mouseX mouseY : R) :
  mousemove mouseX mouseY target (drawing (rectangle x0 y0 a b))
  = drawing (rectangle x0 y0 ((mouseX - offsetX target) / scale)
                             ((mouseY - offsetY target) / scale)).
Proof.
  destruct pressed_fields as (HD & HR & HA & _ & HO & HX & HY).
  unfold mousemove, drawing. fields. rewrite HD, HR, HA, HO, HX, HY.
  cbn [negb andb]. rewrite Bool.andb_false_r. cbn [andb].
  rewrite findDisplay_fresh by (exact Hfresh || reflexivity).
  rewrite updateFirst_fresh by (exact Hfresh || reflexivity).
  rewrite set_displays_twice, Hscale. fold scale. do 3 f_equal.
  unfold newD, rectangle, assignX, assignY, written, corner. fields.
  indices. unfold set_corners. fields. f_equal.
  repeat match goal with
         | |- _ :: _ = _ :: _ => f_equal
         | |- mkPoint _ _ = mkPoint _ _ => f_equal
         end; try reflexivity; unfold x0, y0; field; exact Hnz.
Qed.

Lemma moveAll_drawing (moves : list (R * R)) :
  forall a b pointer,
    a = (fst pointer - offsetX target) / scale ->
    b = (snd pointer - offsetY target) / scale ->
    moveAll moves target (drawing (rectangle x0 y0 a b))
    = drawing (rectangle x0 y0
                 ((fst (last moves pointer) - offsetX target) / scale)
                 ((snd (last moves pointer) - offsetY target) / scale)).
Proof.
  induction moves as [|[mx my] moves IH]; intros a b pointer Ha Hb.
  - cbn [moveAll fold_left last]. now rewrite Ha, Hb.
  - change (moveAll ((mx, my) :: moves) target ?st)
      with (moveAll moves target (mousemove mx my target st)).
    rewrite mousemove_drawing, (IH _ _ (mx, my)) by reflexivity.
    destruct moves as [|m' moves']; [reflexivity|].
    now rewrite (last_cons_default m' moves' (mx, my) pointer).
Qed.

Lemma mouseup_drawing (x1 y1 : R) :
  let final := mouseup (drawing (rectangle x0 y0 x1 y1)) in
  if Js.ltb (Rabs (x1 - x0)) 20 || Js.ltb (Rabs (y1 - y0)) 20 then
    displays final = displays s /\ activeDisplayId final = None
  else
    displays final = displays s ++ [newD (rectangle x0 y0 x1 y1)]
    /\ activeDisplayId final = Some (newId now).
Proof.
  destruct pressed_fields as (HD & _ & HA & HDD & _).
  unfold mouseup, drawing. fields. rewrite HD, HDD.
  rewrite findDisplay_fresh by (exact Hfresh || reflexivity).
  unfold newD, rectangle, corner. fields. indices.
  unfold Js.Math_abs.
  rewrite (Rabs_minus_sym x0 x1), (Rabs_minus_sym y0 y1).
  destruct (Js.ltb (Rabs (x1 - x0)) 20 || Js.ltb (Rabs (y1 - y0)) 20);
    unfold endGesture; fields.
  - rewrite filter_fresh by (exact Hfresh || reflexivity). split; reflexivity.
  - split; [reflexivity|exact HA].
Qed.

Lemma mouseup_drawing_ends (x1 y1 : R) :
  let final := mouseup (drawing (rectangle x0 y0 x1 y1)) in
  isDrawing final = false /\ isDragging final = false
  /\ isResizing final = false /\ isRotating final = false
  /\ activeCornerIndex final = (-1)%Z
  /\ activeSideIndex final = (-1)%Z.
Proof.
  destruct pressed_fields as (HD & _ & HA & HDD & _).
  unfold mouseup, drawing. fields. rewrite HD, HDD.
  rewrite findDisplay_fresh by (exact Hfresh || reflexivity).
  unfold newD, rectangle, corner. fields. indices.
  destruct (Js.ltb _ 20 || Js.ltb _ 20); unfold endGesture; fields;
    repeat split.
Qed.

(** C1, over exact reals.  Releasing a drawing gesture that went from the
    native point [p0] to the native point [p1] removes the provisional
    region when [|x1 - x0| < 20] or [|y1 - y0| < 20], and otherwise keeps
    it, selected, with the bounding box
    [(min x0 x1, min y0 y1, |x1 - x0|, |y1 - y0|)]; either way the gesture
    is over.  The numbers are real numbers here: on doubles the width of a
    region drawn exactly 20 wide can round below 20
    ([draw_release_rounding]). *)
Theorem draw_release (moves : list (R * R)) :
  drawOutcome mouseX0 mouseY0 altKey target now moves s.
Proof.
  unfold drawOutcome, gesture, toNative; cbn [px py].
  fold pressed scale x0 y0.
  rewrite pressed_drawing,
    (moveAll_drawing moves _ _ (mouseX0, mouseY0)) by reflexivity.
  set (x1 := (fst (last moves (mouseX0, mouseY0)) - offsetX target) / scale).
  set (y1 := (snd (last moves (mouseX0, mouseY0)) - offsetY target) / scale).
  pose proof (mouseup_drawing x1 y1) as Hup. cbn zeta in Hup.
  pose proof (mouseup_drawing_ends x1 y1) as Hend. cbn zeta in Hend.
  split; [|split; [|exact Hend]]; clear Hend;
    destruct (Js.ltb (Rabs (x1 - x0)) 20) eqn:Ex;
    destruct (Js.ltb (Rabs (y1 - y0)) 20) eqn:Ey; cbn [orb] in Hup;
    try apply Js_ltb_true in Ex; try apply Js_ltb_true in Ey;
    try apply Js_ltb_false in Ex; try apply Js_ltb_false in Ey;
    try (intros _; exact Hup);
    try (intros Hn; exfalso; apply Hn; auto; fail);
    try (intros [H|H]; lra).
  intros _. destruct Hup as [Hd Ha].
  eexists. split; [exact Hd|]. split; [reflexivity|].
  split; [exact Ha|]. split; [reflexivity|].
  split; [apply boundingBox_rectangle|]. repeat split.
Qed.

End Drawing.

Lemma image640_scale : scaleDown image640 = 1 /\ scaleMove image640 = 1.
Proof.
  unfold scaleDown, scaleMove, image640; cbn [tagVideo naturalWidth widthAttr
    renderedW videoWidth].
  rewrite Js_orElse_zero, !(Js_orElse_nonzero 640) by lra.
  split; field.
Qed.

Lemma image640_startsDrawing (mouseX mouseY : R) (altKey : bool) :
  0 <= mouseX <= 640 -> 0 <= mouseY <= 480 ->
  startsDrawing mouseX mouseY altKey image640 cameraSelected.
Proof.
  intros Hx Hy. split; [reflexivity|]. split.
  - unfold outsideMedia, image640; cbn [offsetX offsetY renderedW renderedH].
    js_cmp. reflexivity.
  - destruct altKey; reflexivity.
Qed.

Lemma image960_scale : scaleDown image960 = 3 / 2 /\ scaleMove image960 = 3 / 2.
Proof.
  unfold scaleDown, scaleMove, image960; cbn [tagVideo naturalWidth widthAttr
    renderedW videoWidth].
  rewrite Js_orElse_zero, !(Js_orElse_nonzero 640) by lra.
  split; field.
Qed.

Lemma image960_startsDrawing (mouseX mouseY : R) (altKey : bool) :
  0 <= mouseX <= 960 -> 0 <= mouseY <= 720 ->
  startsDrawing mouseX mouseY altKey image960 cameraSelected.
Proof.
  intros Hx Hy. split; [reflexivity|]. split.
  - unfold outsideMedia, image960; cbn [offsetX offsetY renderedW renderedH].
    js_cmp. reflexivity.
  - destruct altKey; reflexivity.
Qed.

(** On an empty region list, drawing from (0,0) to (100,100) commits a
    region with bounding box (0,0,100,100), and drawing 10 by 10 native
    pixels leaves the list empty; both gestures end.  On the image shown
    one and a half times as large, a region drawn from 26 to 56 across is
    exactly 20 wide and is kept. *)
Lemma draw_release_witness :
  (exists d,
      displays (gesture 0 0 false image640 1 [(40, 60); (100, 100)]
                  cameraSelected) = [d]
      /\ boundingBox (corners d) = mkBox 0 0 100 100)
  /\ isDrawing (gesture 0 0 false image640 1 [(40, 60); (100, 100)]
                  cameraSelected) = false
  /\ displays (gesture 0 0 false image640 1 [(10, 10)] cameraSelected) = []
  /\ (exists d,
         displays (gesture 26 0 false image960 1 [(56, 150)] cameraSelected)
         = [d]
         /\ bw (boundingBox (corners d)) = 20).
Proof.
  destruct image640_scale as [Hd Hm].
  assert (Hstart : startsDrawing 0 0 false image640 cameraSelected)
    by (apply image640_startsDrawing; lra).
  assert (Hfresh : freshId 1 cameraSelected) by constructor.
  assert (Hscale : scaleMove image640 = scaleDown image640)
    by (now rewrite Hd, Hm).
  assert (Hnz : scaleDown image640 <> 0) by (rewrite Hd; lra).
  split; [|split; [|split]].
  - destruct (draw_release cameraSelected image640 0 0 false 1
                Hstart Hfresh eq_refl Hscale Hnz [(40, 60); (100, 100)])
      as (_ & Hkeep & _).
    unfold toNative in Hkeep;
      cbn [px py last fst snd offsetX offsetY image640] in Hkeep.
    rewrite Hd in Hkeep.
    replace ((100 - 0) / 1) with 100 in Hkeep by field.
    replace ((0 - 0) / 1) with 0 in Hkeep by field.
    destruct Hkeep as (d & Hdisp & _ & _ & _ & Hbox & _).
    + rewrite Rminus_0_r, Rabs_right by lra. lra.
    + exists d. split; [exact Hdisp|].
      rewrite Hbox, Rminus_0_r, Rmin_left, Rabs_right by lra. reflexivity.
  - destruct (draw_release cameraSelected image640 0 0 false 1
                Hstart Hfresh eq_refl Hscale Hnz [(40, 60); (100, 100)])
      as (_ & _ & Hover & _).
    exact Hover.
  - destruct (draw_release cameraSelected image640 0 0 false 1
                Hstart Hfresh eq_refl Hscale Hnz [(10, 10)])
      as (Hdrop & _).
    apply Hdrop. left.
    unfold toNative; cbn [px py last fst snd offsetX offsetY image640].
    rewrite Hd. replace ((10 - 0) / 1 - (0 - 0) / 1) with 10 by field.
    rewrite Rabs_right; lra.
  - destruct image960_scale as [Hd' Hm'].
    assert (Hstart' : startsDrawing 26 0 false image960 cameraSelected)
      by (apply image960_startsDrawing; lra).
    assert (Hscale' : scaleMove image960 = scaleDown image960)
      by (now rewrite Hd', Hm').
    assert (Hnz' : scaleDown image960 <> 0) by (rewrite Hd'; lra).
    destruct (draw_release cameraSelected image960 26 0 false 1
                Hstart' Hfresh eq_refl Hscale' Hnz' [(56, 150)])
      as (_ & Hkeep & _).
    unfold toNative in Hkeep;
      cbn [px py last fst snd offsetX offsetY image960] in Hkeep.
    rewrite Hd' in Hkeep.
    replace ((56 - 0) / (3 / 2) - (26 - 0) / (3 / 2)) with 20 in Hkeep
      by field.
    replace ((150 - 0) / (3 / 2) - (0 - 0) / (3 / 2)) with 100 in Hkeep
      by field.
    destruct Hkeep as (d & Hdisp & _ & _ & _ & Hbox & _).
    + rewrite !Rabs_right by lra. lra.
    + exists d. split; [exact Hdisp|].
      rewrite Hbox. cbn [bw]. apply Rabs_right. lra.
Defined.

(** ** Resizing by an edge *)

Lemma findSide_index mouseX mouseY ox oy scale cs indices i :
  findSide mouseX mouseY ox oy scale cs indices = Side i -> In i indices.
Proof.
  induction indices as [|k rest IH]; cbn [findSide]; [discriminate|].
  destruct (corner cs k), (corner cs (Z.rem (k + 1) 4)); try discriminate.
  destruct (Js.ltb _ 10).
  - intros [= ->]. now left.
  - intros H. right. apply IH, H.
Qed.

Lemma hitTest_probe mouseX mouseY ox oy scale order d h :
  hitTest mouseX mouseY ox oy scale order = Found d h ->
  probeDisplay mouseX mouseY ox oy scale d = Matched h.
Proof.
  induction order as [|x rest IH]; cbn [hitTest]; [discriminate|].
  destruct (probeDisplay mouseX mouseY ox oy scale x) eqn:E; try discriminate.
  - intros [= <- <-]. exact E.
  - exact IH.
Qed.

Lemma probeDisplay_side mouseX mouseY ox oy scale d i :
  probeDisplay mouseX mouseY ox oy scale d = Matched (HitSide i) ->
  (0 <= i < 4)%Z.
Proof.
  unfold probeDisplay.
  destruct (negb _); [discriminate|].
  destruct (corner (corners d) 0), (corner (corners d) 1); try discriminate.
  destruct (_ && _); [discriminate|].
  destruct (findSide _ _ _ _ _ _ _) eqn:E; try discriminate.
  - intros [= <-]. apply findSide_index in E.
    cbn [In] in E. lia.
  - destruct (isPointInPoly _ _); discriminate.
Qed.

Lemma findDisplay_updateFirst ident f ds :
  (forall x, id (f x) = id x) ->
  findDisplay (Some ident) (updateFirst (Some ident) f ds)
  = option_map f (findDisplay (Some ident) ds).
Proof.
  intros Hid. unfold findDisplay.
  induction ds as [|x ds IH]; [reflexivity|].
  cbn [updateFirst find]. destruct (hasId (Some ident) x) eqn:E.
  - cbn [find]. rewrite hasId_eq, Hid, <- hasId_eq, E. reflexivity.
  - cbn [find]. rewrite E. exact IH.
Qed.

Lemma updateFirst_twice ident f g ds :
  (forall x, id (f x) = id x) ->
  updateFirst (Some ident) g (updateFirst (Some ident) f ds)
  = updateFirst (Some ident) (fun x => g (f x)) ds.
Proof.
  intros Hid. induction ds as [|x ds IH]; [reflexivity|].
  cbn [updateFirst]. destruct (hasId (Some ident) x) eqn:E.
  - cbn [updateFirst]. rewrite hasId_eq, Hid, <- hasId_eq, E. reflexivity.
  - cbn [updateFirst]. rewrite E, IH. reflexivity.
Qed.

Lemma updateFirst_ext ident f g ds :
  (forall x, f x = g x) ->
  updateFirst (Some ident) f ds = updateFirst (Some ident) g ds.
Proof.
  intros H. induction ds as [|x ds IH]; [reflexivity|].
  cbn [updateFirst]. now rewrite H, IH.
Qed.

Lemma updateFirst_found ident ds d :
  findDisplay (Some ident) ds = Some d ->
  updateFirst (Some ident) (fun _ => d) ds = ds.
Proof.
  unfold findDisplay. induction ds as [|x ds IH]; [reflexivity|].
  cbn [find updateFirst]. destruct (hasId (Some ident) x).
  - now intros [= ->].
  - intros H. now rewrite IH.
Qed.

Lemma updateFirst_at ident f ds d :
  findDisplay (Some ident) ds = Some d ->
  updateFirst (Some ident) f ds = updateFirst (Some ident) (fun _ => f d) ds.
Proof.
  unfold findDisplay. induction ds as [|x ds IH]; [reflexivity|].
  cbn [find updateFirst]. destruct (hasId (Some ident) x).
  - now intros [= ->].
  - intros H. now rewrite IH.
Qed.

Lemma corner_4 (c0 c1 c2 c3 : Point) (j : Z) :
  corner [c0; c1; c2; c3] j
  = if (j =? 0)%Z then Some c0
    else if (j =? 1)%Z then Some c1
    else if (j =? 2)%Z then Some c2
    else if (j =? 3)%Z then Some c3
    else None.
Proof.
  unfold corner.
  destruct (Z.ltb_spec j 0) as [Hneg|Hpos].
  - repeat match goal with
           | |- context [(j =? ?k)%Z] => destruct (Z.eqb_spec j k); [lia|]
           end.
    reflexivity.
  - repeat match goal with
           | |- context [(j =? ?k)%Z] =>
               destruct (Z.eqb_spec j k); [subst j; reflexivity|]
           end.
    apply nth_error_None. cbn [length]. lia.
Qed.

Section EdgeResize.

Variables (s : State) (target : Media) (mouseX0 mouseY0 : R).
Variables (altKey : bool) (now : N) (d : Display) (i : Z).
Variables c0 c1 c2 c3 : Point.

Hypothesis Hshown : shown target = true.
Hypothesis Hin : outsideMedia mouseX0 mouseY0 target = false.
Hypothesis Hhit :
  hitTest mouseX0 mouseY0 (offsetX target) (offsetY target)
    (scaleDown target) (displayOrder altKey s) = Found d (HitSide i).
Hypothesis Hcorners : corners d = [c0; c1; c2; c3].
Hypothesis Hfind : findDisplay (Some (id d)) (displays s) = Some d.
Hypothesis Hrot : isRotating s = false.
Hypothesis Hdraw : isDrawing s = false.
Hypothesis Hdrag : isDragging s = false.

Let pressed : State := mousedown mouseX0 mouseY0 altKey target now s.

(** The four assignments of the side branch, from the corners [cs]. *)
Let edge (dx dy : R) (cs : list Point) : list Point :=
  written (Running cs
             |> assignX (corners d) i dx
             |> assignY (corners d) i dy
             |> assignX (corners d) (Z.rem (i + 1) 4) dx
             |> assignY (corners d) (Z.rem (i + 1) 4) dy).

(** The state during the gesture, the edge being moved by [(dx, dy)]. *)
Let resizing (dx dy : R) : State :=
  set_displays
    (updateFirst (Some (id d)) (set_corners (edge dx dy (corners d)))
       (displays s))
    pressed.

Lemma edge_index : (i = 0 \/ i = 1 \/ i = 2 \/ i = 3)%Z.
Proof.
  pose proof (probeDisplay_side _ _ _ _ _ _ _ (hitTest_probe _ _ _ _ _ _ _ _ Hhit)).
  lia.
Qed.

Lemma edge_pressed_fields :
  activeSideIndex pressed = i
  /\ isRotating pressed = false
  /\ isDrawing pressed = false
  /\ isDragging pressed = false
  /\ isResizing pressed = false
  /\ activeDisplayId pressed = Some (id d)
  /\ originalCorners pressed = corners d
  /\ dragStartX pressed = mouseX0
  /\ dragStartY pressed = mouseY0
  /\ displays pressed = displays s.
Proof.
  unfold pressed, mousedown. rewrite Hshown, Hin, Hhit. cbn [negb].
  unfold saveState. fields. rewrite Hrot, Hdraw, Hdrag. repeat split.
Qed.

Lemma edge_again (dx dy dx' dy' : R) :
  edge dx dy (edge dx' dy' (corners d)) = edge dx dy (corners d).
Proof.
  unfold edge. rewrite Hcorners.
  destruct edge_index as [->|[->|[->| ->]]];
    unfold assignX, assignY, written, corner;
    (change (Z.rem (0 + 1) 4) with 1%Z || change (Z.rem (1 + 1) 4) with 2%Z
     || change (Z.rem (2 + 1) 4) with 3%Z || change (Z.rem (3 + 1) 4) with 0%Z);
    indices; reflexivity.
Qed.

Lemma edge_zero : edge 0 0 (corners d) = corners d.
Proof.
  unfold edge. rewrite Hcorners.
  destruct c0, c1, c2, c3.
  destruct edge_index as [->|[->|[->| ->]]];
    unfold assignX, assignY, written, corner;
    (change (Z.rem (0 + 1) 4) with 1%Z || change (Z.rem (1 + 1) 4) with 2%Z
     || change (Z.rem (2 + 1) 4) with 3%Z || change (Z.rem (3 + 1) 4) with 0%Z);
    indices; rewrite !Rplus_0_r; reflexivity.
Qed.

Lemma edge_corner (dx dy : R) (j : Z) :
  corner (edge dx dy (corners d)) j
  = if (j =? i)%Z || (j =? Z.rem (i + 1) 4)%Z
    then option_map (translate dx dy) (corner (corners d) j)
    else corner (corners d) j.
Proof.
  unfold edge. rewrite Hcorners.
  destruct edge_index as [->|[->|[->| ->]]];
    unfold assignX, assignY, written;
    (change (Z.rem (0 + 1) 4) with 1%Z || change (Z.rem (1 + 1) 4) with 2%Z
     || change (Z.rem (2 + 1) 4) with 3%Z || change (Z.rem (3 + 1) 4) with 0%Z);
    repeat (rewrite ?corner_4;
            cbn [Z.eqb Pos.eqb replaceNth Z.to_nat px py];
            change (Pos.to_nat 1) with 1%nat;
            change (Pos.to_nat 2) with 2%nat;
            change (Pos.to_nat 3) with 3%nat);
    repeat match goal with
           | |- context [(j =? ?k)%Z] =>
               destruct (Z.eqb_spec j k); [subst j; reflexivity|]
           end; reflexivity.
Qed.

Lemma edge_length (dx dy : R) : length (edge dx dy (corners d)) = 4%nat.
Proof.
  unfold edge. rewrite Hcorners.
  destruct edge_index as [->|[->|[->| ->]]];
    unfold assignX, assignY, written, corner;
    (change (Z.rem (0 + 1) 4) with 1%Z || change (Z.rem (1 + 1) 4) with 2%Z
     || change (Z.rem (2 + 1) 4) with 3%Z || change (Z.rem (3 + 1) 4) with 0%Z);
    indices; reflexivity.
Qed.

Lemma pressed_resizing : pressed = resizing 0 0.
Proof.
  unfold resizing. rewrite edge_zero.
  rewrite (updateFirst_at _ _ _ _ Hfind).
  replace (set_corners (corners d) d) with d by (destruct d; reflexivity).
  rewrite (updateFirst_found _ _ _ Hfind).
  unfold pressed, mousedown. rewrite Hshown, Hin, Hhit. cbn [negb].
  reflexivity.
Qed.

Lemma mousemove_resizing (a b mouseX mouseY : R) :
  mousemove mouseX mouseY target (resizing a b)
  = resizing ((mouseX - mouseX0) / scaleMove target)
             ((mouseY - mouseY0) / scaleMove target).
Proof.
  destruct edge_pressed_fields
    as (HS & HR & HD & HG & HZ & HA & HO & HX & HY & _).
  unfold mousemove, resizing. fields.
  rewrite HS, HR, HD, HG, HZ, HA, HO, HX, HY. cbn [negb andb].
  replace (i =? -1)%Z with false
    by (symmetry; apply Z.eqb_neq; pose proof edge_index; lia).
  rewrite findDisplay_updateFirst, Hfind by reflexivity. cbn [option_map].
  rewrite set_displays_twice, updateFirst_twice by reflexivity.
  f_equal. apply updateFirst_ext. intros x.
  unfold set_corners. fields. f_equal. apply edge_again.
Qed.

Lemma moveAll_resizing (moves : list (R * R)) :
  forall a b pointer,
    a = (fst pointer - mouseX0) / scaleMove target ->
    b = (snd pointer - mouseY0) / scaleMove target ->
    moveAll moves target (resizing a b)
    = resizing ((fst (last moves pointer) - mouseX0) / scaleMove target)
               ((snd (last moves pointer) - mouseY0) / scaleMove target).
Proof.
  induction moves as [|[mx my] moves IH]; intros a b pointer Ha Hb.
  - cbn [moveAll fold_left last]. now rewrite Ha, Hb.
  - change (moveAll ((mx, my) :: moves) target ?st)
      with (moveAll moves target (mousemove mx my target st)).
    rewrite mousemove_resizing, (IH _ _ (mx, my)) by reflexivity.
    destruct moves as [|m' moves']; [reflexivity|].
    now rewrite (last_cons_default m' moves' (mx, my) pointer).
Qed.

(** C7.  An edge-resize gesture on edge [i] moves corners [i] and
    [(i + 1) mod 4] by the native delta of the pointer, from where they
    were when the gesture started, and leaves the other two corners where
    they were. *)
Theorem edge_resize (moves : list (R * R)) :
  edgeOutcome mouseX0 mouseY0 altKey target now moves d i s.
Proof.
  unfold edgeOutcome, gesture. fold pressed.
  split; [pose proof edge_index; lia|].
  rewrite pressed_resizing.
  rewrite (moveAll_resizing moves 0 0 (mouseX0, mouseY0))
    by (cbn [fst snd]; unfold Rdiv; ring).
  set (dx := (fst (last moves (mouseX0, mouseY0)) - mouseX0) / scaleMove target).
  set (dy := (snd (last moves (mouseX0, mouseY0)) - mouseY0) / scaleMove target).
  destruct edge_pressed_fields as (_ & _ & HD & _).
  exists (set_corners (edge dx dy (corners d)) d).
  assert (Hup : displays (mouseup (resizing dx dy))
                = updateFirst (Some (id d))
                    (set_corners (edge dx dy (corners d))) (displays s)).
  { unfold mouseup, resizing. fields. rewrite HD. reflexivity. }
  rewrite Hup, findDisplay_updateFirst, Hfind by reflexivity.
  split; [reflexivity|]. cbn [corners set_corners].
  split; [apply edge_length|]. intros j. apply edge_corner.
Qed.

End EdgeResize.

Lemma oneRegion_displays :
  displays oneRegion = [region1]
  /\ displayOrder false oneRegion = [region1]
  /\ isRotating oneRegion = false
  /\ isDrawing oneRegion = false
  /\ isDragging oneRegion = false.
Proof. repeat split; vm_compute; reflexivity. Qed.

Lemma region1_no_corner_handle :
  cornerHandle 250 100 0 0 1 (corners region1) = (-1)%Z.
Proof.
  unfold cornerHandle, region1, toRendered; cbn [corners fold_left fst px py].
  unfold Js.Math_abs.
  replace (Rabs (250 - (0 + 100 * 1))) with 150 by (rewrite Rabs_right; lra).
  replace (Rabs (250 - (0 + 400 * 1))) with 150 by (rewrite Rabs_left; lra).
  js_cmp. reflexivity.
Qed.

Lemma region1_rotation_handle :
  rotationHandle 0 0 1 (mkPoint 100 100) (mkPoint 400 100) = mkPoint 250 140.
Proof.
  unfold rotationHandle, toRendered, Js.Math_sqrt; cbn [px py].
  replace ((0 + 400 * 1 - (0 + 100 * 1)) * (0 + 400 * 1 - (0 + 100 * 1))
           + (0 + 100 * 1 - (0 + 100 * 1)) * (0 + 100 * 1 - (0 + 100 * 1)))
    with (300 * 300) by ring.
  rewrite sqrt_square, Js_orElse_nonzero by lra.
  f_equal; field.
Qed.

Lemma region1_edge0_distance :
  distToSegment (mkPoint 250 100)
    (toRendered 0 0 1 (mkPoint 100 100)) (toRendered 0 0 1 (mkPoint 400 100))
  = 0.
Proof.
  unfold distToSegment, toRendered; cbn [px py].
  match goal with
  | |- context [Req_dec_T ?x 0] =>
      destruct (Req_dec_T x 0) as [E|_]; [exfalso; lra|]
  end.
  match goal with
  | |- context [Rmax 0 ?t] =>
      replace (Rmax 0 t) with (/ 2)
        by (rewrite Rmin_right, Rmax_right by lra; lra)
  end.
  unfold Js.Math_sqrt.
  transitivity (sqrt 0); [f_equal; field|apply sqrt_0].
Qed.

(** A press in the middle of the top edge of [region1] grabs edge 0. *)
Lemma region1_edge0_hit :
  hitTest 250 100 (offsetX image640) (offsetY image640) (scaleDown image640)
    (displayOrder false oneRegion) = Found region1 (HitSide 0).
Proof.
  destruct oneRegion_displays as (_ & -> & _).
  destruct image640_scale as [-> _].
  cbn [hitTest offsetX offsetY image640].
  assert (Hprobe : probeDisplay 250 100 0 0 1 region1 = Matched (HitSide 0)).
  { unfold probeDisplay. rewrite region1_no_corner_handle.
    change (negb (-1 =? -1)%Z) with false. cbn match.
    change (corner (corners region1) 0) with (Some (mkPoint 100 100)).
    change (corner (corners region1) 1) with (Some (mkPoint 400 100)).
    cbn match. rewrite region1_rotation_handle; cbn [px py].
    unfold Js.Math_abs.
    replace (Rabs (100 - 140)) with 40 by (rewrite Rabs_left; lra).
    js_cmp. rewrite Bool.andb_false_r. cbn [findSide].
    change (corner (corners region1) 0) with (Some (mkPoint 100 100)).
    change (corner (corners region1) (Z.rem (0 + 1) 4))
      with (Some (mkPoint 400 100)).
    cbn match. rewrite region1_edge0_distance. js_cmp. reflexivity. }
  rewrite Hprobe. reflexivity.
Qed.

(** Dragging edge 0 of [region1] by (10, 30) moves corners 0 and 1 by
    (10, 30) and leaves corners 2 and 3 in place. *)
Lemma edge_resize_witness :
  exists d',
    findDisplay (Some "disp_1"%string)
      (displays (gesture 250 100 false image640 2 [(260, 130)] oneRegion))
    = Some d'
    /\ corners d'
       = [mkPoint 110 130; mkPoint 410 130; mkPoint 400 280; mkPoint 100 280].
Proof.
  destruct oneRegion_displays as (Hd & _ & Hr & Hw & Hg).
  assert (Hin : outsideMedia 250 100 image640 = false).
  { unfold outsideMedia, image640; cbn [offsetX offsetY renderedW renderedH].
    js_cmp. reflexivity. }
  assert (Hf : findDisplay (Some (id region1)) (displays oneRegion)
               = Some region1) by (rewrite Hd; reflexivity).
  destruct (edge_resize oneRegion image640 250 100 false 2 region1 0
              (mkPoint 100 100) (mkPoint 400 100) (mkPoint 400 280)
              (mkPoint 100 280) eq_refl Hin region1_edge0_hit eq_refl Hf
              Hr Hw Hg [(260, 130)])
    as (_ & d' & Hfind & Hlen & Hc).
  exists d'. split; [exact Hfind|].
  destruct image640_scale as [_ Hm]. rewrite Hm in Hc.
  cbn [last fst snd] in Hc.
  pose proof (Hc 0%Z) as H0. pose proof (Hc 1%Z) as H1.
  pose proof (Hc 2%Z) as H2. pose proof (Hc 3%Z) as H3.
  destruct (corners d') as [|a [|b [|c [|e [|]]]]]; try discriminate Hlen.
  unfold corner, translate, region1 in H0, H1, H2, H3.
  change (Z.rem (0 + 1) 4) with 1%Z in *. indices.
  cbn [Z.eqb Pos.eqb orb corners option_map nth_error px py] in *.
  injection H0 as ->. injection H1 as ->.
  injection H2 as ->. injection H3 as ->.
  repeat f_equal; field.
Defined.

(** ** The rotation field *)

Lemma gestureRotation_range (rotateStartValue : Z) (delta : R) :
  (0 <= gestureRotation rotateStartValue delta < 360)%Z.
Proof.
  unfold gestureRotation.
  set (n := (rotateStartValue + Js.Math_round delta)%Z).
  pose proof (Z.rem_bound_abs n 360 ltac:(lia)) as Habs.
  destruct (Z.ltb_spec (Z.rem n 360) 0); lia.
Qed.

(** The stored value is the non-negative residue modulo 360. *)
Lemma gestureRotation_mod (rotateStartValue : Z) (delta : R) :
  gestureRotation rotateStartValue delta
  = ((rotateStartValue + Js.Math_round delta) mod 360)%Z.
Proof.
  pose proof (gestureRotation_range rotateStartValue delta) as Hr.
  unfold gestureRotation in *.
  set (n := (rotateStartValue + Js.Math_round delta)%Z) in *.
  pose proof (Z.quot_rem' n 360) as Hq.
  destruct (Z.ltb_spec (Z.rem n 360) 0).
  - apply (Z.mod_unique_pos n 360 (Z.quot n 360 - 1)); lia.
  - apply (Z.mod_unique_pos n 360 (Z.quot n 360)); lia.
Qed.

(** [parseInt] on the strings that a number input can hold. *)
Lemma parseInt_examples :
  Js.parseInt "400" = Some 400%Z
  /\ Js.parseInt "-5" = Some (-5)%Z
  /\ Js.parseInt "3.7" = Some 3%Z
  /\ Js.parseInt "1e3" = Some 1%Z
  /\ Js.parseInt "" = None.
Proof. repeat split. Qed.

(** A move of a rotate gesture leaves an integer of [0, 360) in the
    [rotation] field of the region it turns. *)
Lemma mousemove_rotating_rotation (mouseX mouseY : R) (target : Media)
  (s : State) (d : Display) :
  isRotating s = true ->
  findDisplay (activeDisplayId s)
    (displays (mousemove mouseX mouseY target s)) = Some d ->
  exists r, rotation d = RotNum r /\ (0 <= r < 360)%Z.
Proof.
  intros Hrot. unfold mousemove. rewrite Hrot.
  cbn [negb andb]. rewrite Bool.andb_false_r. cbn [andb].
  destruct (activeDisplayId s) as [ident|] eqn:Ea.
  2:{ replace (findDisplay None (displays s)) with (@None Display).
      - intros H. exfalso. revert H. unfold findDisplay.
        induction (displays s) as [|x l IH]; cbn [find]; [discriminate|].
        exact IH.
      - unfold findDisplay. induction (displays s) as [|x l IH];
          cbn [find]; [reflexivity|exact IH]. }
  destruct (findDisplay (Some ident) (displays s)) as [d0|] eqn:Ef.
  - fields. rewrite findDisplay_updateFirst, Ef by reflexivity.
    cbn [option_map]. intros [= <-]. fields.
    eexists. split; [reflexivity|apply gestureRotation_range].
  - rewrite Ef. discriminate.
Qed.

(** C5.  The property panel stores [parseInt] of the rotation input as it
    is: the value "400" leaves 400 in the [rotation] field, and an empty
    input leaves [NaN]. *)
Theorem updateDisplay_rotation_unchecked :
  activeDisplayId oneRegion = Some "disp_1"%string
  /\ map rotation
       (displays (step (UpdateDisplay "New Display" "400" false) oneRegion))
     = [RotNum 400]
  /\ map rotation
       (displays (step (UpdateDisplay "New Display" "" false) oneRegion))
     = [RotNaN].
Proof. repeat split; vm_compute; reflexivity. Qed.

(** ** Loading the configuration *)

Module ConfigFacts.

Import Config.

Lemma isFour_length (n : nat) : isFour (num (INR n)) = Nat.eqb n 4.
Proof.
  unfold isFour, num.
  destruct (Req_dec_T (INR n) 4) as [E|E], (Nat.eqb_spec n 4) as [H|H];
    try reflexivity.
  - exfalso. apply H. apply INR_eq. rewrite E. simpl. lra.
  - exfalso. apply E. subst n. simpl. lra.
Qed.

Lemma lookup_store_same k v props : lookup k (store k v props) = v.
Proof.
  induction props as [|[k' v'] props IH]; cbn [store lookup].
  - now rewrite String.eqb_refl.
  - destruct (String.eqb_spec k k') as [->|H]; cbn [lookup].
    + now rewrite String.eqb_refl.
    + destruct (String.eqb_spec k k'); [contradiction|exact IH].
Qed.

Lemma lookup_store_other k k' v props :
  k <> k' -> lookup k (store k' v props) = lookup k props.
Proof.
  intros Hne. induction props as [|[k2 v2] props IH]; cbn [store lookup].
  - destruct (String.eqb_spec k k'); [contradiction|reflexivity].
  - destruct (String.eqb_spec k' k2) as [->|H]; cbn [lookup].
    + destruct (String.eqb_spec k k2); [contradiction|reflexivity].
    + destruct (String.eqb_spec k k2); [reflexivity|exact IH].
Qed.

Section Loader.

Variables parseFloat parseInt : value -> number.

Lemma coerceCorner_object c :
  isObject c ->
  exists c', coerceCorner parseFloat c = Ok c' /\ numericPoint c'.
Proof.
  destruct c as [| | | | |elems props]; try contradiction. intros _.
  eexists. split.
  - unfold coerceCorner, bind, getProp, setProp.
    destruct elems; cbn [String.eqb Ascii.eqb Bool.eqb]; reflexivity.
  - unfold numericPoint, getProp.
    destruct elems; cbn [String.eqb Ascii.eqb Bool.eqb];
      do 2 eexists; split; f_equal;
      rewrite ?lookup_store_same; try reflexivity;
      rewrite lookup_store_other by discriminate;
      apply lookup_store_same.
Qed.

Lemma forEach_coerceCorner l :
  Forall isObject l ->
  exists l',
    forEach (coerceCorner parseFloat) l = Ok l'
    /\ length l' = length l /\ Forall numericPoint l'.
Proof.
  induction 1 as [|c l Hc _ (l' & Hl' & Hlen & Hnum)].
  - exists []. repeat split. constructor.
  - destruct (coerceCorner_object c Hc) as (c' & Hc' & Hn).
    exists (c' :: l'). cbn [forEach]. rewrite Hc', Hl'. cbn [bind length].
    repeat split; [now rewrite Hlen|now constructor].
Qed.

Lemma getProp_object elems props k :
  k <> "length"%string -> getProp (VObj elems props) k = Ok (lookup k props).
Proof.
  intros Hk. unfold getProp.
  destruct elems; [|reflexivity].
  destruct (String.eqb_spec k "length"); [contradiction|reflexivity].
Qed.

Lemma coerceFields_object elems props :
  exists props',
    coerceFields parseFloat parseInt (VObj elems props) = Ok (VObj elems props')
    /\ lookup "corners" props' = lookup "corners" props.
Proof.
  eexists. split.
  - unfold coerceFields, bind, setProp.
    rewrite !getProp_object by discriminate. reflexivity.
  - rewrite !lookup_store_other by discriminate. reflexivity.
Qed.

Lemma normalizeDisplay_usable display :
  usable display ->
  exists display',
    normalizeDisplay parseFloat parseInt display = Ok display'
    /\ fourNumericCorners display'.
Proof.
  intros (elems & props & -> & Hcs).
  unfold normalizeDisplay.
  rewrite getProp_object by discriminate. cbn [bind].
  set (cs := lookup "corners" props) in *.
  assert (Hlen : exists len,
             (if truthy cs then getProp cs "length" else Ok VUndefined)
             = Ok len
             /\ truthy cs && isFour len = hasFourCorners cs).
  { unfold hasFourCorners. destruct (truthy cs) eqn:Et.
    - destruct cs as [| | | | |e ps]; try discriminate Et;
        cbn [getProp]; try (eexists; split; reflexivity).
      destruct e; cbn [String.eqb Ascii.eqb Bool.eqb];
        eexists; split; reflexivity.
    - exists VUndefined. split; reflexivity. }
  destruct Hlen as (len & H1 & H2). rewrite H1. cbn [bind]. rewrite H2.
  destruct (hasFourCorners cs) eqn:E4.
  - destruct (Hcs eq_refl) as (l & ps & Ecs & Hobj). rewrite Ecs in *.
    destruct (forEach_coerceCorner l Hobj) as (l' & -> & Hl & Hnum).
    cbn [bind setProp].
    destruct (coerceFields_object elems
                (store "corners" (VObj (Some l') ps) props))
      as (props' & -> & Hk).
    eexists. split; [reflexivity|].
    exists l', ps. rewrite getProp_object, Hk, lookup_store_same by discriminate.
    split; [reflexivity|]. split; [|exact Hnum].
    rewrite Hl. unfold hasFourCorners in E4. cbn [truthy getProp andb] in E4.
    cbn [String.eqb Ascii.eqb Bool.eqb] in E4.
    rewrite isFour_length in E4. now apply Nat.eqb_eq.
  - rewrite !getProp_object by discriminate. cbn [bind setProp].
    match goal with
    | |- context [store "corners" ?v props] =>
        destruct (coerceFields_object elems (store "corners" v props))
          as (props' & -> & Hk)
    end.
    eexists. split; [reflexivity|].
    do 2 eexists. rewrite getProp_object, Hk, lookup_store_same by discriminate.
    split; [reflexivity|]. split; [reflexivity|].
    repeat constructor; do 2 eexists; split; reflexivity.
Qed.

Lemma forEach_normalizeDisplay l :
  Forall usable l ->
  exists l',
    forEach (normalizeDisplay parseFloat parseInt) l = Ok l'
    /\ length l' = length l /\ Forall fourNumericCorners l'.
Proof.
  induction 1 as [|d l Hd _ (l' & Hl' & Hlen & Hnum)].
  - exists []. repeat split. constructor.
  - destruct (normalizeDisplay_usable d Hd) as (d' & Hd' & Hn).
    exists (d' :: l'). cbn [forEach]. rewrite Hd', Hl'. cbn [bind length].
    repeat split; [now rewrite Hlen|now constructor].
Qed.

(** On usable records the loader succeeds, keeps every record, and leaves
    each with four corners whose coordinates are numbers. *)
Lemma loadConfig_usable l current :
  Forall usable l ->
  exists l',
    loadConfig parseFloat parseInt (array l) = Loaded l'
    /\ displaysAfter parseFloat parseInt (array l) current = l'
    /\ length l' = length l
    /\ Forall fourNumericCorners l'.
Proof.
  intros H. destruct (forEach_normalizeDisplay l H) as (l' & Hl' & Hlen & Hn).
  exists l'. unfold displaysAfter, loadConfig, array. rewrite Hl'.
  repeat split; assumption.
Qed.

(** An unparsable value counts as 0. *)
Lemma parseNum_unparsable v :
  isNaN (parseFloat v) = true -> parseNum parseFloat v = Fin 0.
Proof. unfold parseNum. now intros ->. Qed.


(** A usable record that fails the four-corner test gets its corners
    from its box, and every usable record gets its rotation from
    [parseInt], with no range check. *)
Lemma normalizeDisplay_fields elems props :
  usable (VObj elems props) ->
  exists display',
    normalizeDisplay parseFloat parseInt (VObj elems props) = Ok display'
    /\ getProp display' "rotation"
       = Ok (VNum (orZero (parseInt (lookup "rotation" props))))
    /\ (hasFourCorners (lookup "corners" props) = false ->
        let x := parseNum parseFloat (lookup "x" props) in
        let y := parseNum parseFloat (lookup "y" props) in
        let w := parseNum parseFloat (lookup "w" props) in
        let h := parseNum parseFloat (lookup "h" props) in
        getProp display' "corners"
        = Ok (array [point x y; point (add x w) y;
                     point (add x w) (add y h); point x (add y h)])).
Proof.
  intros (elems' & props' & [= <- <-] & Hcs).
  unfold normalizeDisplay.
  rewrite getProp_object by discriminate. cbn [bind].
  set (cs := lookup "corners" props) in *.
  assert (Hlen : exists len,
             (if truthy cs then getProp cs "length" else Ok VUndefined)
             = Ok len
             /\ truthy cs && isFour len = hasFourCorners cs).
  { unfold hasFourCorners. destruct (truthy cs) eqn:Et.
    - destruct cs as [| | | | |e ps]; try discriminate Et;
        cbn [getProp]; try (eexists; split; reflexivity).
      destruct e; cbn [String.eqb Ascii.eqb Bool.eqb];
        eexists; split; reflexivity.
    - exists VUndefined. split; reflexivity. }
  destruct Hlen as (len & H1 & H2). rewrite H1. cbn [bind]. rewrite H2.
  destruct (hasFourCorners cs) eqn:E4.
  - destruct (Hcs eq_refl) as (l & ps & Ecs & Hobj). rewrite Ecs in *.
    destruct (forEach_coerceCorner l Hobj) as (l' & -> & _).
    cbn [bind setProp]. unfold coerceFields, bind, setProp.
    rewrite !getProp_object by discriminate.
    eexists. split; [reflexivity|].
    rewrite getProp_object, lookup_store_same by discriminate.
    rewrite !lookup_store_other by discriminate.
    split; [reflexivity|discriminate].
  - rewrite !getProp_object by discriminate. cbn [bind setProp].
    unfold coerceFields, bind, setProp.
    rewrite !getProp_object by discriminate.
    eexists. split; [reflexivity|].
    rewrite !getProp_object, lookup_store_same by discriminate.
    rewrite !lookup_store_other by discriminate.
    rewrite lookup_store_same.
    split; [reflexivity|]. intros _. reflexivity.
Qed.

Lemma normalizeDisplay_nullCorners :
  normalizeDisplay parseFloat parseInt nullCorners = TypeError.
Proof.
  unfold normalizeDisplay, nullCorners, object, array.
  cbn [getProp lookup String.eqb Ascii.eqb Bool.eqb bind truthy length].
  rewrite isFour_length. reflexivity.
Qed.

Lemma normalizeDisplay_numberCorners :
  normalizeDisplay parseFloat parseInt numberCorners = TypeError.
Proof.
  unfold normalizeDisplay, numberCorners, object, array.
  cbn [getProp lookup String.eqb Ascii.eqb Bool.eqb bind truthy length].
  rewrite isFour_length. reflexivity.
Qed.

Lemma forEach_TypeError f (l : list value) bad rest :
  f bad = TypeError -> forEach f (l ++ bad :: rest) = TypeError.
Proof.
  intros Hbad. induction l as [|v l IH]; cbn [app forEach].
  - rewrite Hbad. reflexivity.
  - destruct (f v); [|reflexivity]. cbn [bind]. rewrite IH. reflexivity.
Qed.

End Loader.

(** C8.  A record whose [corners] hold four [null]s, or four plain
    numbers, makes [loadConfig] fail, whatever the records around it: the
    load ends in its [catch] branch and the region list stays as it
    was. *)
Theorem loadConfig_malformed_corners (parseFloat parseInt : value -> number)
  (before after current : list value) :
  loadConfig parseFloat parseInt (array (before ++ nullCorners :: after))
  = Failed
  /\ displaysAfter parseFloat parseInt
       (array (before ++ nullCorners :: after)) current = current
  /\ loadConfig parseFloat parseInt (array (before ++ numberCorners :: after))
     = Failed.
Proof.
  pose proof (forEach_TypeError (normalizeDisplay parseFloat parseInt)
                before nullCorners after
                (normalizeDisplay_nullCorners parseFloat parseInt)) as Hnull.
  pose proof (forEach_TypeError (normalizeDisplay parseFloat parseInt)
                before numberCorners after
                (normalizeDisplay_numberCorners parseFloat parseInt)) as Hnum.
  unfold displaysAfter, loadConfig, array. rewrite Hnull, Hnum.
  repeat split.
Qed.

(** A record without corners gets them from its box, an unparsable width
    counting as 0; its rotation of 400 is stored as it is. *)
Lemma loadConfig_boxOnly :
  exists d,
    loadConfig numberOnly numberOnly (array [boxOnly]) = Loaded [d]
    /\ getProp d "corners"
       = Ok (array [point (Fin 10) (Fin 20); point (Fin (10 + 0)) (Fin 20);
                    point (Fin (10 + 0)) (Fin (20 + 40));
                    point (Fin 10) (Fin (20 + 40))])
    /\ getProp d "rotation" = Ok (num 400).
Proof.
  eexists. split; [|split].
  - unfold loadConfig, array, boxOnly, object. cbn [forEach].
    unfold normalizeDisplay, coerceFields.
    cbn [getProp setProp lookup store String.eqb Ascii.eqb Bool.eqb bind
         truthy andb parseNum numberOnly isNaN add num orZero].
    destruct (Req_dec_T 400 0) as [E|_]; [exfalso; lra|]. reflexivity.
  - reflexivity.
  - reflexivity.
Qed.

End ConfigFacts.

(** * Further properties of the geometry helpers *)

Lemma Js_leb_shift (a b t : R) : Js.leb (a + t) (b + t) = Js.leb a b.
Proof.
  unfold Js.leb. destruct (Rle_dec (a + t) (b + t)), (Rle_dec a b);
    try reflexivity; exfalso; lra.
Qed.

Lemma Js_ltb_shift (a b t : R) : Js.ltb (a + t) (b + t) = Js.ltb a b.
Proof.
  unfold Js.ltb. destruct (Rlt_dec (a + t) (b + t)), (Rlt_dec a b);
    try reflexivity; exfalso; lra.
Qed.

Lemma crossesEdge_translate (tx ty : R) (pt pi pj : Point) :
  crossesEdge (translate tx ty pt) (translate tx ty pi) (translate tx ty pj)
  = crossesEdge pt pi pj.
Proof.
  unfold crossesEdge, translate; cbn [px py].
  rewrite !Js_leb_shift, !Js_ltb_shift.
  replace (px pj + tx - (px pi + tx)) with (px pj - px pi) by ring.
  replace (py pt + ty - (py pi + ty)) with (py pt - py pi) by ring.
  replace (py pj + ty - (py pi + ty)) with (py pj - py pi) by ring.
  f_equal. rewrite <- (Js_ltb_shift (px pt) _ tx). f_equal. ring.
Qed.

Lemma polyLoop_translate (tx ty : R) (pt : Point) (rest : list Point) :
  forall pj c,
    polyLoop (translate tx ty pt) (translate tx ty pj)
      (map (translate tx ty) rest) c
    = polyLoop pt pj rest c.
Proof.
  induction rest as [|pi rest IH]; intros pj c; cbn [map polyLoop].
  - reflexivity.
  - rewrite crossesEdge_translate. apply IH.
Qed.

Lemma last_map_default {A B} (f : A -> B) (l : list A) (d : A) :
  last (map f l) (f d) = f (last l d).
Proof.
  induction l as [|x l IH]; [reflexivity|].
  destruct l as [|y l]; [reflexivity|]. exact IH.
Qed.

(** X1.  Over exact reals, moving the point and the polygon by the same
    vector does not change the answer of the point-in-polygon test.  On
    doubles it can: the sums that move the point and the vertices are
    rounded ([isPointInPoly_translate_rounding]). *)
Theorem isPointInPoly_translate (tx ty : R) (pt : Point) (poly : list Point) :
  isPointInPoly (translate tx ty pt) (map (translate tx ty) poly)
  = isPointInPoly pt poly.
Proof.
  destruct poly as [|p0 poly]; [reflexivity|].
  unfold isPointInPoly. cbn [map].
  change (translate tx ty p0 :: map (translate tx ty) poly)
    with (map (translate tx ty) (p0 :: poly)).
  rewrite last_map_default. apply polyLoop_translate.
Qed.

Lemma crossesEdge_vertical (pt : Point) (a ya yb : R) :
  crossesEdge pt (mkPoint a ya) (mkPoint a yb)
  = ((Js.leb ya (py pt) && Js.ltb (py pt) yb)
     || (Js.leb yb (py pt) && Js.ltb (py pt) ya))
    && Js.ltb (px pt) a.
Proof.
  unfold crossesEdge; cbn [px py]. do 2 f_equal. unfold Rdiv. ring.
Qed.

Lemma crossesEdge_horizontal (pt : Point) (a b h : R) :
  crossesEdge pt (mkPoint a h) (mkPoint b h) = false.
Proof.
  unfold crossesEdge; cbn [px py].
  unfold Js.leb, Js.ltb.
  destruct (Rle_dec h (py pt)), (Rlt_dec (py pt) h); try reflexivity.
  exfalso; lra.
Qed.

(** Settle every comparison of the goal both ways. *)
Ltac cmp_cases :=
  unfold Js.leb, Js.ltb;
  repeat match goal with
         | |- context [Rle_dec ?a ?b] => destruct (Rle_dec a b)
         | |- context [Rlt_dec ?a ?b] => destruct (Rlt_dec a b)
         end;
  cbn [andb orb negb]; try reflexivity; exfalso; lra.

(** X2.  On an axis-aligned rectangle given by two opposite corners, in
    either order, the point-in-polygon test answers yes exactly on the
    rectangle that is closed at its smaller and open at its larger
    coordinates. *)
Theorem isPointInPoly_rectangle (x0 y0 x1 y1 : R) (pt : Point) :
  isPointInPoly pt (rectangle x0 y0 x1 y1)
  = Js.leb (Rmin x0 x1) (px pt) && Js.ltb (px pt) (Rmax x0 x1)
    && Js.leb (Rmin y0 y1) (py pt) && Js.ltb (py pt) (Rmax y0 y1).
Proof.
  unfold isPointInPoly, rectangle; cbn [polyLoop last].
  rewrite !crossesEdge_vertical, !crossesEdge_horizontal.
  destruct (Rle_lt_dec x0 x1), (Rle_lt_dec y0 y1);
    repeat match goal with
           | |- context [Rmin ?x ?y] =>
               first [ rewrite (Rmin_left x y) by lra
                     | rewrite (Rmin_right x y) by lra ]
           | |- context [Rmax ?x ?y] =>
               first [ rewrite (Rmax_left x y) by lra
                     | rewrite (Rmax_right x y) by lra ]
           end;
    cmp_cases.
Qed.

Lemma crossesEdge_sym (pt a b : Point) :
  crossesEdge pt a b = crossesEdge pt b a.
Proof.
  unfold crossesEdge.
  destruct ((Js.leb (py a) (py pt) && Js.ltb (py pt) (py b))
            || (Js.leb (py b) (py pt) && Js.ltb (py pt) (py a))) eqn:E.
  - rewrite Bool.orb_comm in E. rewrite E. cbn [andb]. f_equal.
    assert (Hne : py b - py a <> 0).
    { revert E. unfold Js.leb, Js.ltb.
      destruct (Rle_dec (py b) (py pt)), (Rlt_dec (py pt) (py a)),
        (Rle_dec (py a) (py pt)), (Rlt_dec (py pt) (py b));
        cbn [andb orb]; intros; try discriminate; lra. }
    field. split; lra.
  - rewrite Bool.orb_comm in E. rewrite E. reflexivity.
Qed.

(** X3.  Over exact reals, a polygon with fewer than three vertices
    contains no point: with two vertices the one edge is crossed twice or
    not at all.  On doubles the two traversals of that edge can round the
    intercept differently, and a polygon of two vertices can contain a
    point ([isPointInPoly_degenerate_rounding]). *)
Theorem isPointInPoly_degenerate (pt : Point) (poly : list Point) :
  (length poly < 3)%nat -> isPointInPoly pt poly = false.
Proof.
  intros Hlen.
  destruct poly as [|a [|b [|c poly]]]; [reflexivity| | |cbn in Hlen; lia].
  - unfold isPointInPoly; cbn [polyLoop last].
    replace (crossesEdge pt a a) with false; [reflexivity|].
    unfold crossesEdge. cmp_cases.
  - unfold isPointInPoly; cbn [polyLoop last].
    rewrite (crossesEdge_sym pt b a).
    destruct (crossesEdge pt a b); reflexivity.
Qed.

Lemma isPointInPoly_degenerate_witness :
  isPointInPoly (mkPoint 5 5) [mkPoint 0 0; mkPoint 10 10] = false.
Proof. apply isPointInPoly_degenerate. cbn. lia. Defined.

(** The clamped parameter of [distToSegment]. *)
Lemma clamp_cases (t0 : R) :
  let t := Rmax 0 (Rmin 1 t0) in
  (t = 0 /\ t0 <= 0) \/ (t = t0 /\ 0 <= t0 <= 1) \/ (t = 1 /\ 1 <= t0).
Proof.
  cbn zeta. unfold Rmax, Rmin.
  destruct (Rle_dec 1 t0); destruct (Rle_dec 0 _); lra.
Qed.

(** X4.  Over exact reals, the distance from a point to a segment is
    never negative and never more than the distance to either end of the
    segment; so it is 0 at both ends.  On doubles the distance from an end
    to the segment can be a rounding error away from 0
    ([distToSegment_rounding]). *)
Theorem distToSegment_bounds (p v w : Point) :
  0 <= distToSegment p v w <= Rmin (dist p v) (dist p w)
  /\ distToSegment v v w = 0
  /\ distToSegment w v w = 0.
Proof.
  assert (Hb : forall q, 0 <= distToSegment q v w
                         /\ distToSegment q v w <= dist q v
                         /\ distToSegment q v w <= dist q w).
  { intros q. unfold distToSegment, dist, Js.Math_sqrt.
    destruct (Req_dec_T _ 0) as [E|E].
    - pose proof (pow2_ge_0 (px v - px w)) as Hsx.
      pose proof (pow2_ge_0 (py v - py w)) as Hsy.
      assert (Hx : px v = px w).
      { apply Rminus_diag_uniq, Rsqr_eq_0. rewrite Rsqr_pow2. lra. }
      assert (Hy : py v = py w).
      { apply Rminus_diag_uniq, Rsqr_eq_0. rewrite Rsqr_pow2. lra. }
      rewrite <- Hx, <- Hy. split; [apply sqrt_pos|]. split; apply Rle_refl.
    - set (l2 := (px v - px w) ^ 2 + (py v - py w) ^ 2) in *.
      set (dot := (px q - px v) * (px w - px v)
                  + (py q - py v) * (py w - py v)).
      assert (Hl2 : 0 < l2).
      { pose proof (pow2_ge_0 (px v - px w)). pose proof (pow2_ge_0 (py v - py w)).
        destruct (Rtotal_order 0 l2) as [H1|[H1|H1]];
          [exact H1|exfalso; apply E; symmetry; exact H1|unfold l2 in H1; lra]. }
      pose proof (clamp_cases (dot / l2)) as Ht. cbn zeta in Ht.
      set (t := Rmax 0 (Rmin 1 (dot / l2))) in *.
      assert (Hdot : dot = dot / l2 * l2) by (field; lra).
      set (t0 := dot / l2) in *.
      assert (Hv : (px q - (px v + t * (px w - px v))) ^ 2
                   + (py q - (py v + t * (py w - py v))) ^ 2
                   = (px q - px v) ^ 2 + (py q - py v) ^ 2
                     + (t * t * l2 - 2 * t * dot))
        by (unfold l2, dot; ring).
      assert (Hw : (px q - (px v + t * (px w - px v))) ^ 2
                   + (py q - (py v + t * (py w - py v))) ^ 2
                   = (px q - px w) ^ 2 + (py q - py w) ^ 2
                     + ((t * t - 1) * l2 - 2 * (t - 1) * dot))
        by (unfold l2, dot; ring).
      clearbody t t0 dot l2.
      assert (Hsq : 0 <= t0 * t0 * l2)
        by (apply Rmult_le_pos; [nra|lra]).
      split; [apply sqrt_pos|]. split; apply sqrt_le_1_alt.
      + rewrite Hv, Hdot.
        destruct Ht as [[-> H]|[[-> H]|[-> H]]]; nra.
      + rewrite Hw, Hdot.
        assert (Hsq1 : 0 <= (t0 - 1) * (t0 - 1) * l2)
          by (apply Rmult_le_pos; [nra|lra]).
        destruct Ht as [[-> H]|[[-> H]|[-> H]]].
        * assert (0 <= - t0 * l2) by (apply Rmult_le_pos; lra). nra.
        * nra.
        * nra. }
  assert (Hzero : forall q, dist q q = 0).
  { intros q. unfold dist.
    replace ((px q - px q) ^ 2 + (py q - py q) ^ 2) with 0 by ring.
    apply sqrt_0. }
  split; [|split].
  - destruct (Hb p) as (H0 & Hv & Hw). split; [exact H0|].
    unfold Rmin. destruct (Rle_dec (dist p v) (dist p w)); assumption.
  - destruct (Hb v) as (H0 & Hv & _). rewrite Hzero in Hv. lra.
  - destruct (Hb w) as (H0 & _ & Hw). rewrite Hzero in Hw. lra.
Qed.

Lemma rotatePoint_rotatePoint (p center : Point) (a b : R) :
  rotatePoint (rotatePoint p center a) center b = rotatePoint p center (a + b).
Proof.
  unfold rotatePoint; cbn [px py].
  replace ((a + b) * PI / 180) with (a * PI / 180 + b * PI / 180) by field.
  rewrite cos_plus, sin_plus. f_equal; ring.
Qed.

Lemma rotatePoint_zero (p center : Point) : rotatePoint p center 0 = p.
Proof.
  unfold rotatePoint. replace (0 * PI / 180) with 0 by field.
  rewrite sin_0, cos_0. destruct p as [x y]; cbn [px py]. f_equal; ring.
Qed.

(** X5.  Over exact reals, with the exact sine and cosine, rotations
    about one centre compose: turning points about [center] by [a] and
    then by [b] is turning them by [a + b]; turning back by [-a] restores
    them, and a turn by 0 or by 360 changes nothing.  The same holds when
    each turn is about the centroid of the points it turns, as in the
    rotate gesture, since a turn about the centroid keeps the centroid. *)
Theorem rotatePoints_compose (points : list Point) (center : Point)
  (a b : R) :
  rotatePoints (rotatePoints points center a) center b
  = rotatePoints points center (a + b)
  /\ rotatePoints (rotatePoints points center a) center (- a) = points
  /\ rotatePoints points center 0 = points
  /\ rotatePoints points center 360 = points
  /\ (let turn ps angleDeg := rotatePoints ps (getPolyCenter ps) angleDeg in
      turn (turn points a) b = turn points (a + b)
      /\ turn (turn points a) (- a) = points).
Proof.
  assert (Hcomp : forall c x y,
             rotatePoints (rotatePoints points c x) c y
             = rotatePoints points c (x + y)).
  { intros c x y. unfold rotatePoints. rewrite map_map.
    apply map_ext. intros q. apply rotatePoint_rotatePoint. }
  assert (Hid : forall c, rotatePoints points c 0 = points).
  { intros c. unfold rotatePoints.
    transitivity (map (fun q : Point => q) points).
    - apply map_ext. intros q. apply rotatePoint_zero.
    - apply map_id. }
  assert (Hcentre : forall x,
             getPolyCenter (rotatePoints points (getPolyCenter points) x)
             = getPolyCenter points).
  { intros x. destruct points as [|p points]; [reflexivity|].
    apply getPolyCenter_rotatePoints. discriminate. }
  split; [apply Hcomp|]. split.
  { rewrite Hcomp. replace (a + - a) with 0 by ring. apply Hid. }
  split; [apply Hid|]. split.
  { transitivity (rotatePoints points center 0); [|apply Hid].
    unfold rotatePoints. apply map_ext. intros q. unfold rotatePoint.
    replace (360 * PI / 180) with (2 * PI) by field.
    replace (0 * PI / 180) with 0 by field.
    rewrite sin_2PI, cos_2PI, sin_0, cos_0. reflexivity. }
  lazy beta zeta. rewrite !Hcentre, !Hcomp. split; [reflexivity|].
  replace (a + - a) with 0 by ring. apply Hid.
Qed.

(** * Further properties of saving *)

Lemma fold_Rmin_le (l : list R) (x : R) :
  fold_left Rmin l x <= x /\ forall y, In y l -> fold_left Rmin l x <= y.
Proof.
  revert x. induction l as [|z l IH]; intros x; cbn [fold_left].
  - split; [lra|intros y []].
  - destruct (IH (Rmin x z)) as [H1 H2].
    pose proof (Rmin_l x z). pose proof (Rmin_r x z).
    split; [lra|]. intros y [<-|Hy]; [lra|apply H2, Hy].
Qed.

Lemma fold_Rmax_ge (l : list R) (x : R) :
  x <= fold_left Rmax l x /\ forall y, In y l -> y <= fold_left Rmax l x.
Proof.
  revert x. induction l as [|z l IH]; intros x; cbn [fold_left].
  - split; [lra|intros y []].
  - destruct (IH (Rmax x z)) as [H1 H2].
    pose proof (Rmax_l x z). pose proof (Rmax_r x z).
    split; [lra|]. intros y [<-|Hy]; [lra|apply H2, Hy].
Qed.

Lemma Math_min_max_bounds (xs : list R) (x : R) :
  In x xs -> Js.Math_min xs <= x <= Js.Math_max xs.
Proof.
  destruct xs as [|x0 xs]; [intros []|].
  unfold Js.Math_min, Js.Math_max.
  destruct (fold_Rmin_le xs x0) as [H1 H2].
  destruct (fold_Rmax_ge xs x0) as [H3 H4].
  intros [<-|H]; [lra|]. split; [apply H2, H|apply H4, H].
Qed.

(** X6.  The box that [saveConfig] stores with a region has the least
    corner coordinates as [x] and [y] and the spans between the least and
    the greatest as [w] and [h], which are not negative, and every corner
    lies between the least and the greatest.  Over exact reals, the box
    therefore contains every corner: [x <= c.x <= x + w] and
    [y <= c.y <= y + h].  That last part needs the exact sum: on doubles
    [x + w] can round below the greatest corner
    ([boundingBox_rounding]). *)
Theorem boundingBox_contains (cs : list Point) (c : Point) :
  In c cs ->
  let b := boundingBox cs in
  (bx b = Js.Math_min (map px cs) /\ by_ b = Js.Math_min (map py cs)
   /\ bw b = Js.Math_max (map px cs) - Js.Math_min (map px cs)
   /\ bh b = Js.Math_max (map py cs) - Js.Math_min (map py cs))
  /\ (Js.Math_min (map px cs) <= px c <= Js.Math_max (map px cs)
      /\ Js.Math_min (map py cs) <= py c <= Js.Math_max (map py cs))
  /\ (0 <= bw b /\ 0 <= bh b)
  /\ (bx b <= px c <= bx b + bw b /\ by_ b <= py c <= by_ b + bh b).
Proof.
  intros Hc. unfold boundingBox; cbn [bx by_ bw bh].
  pose proof (Math_min_max_bounds (map px cs) (px c) (in_map px cs c Hc)).
  pose proof (Math_min_max_bounds (map py cs) (py c) (in_map py cs c Hc)).
  repeat split; lra.
Qed.

Lemma boundingBox_contains_witness :
  let cs := corners region1 in
  let b := boundingBox cs in
  (bx b = Js.Math_min (map px cs) /\ by_ b = Js.Math_min (map py cs)
   /\ bw b = Js.Math_max (map px cs) - Js.Math_min (map px cs)
   /\ bh b = Js.Math_max (map py cs) - Js.Math_min (map py cs))
  /\ (Js.Math_min (map px cs) <= 400 <= Js.Math_max (map px cs)
      /\ Js.Math_min (map py cs) <= 280 <= Js.Math_max (map py cs))
  /\ (0 <= bw b /\ 0 <= bh b)
  /\ (bx b <= 400 <= bx b + bw b /\ by_ b <= 280 <= by_ b + bh b).
Proof.
  apply (boundingBox_contains (corners region1) (mkPoint 400 280)).
  cbn. auto.
Defined.

(** * Further properties of the gestures *)

Import GestureNotions Overlay GestureOutcomes.

Lemma others_updateFirst ident f ds :
  (forall x, id (f x) = id x) ->
  others (Some ident) (updateFirst (Some ident) f ds)
  = others (Some ident) ds.
Proof.
  intros Hid. unfold others. induction ds as [|x ds IH]; [reflexivity|].
  cbn [updateFirst]. destruct (hasId (Some ident) x) eqn:E; cbn [filter].
  - rewrite hasId_eq, Hid, <- hasId_eq, E. reflexivity.
  - rewrite E. cbn [negb]. now rewrite IH.
Qed.

Lemma map_id_updateFirst ident f ds :
  (forall x, id (f x) = id x) ->
  map id (updateFirst ident f ds) = map id ds.
Proof.
  intros Hid. induction ds as [|x ds IH]; [reflexivity|].
  cbn [updateFirst]. destruct (hasId ident x); cbn [map].
  - now rewrite Hid.
  - now rewrite IH.
Qed.



(** The region that [find] returns is the first one with the id, and the
    mutation of that object changes the list at that place only. *)
Lemma updateFirst_firstReplaced ident ds d f :
  findDisplay (Some ident) ds = Some d ->
  firstReplaced ident d (f d) ds (updateFirst (Some ident) f ds).
Proof.
  unfold findDisplay, firstReplaced.
  induction ds as [|x ds IH]; cbn [find updateFirst]; [discriminate|].
  destruct (hasId (Some ident) x) eqn:E.
  - intros [= ->]. exists [], ds. rewrite hasId_eq in E.
    apply String.eqb_eq in E. repeat split; [constructor|exact E].
  - intros Hf. destruct (IH Hf) as (before & after & -> & Hb & Hd & ->).
    exists (x :: before), after. rewrite hasId_eq in E.
    apply String.eqb_neq in E. repeat split; [|exact Hd].
    constructor; assumption.
Qed.

(** A release that ends a gesture other than drawing. *)
Lemma mouseup_done (s p : State) (d : Display) (ds : list Display) :
  isDrawing p = false ->
  activeDisplayId p = Some (id d) ->
  undoStack p = undoStack (saveState s) ->
  redoStack p = [] ->
  gestureDone s (mouseup (set_displays ds p)) d
  /\ displays (mouseup (set_displays ds p)) = ds.
Proof.
  intros HD HA HU HR. unfold gestureDone, idle, mouseup. fields.
  rewrite HD. unfold endGesture. fields. repeat split; assumption.
Qed.

Section Drag.

Variables (s : State) (target : Media) (mouseX0 mouseY0 : R).
Variables (altKey : bool) (now : N) (d : Display).

Hypothesis Hshown : shown target = true.
Hypothesis Hin : outsideMedia mouseX0 mouseY0 target = false.
Hypothesis Hhit :
  hitTest mouseX0 mouseY0 (offsetX target) (offsetY target)
    (scaleDown target) (displayOrder altKey s) = Found d HitInside.
Hypothesis Hfind : findDisplay (Some (id d)) (displays s) = Some d.
Hypothesis Hrot : isRotating s = false.
Hypothesis Hdraw : isDrawing s = false.

Let pressed : State := mousedown mouseX0 mouseY0 altKey target now s.







End Drag.

(** ** Concrete presses on [region1] *)




Lemma region1_corner_handle_far (mouseY : R) :
  cornerHandle 250 mouseY 0 0 1 (corners region1) = (-1)%Z.
Proof.
  unfold cornerHandle, region1, toRendered; cbn [corners fold_left fst px py].
  unfold Js.Math_abs.
  replace (Rabs (250 - (0 + 100 * 1))) with 150 by (rewrite Rabs_right; lra).
  replace (Rabs (250 - (0 + 400 * 1))) with 150 by (rewrite Rabs_left; lra).
  js_cmp. reflexivity.
Qed.



Lemma region1_rotate_hit :
  hitTest 250 140 (offsetX image640) (offsetY image640) (scaleDown image640)
    (displayOrder false oneRegion) = Found region1 HitRotate.
Proof.
  destruct oneRegion_displays as (_ & -> & _).
  destruct image640_scale as [-> _].
  cbn [hitTest offsetX offsetY image640].
  assert (Hprobe : probeDisplay 250 140 0 0 1 region1 = Matched HitRotate).
  { unfold probeDisplay. rewrite region1_corner_handle_far.
    change (negb (-1 =? -1)%Z) with false. cbn match.
    change (corner (corners region1) 0) with (Some (mkPoint 100 100)).
    change (corner (corners region1) 1) with (Some (mkPoint 400 100)).
    cbn match. rewrite region1_rotation_handle; cbn [px py].
    unfold Js.Math_abs.
    replace (Rabs (250 - 250)) with 0 by (rewrite Rabs_right; lra).
    replace (Rabs (140 - 140)) with 0 by (rewrite Rabs_right; lra).
    js_cmp. reflexivity. }
  rewrite Hprobe. reflexivity.
Qed.


Lemma image640_inside (mouseX mouseY : R) :
  0 <= mouseX <= 640 -> 0 <= mouseY <= 480 ->
  outsideMedia mouseX mouseY image640 = false.
Proof.
  intros Hx Hy.
  unfold outsideMedia, image640; cbn [offsetX offsetY renderedW renderedH].
  js_cmp. reflexivity.
Qed.

Lemma oneRegion_find :
  findDisplay (Some (id region1)) (displays oneRegion) = Some region1.
Proof. destruct oneRegion_displays as (-> & _). reflexivity. Qed.


(** ** Resizing by a corner *)

Lemma length_replaceNth {A} (n : nat) (x : A) (l : list A) :
  length (replaceNth n x l) = length l.
Proof.
  revert n. induction l as [|y l IH]; intros [|n]; cbn [replaceNth length];
    try reflexivity. now rewrite IH.
Qed.













Section CornerResize.

Variables (s : State) (target : Media) (mouseX0 mouseY0 : R).
Variables (altKey : bool) (now : N) (d : Display) (idx : Z).

Hypothesis Hshown : shown target = true.
Hypothesis Hin : outsideMedia mouseX0 mouseY0 target = false.
Hypothesis Hhit :
  hitTest mouseX0 mouseY0 (offsetX target) (offsetY target)
    (scaleDown target) (displayOrder altKey s) = Found d (HitCorner idx).
Hypothesis Hfind : findDisplay (Some (id d)) (displays s) = Some d.
Hypothesis Hrot : isRotating s = false.
Hypothesis Hdraw : isDrawing s = false.
Hypothesis Hdrag : isDragging s = false.

Let pressed : State := mousedown mouseX0 mouseY0 altKey target now s.

(** The corners of [d] with the grabbed one moved by [(dx, dy)]. *)
Let moved (dx dy : R) : list Point :=
  match corner (corners d) idx with
  | Some o => replaceNth (Z.to_nat idx) (translate dx dy o) (corners d)
  | None => corners d
  end.

Let resizing (dx dy : R) : State :=
  set_displays
    (updateFirst (Some (id d)) (set_corners (moved dx dy)) (displays s))
    pressed.












End CornerResize.


(** ** Rotating *)

Lemma updateFirst_unchanged ident ds :
  updateFirst ident (fun x => x) ds = ds.
Proof.
  induction ds as [|x ds IH]; [reflexivity|].
  cbn [updateFirst]. destruct (hasId ident x); [reflexivity|now rewrite IH].
Qed.

Lemma probeDisplay_rotate mouseX mouseY ox oy scale d :
  probeDisplay mouseX mouseY ox oy scale d = Matched HitRotate ->
  corners d <> [].
Proof.
  unfold probeDisplay. destruct (negb _); [discriminate|].
  destruct (corners d); [|discriminate].
  cbn. discriminate.
Qed.

Section Rotate.

Variables (s : State) (target : Media) (mouseX0 mouseY0 : R).
Variables (altKey : bool) (now : N) (d : Display).

Hypothesis Hshown : shown target = true.
Hypothesis Hin : outsideMedia mouseX0 mouseY0 target = false.
Hypothesis Hhit :
  hitTest mouseX0 mouseY0 (offsetX target) (offsetY target)
    (scaleDown target) (displayOrder altKey s) = Found d HitRotate.
Hypothesis Hfind : findDisplay (Some (id d)) (displays s) = Some d.
Hypothesis Hdraw : isDrawing s = false.

Let pressed : State := mousedown mouseX0 mouseY0 altKey target now s.
Let center : Point := getPolyCenter (corners d).

(** The angular delta of a pointer position, as [mousemove] computes it. *)
Let deltaAt (mouseX mouseY : R) : R :=
  Js.Math_atan2
    (mouseY - (offsetY target + py center * scaleMove target))
    (mouseX - (offsetX target + px center * scaleMove target))
  * 180 / PI
  - rotateStartAngle pressed.

(** What a move does to the region, for the angular delta [delta]. *)
Let turned (delta : R) (x : Display) : Display :=
  x |> set_corners (rotatePoints (corners d) center delta)
    |> set_rotation
         (RotNum (gestureRotation (rotationOrZero (rotation d)) delta)).

Let during (f : Display -> Display) : State :=
  set_displays (updateFirst (Some (id d)) f (displays s)) pressed.

Lemma rotate_pressed_fields :
  isRotating pressed = true
  /\ activeDisplayId pressed = Some (id d)
  /\ originalCorners pressed = corners d
  /\ displayCenter pressed = center
  /\ rotateStartValue pressed = rotationOrZero (rotation d)
  /\ isDrawing pressed = false.
Proof.
  unfold pressed, mousedown. rewrite Hshown, Hin, Hhit. cbn [negb].
  unfold saveState. fields. rewrite Hdraw. repeat split.
Qed.

Lemma pressed_during : pressed = during (fun x => x).
Proof.
  unfold during. rewrite updateFirst_unchanged.
  unfold pressed, mousedown. rewrite Hshown, Hin, Hhit. cbn [negb].
  reflexivity.
Qed.

Lemma mousemove_during (f : Display -> Display) (mouseX mouseY : R) :
  (forall x, identity (f x) = identity x) ->
  mousemove mouseX mouseY target (during f)
  = during (turned (deltaAt mouseX mouseY)).
Proof.
  intros Hf.
  assert (Hid : forall x, id (f x) = id x).
  { intros x. pose proof (Hf x) as H. unfold identity in H. congruence. }
  destruct rotate_pressed_fields as (HR & HA & HO & HC & HV & _).
  unfold mousemove, during. fields.
  rewrite HR, HA, HO, HC, HV. cbn [negb andb].
  rewrite !Bool.andb_false_r. cbn [andb].
  rewrite findDisplay_updateFirst, Hfind by exact Hid. cbn [option_map].
  rewrite set_displays_twice, updateFirst_twice by exact Hid.
  f_equal. apply updateFirst_ext. intros x.
  unfold turned, deltaAt, set_corners, set_rotation. fields.
  pose proof (Hf x) as H. unfold identity in H.
  injection H as -> -> -> -> ->. reflexivity.
Qed.

Lemma turned_identity (delta : R) (x : Display) :
  identity (turned delta x) = identity x.
Proof. reflexivity. Qed.

Lemma moveAll_during (moves : list (R * R)) :
  forall f,
    (forall x, identity (f x) = identity x) ->
    moves <> [] ->
    moveAll moves target (during f)
    = during (turned (deltaAt (fst (last moves (0, 0)))
                               (snd (last moves (0, 0))))).
Proof.
  induction moves as [|[mx my] moves IH]; intros f Hf Hne; [contradiction|].
  change (moveAll ((mx, my) :: moves) target ?st)
    with (moveAll moves target (mousemove mx my target st)).
  rewrite mousemove_during by exact Hf.
  destruct moves as [|m' moves']; [reflexivity|].
  rewrite IH by (apply turned_identity || discriminate). reflexivity.
Qed.

Lemma rotate_start_angle :
  rotateStartAngle pressed
  = pointerAngle target (scaleDown target) center mouseX0 mouseY0.
Proof.
  unfold pressed, mousedown. rewrite Hshown, Hin, Hhit. cbn [negb].
  unfold saveState. fields. reflexivity.
Qed.

(** X9.  A rotate gesture with at least one move turns the corners that
    the region had at the press about their centroid by [delta], the angle
    under which the pointer is seen from that centroid at the last move
    less the angle at the press, as [mousedown] and [mousemove] compute
    them.  The [rotation] field becomes the start value plus the rounded
    [delta], modulo 360, a number from 0 to 359.  Nothing else changes:
    not the rest of the region, and no other region of the list, also one
    that should carry the same id.  The gesture selects the region, pushes
    one snapshot as [saveState] does, empties the redo stack, and ends
    with every gesture flag cleared.  Over exact reals the turn keeps the
    centroid and the distances between corners. *)
Theorem rotate_gesture (moves : list (R * R)) :
  moves <> [] ->
  rotateOutcome mouseX0 mouseY0 altKey target now moves d s.
Proof.
  intros Hne. unfold rotateOutcome, gesture. fold pressed center.
  rewrite pressed_during, (moveAll_during moves) by (reflexivity || exact Hne).
  assert (Hlast : last moves (mouseX0, mouseY0) = last moves (0, 0)).
  { destruct moves as [|m moves']; [contradiction|].
    apply last_cons_default. }
  rewrite Hlast.
  set (delta := deltaAt (fst (last moves (0, 0))) (snd (last moves (0, 0)))).
  assert (Hdelta :
            pointerAngle target (scaleMove target) center
              (fst (last moves (0, 0))) (snd (last moves (0, 0)))
            - pointerAngle target (scaleDown target) center mouseX0 mouseY0
            = delta).
  { unfold delta, deltaAt. rewrite rotate_start_angle. reflexivity. }
  rewrite Hdelta.
  destruct rotate_pressed_fields as (_ & HA & _ & _ & _ & HD).
  assert (Hhist : undoStack pressed = undoStack (saveState s)
                  /\ redoStack pressed = []).
  { apply mousedown_history; [exact Hshown|exact Hin|].
    rewrite Hhit. discriminate. }
  destruct Hhist as [HU HR].
  unfold during.
  destruct (mouseup_done s pressed d
              (updateFirst (Some (id d)) (turned delta) (displays s))
              HD HA HU HR) as [Hdone ->].
  split.
  { rewrite <- gestureRotation_mod.
    apply (updateFirst_firstReplaced (id d) (displays s) d (turned delta)
             Hfind). }
  split; [rewrite <- gestureRotation_mod; apply gestureRotation_range|].
  cbn [corners set_corners set_rotation].
  split.
  { apply getPolyCenter_rotatePoints.
    exact (probeDisplay_rotate _ _ _ _ _ _
             (hitTest_probe _ _ _ _ _ _ _ _ Hhit)). }
  split; [|exact Hdone].
  intros i j p q p' q' Hp Hq Hp' Hq'. unfold rotatePoints in Hp', Hq'.
  rewrite nth_error_map, Hp in Hp'. rewrite nth_error_map, Hq in Hq'.
  cbn [option_map] in Hp', Hq'.
  injection Hp' as <-. injection Hq' as <-. apply rotatePoint_dist.
Qed.

End Rotate.

(** Turning [region1] by its handle, from (250, 140) to (300, 150). *)
Lemma rotate_gesture_witness :
  rotateOutcome 250 140 false image640 2 [(300, 150)] region1 oneRegion.
Proof.
  destruct oneRegion_displays as (_ & _ & _ & Hw & _).
  apply (rotate_gesture oneRegion image640 250 140 false 2 region1).
  - reflexivity.
  - apply image640_inside; lra.
  - exact region1_rotate_hit.
  - exact oneRegion_find.
  - exact Hw.
  - discriminate.
Defined.

(** ** What a move and a release leave alone *)

Lemma hasId_identity ident (x y : Display) :
  identity x = identity y -> hasId ident x = hasId ident y.
Proof. unfold identity, hasId. intros [= -> _ _ _ _]. reflexivity. Qed.

Lemma map_identity_updateFirst ident f ds :
  (forall x, identity (f x) = identity x) ->
  map identity (updateFirst ident f ds) = map identity ds.
Proof.
  intros Hf. induction ds as [|x ds IH]; [reflexivity|].
  cbn [updateFirst]. destruct (hasId ident x); cbn [map].
  - now rewrite Hf.
  - now rewrite IH.
Qed.

Lemma others_updateFirst_any ident f ds :
  (forall x, identity (f x) = identity x) ->
  others ident (updateFirst ident f ds) = others ident ds.
Proof.
  intros Hf. unfold others. induction ds as [|x ds IH]; [reflexivity|].
  cbn [updateFirst]. destruct (hasId ident x) eqn:E; cbn [filter].
  - rewrite (hasId_identity ident _ _ (Hf x)), E. reflexivity.
  - rewrite E. cbn [negb]. now rewrite IH.
Qed.

Lemma hasId_None d : hasId None d = false.
Proof. reflexivity. Qed.

Lemma findDisplay_None ds : findDisplay None ds = None.
Proof. unfold findDisplay. induction ds as [|x ds IH]; [reflexivity|exact IH]. Qed.

(** X10.  A move changes nothing of the editor state but the region
    list, and of the list at most one region: the first one that carries
    the selected id.  Every other region, also one that should carry the
    same id, stays where and what it was, and the region that changes
    keeps its id, name, camera, stored box and perspective flag. *)
Theorem mousemove_frame (mouseX mouseY : R) (target : Media) (s : State) :
  let s' := mousemove mouseX mouseY target s in
  s' = set_displays (displays s') s
  /\ (displays s' = displays s
      \/ exists ident d d',
           activeDisplayId s = Some ident
           /\ firstReplaced ident d d' (displays s) (displays s')
           /\ identity d' = identity d).
Proof.
  cbn zeta. unfold mousemove.
  destruct (negb (isDragging s) && negb (isResizing s) && negb (isDrawing s)
            && negb (isRotating s) && (activeSideIndex s =? -1)%Z).
  { split; [destruct s; reflexivity|now left]. }
  destruct (findDisplay (activeDisplayId s) (displays s)) as [d|] eqn:Ef.
  2:{ split; [destruct s; reflexivity|now left]. }
  destruct (activeDisplayId s) as [ident|] eqn:Ea;
    [|now rewrite findDisplay_None in Ef].
  fields. split; [reflexivity|]. right.
  match goal with
  | |- context [updateFirst (Some ident) ?f (displays s)] =>
      exists ident, d, (f d); split; [reflexivity|];
      split; [exact (updateFirst_firstReplaced ident (displays s) d f Ef)|]
  end.
  destruct (isRotating s), (isDrawing s), (isDragging s), (isResizing s);
    reflexivity.
Qed.

Lemma findDisplay_In ident ds d :
  findDisplay ident ds = Some d -> In d ds.
Proof. unfold findDisplay. intros H. now apply find_some in H. Qed.

Lemma four_corners_0_2 (cs : list Point) :
  length cs = 4%nat ->
  exists c0 c2, corner cs 0 = Some c0 /\ corner cs 2 = Some c2.
Proof.
  destruct cs as [|a [|b [|c [|e [|]]]]]; try discriminate. intros _.
  exists a, c. split; reflexivity.
Qed.

(** X11.  When every region has four corners, a release ends the gesture:
    all gesture flags are cleared.  It leaves the history alone, and the
    region list too, unless it drops the region that was being drawn. *)
Theorem mouseup_idle (s : State) :
  fourCorners (displays s) ->
  let s' := mouseup s in
  idle s'
  /\ undoStack s' = undoStack s /\ redoStack s' = redoStack s
  /\ (displays s' = displays s /\ activeDisplayId s' = activeDisplayId s
      \/ exists ident,
           isDrawing s = true /\ drawingDisplayId s = Some ident
           /\ displays s' = others (Some ident) (displays s)
           /\ activeDisplayId s' = None).
Proof.
  intros H4. cbn zeta. unfold mouseup.
  destruct (isDrawing s) eqn:Ed;
    [|unfold endGesture, idle; fields; repeat split; left; split; reflexivity].
  destruct (drawingDisplayId s) as [ident|] eqn:Ei;
    [|unfold endGesture, idle; fields; repeat split; left; split; reflexivity].
  destruct (findDisplay (Some ident) (displays s)) as [d|] eqn:Ef;
    [|unfold endGesture, idle; fields; repeat split; left; split; reflexivity].
  assert (Hd : length (corners d) = 4%nat).
  { unfold fourCorners in H4. rewrite Forall_forall in H4.
    apply H4. eapply findDisplay_In, Ef. }
  destruct (four_corners_0_2 _ Hd) as (c0 & c2 & -> & ->).
  destruct (_ || _); unfold endGesture, idle; fields.
  - repeat split. right. exists ident. repeat split.
  - repeat split. left. split; reflexivity.
Qed.

Lemma mouseup_idle_witness :
  let s' := mouseup oneRegion in
  idle s'
  /\ undoStack s' = undoStack oneRegion /\ redoStack s' = redoStack oneRegion
  /\ (displays s' = displays oneRegion
      /\ activeDisplayId s' = activeDisplayId oneRegion
      \/ exists ident,
           isDrawing oneRegion = true /\ drawingDisplayId oneRegion = Some ident
           /\ displays s' = others (Some ident) (displays oneRegion)
           /\ activeDisplayId s' = None).
Proof.
  apply (mouseup_idle oneRegion).
  destruct oneRegion_displays as (-> & _). repeat constructor.
Defined.

(** ** The four-corner invariant *)

Lemma fourCorners_jsonClone ds : fourCorners ds -> fourCorners (jsonClone ds).
Proof.
  unfold fourCorners, jsonClone. intros H. apply Forall_map.
  eapply Forall_impl; [|exact H]. intros d Hd. unfold cloneDisplay.
  destruct (rotation d); exact Hd.
Qed.

Lemma Forall_tl {A} (P : A -> Prop) (l : list A) : Forall P l -> Forall P (tl l).
Proof. destruct 1; [constructor|assumption]. Qed.

Lemma Forall_removelast {A} (P : A -> Prop) (l : list A) :
  Forall P l -> Forall P (removelast l).
Proof.
  induction 1 as [|x l Hx Hl IH]; [constructor|].
  cbn [removelast]. destruct l; [constructor|]. constructor; assumption.
Qed.

Lemma Forall_last {A} (P : A -> Prop) (l : list A) (d : A) :
  P d -> Forall P l -> P (last l d).
Proof.
  intros Hd. induction 1 as [|x l Hx Hl IH]; [exact Hd|].
  cbn [last]. destruct l; [exact Hx|exact IH].
Qed.

Lemma Forall_filter_keep {A} (P : A -> Prop) (f : A -> bool) (l : list A) :
  Forall P l -> Forall P (filter f l).
Proof.
  induction 1 as [|x l Hx Hl IH]; [constructor|].
  cbn [filter]. destruct (f x); [constructor|]; assumption.
Qed.

Lemma saveState_stacks_fourCorners s :
  fourCorners (displays s) -> Forall fourCorners (undoStack s) ->
  Forall fourCorners (undoStack (saveState s)).
Proof.
  intros Hd Hu. unfold saveState, push, shift. fields.
  assert (H : Forall fourCorners (undoStack s ++ [jsonClone (displays s)])).
  { apply Forall_app. split; [exact Hu|].
    constructor; [apply fourCorners_jsonClone, Hd|constructor]. }
  destruct (_ <? _)%nat; [apply Forall_tl|]; exact H.
Qed.

Lemma fourCorners_updateFirst ident f ds :
  (forall x, length (corners x) = 4%nat -> length (corners (f x)) = 4%nat) ->
  fourCorners ds -> fourCorners (updateFirst ident f ds).
Proof.
  intros Hf. unfold fourCorners. induction 1 as [|x ds Hx Hds IH];
    [constructor|].
  cbn [updateFirst]. destruct (hasId ident x); constructor; auto.
Qed.

Lemma hitTest_In mouseX mouseY ox oy scale order d h :
  hitTest mouseX mouseY ox oy scale order = Found d h -> In d order.
Proof.
  induction order as [|x rest IH]; cbn [hitTest]; [discriminate|].
  destruct (probeDisplay mouseX mouseY ox oy scale x); try discriminate.
  - intros [= <- _]. now left.
  - intros H. right. apply IH, H.
Qed.

Lemma displayOrder_In altKey s d :
  In d (displayOrder altKey s) -> In d (displays s).
Proof.
  unfold displayOrder. destruct altKey; intros H.
  - apply filter_In in H. tauto.
  - apply in_rev, filter_In in H. tauto.
Qed.

Lemma assignX_length orig i delta r :
  length (written (assignX orig i delta r)) = length (written r).
Proof.
  destruct r as [cs|cs]; [|reflexivity]. unfold assignX.
  destruct (corner cs i), (corner orig i); cbn [written]; try reflexivity.
  apply length_replaceNth.
Qed.

Lemma assignY_length orig i delta r :
  length (written (assignY orig i delta r)) = length (written r).
Proof.
  destruct r as [cs|cs]; [|reflexivity]. unfold assignY.
  destruct (corner cs i), (corner orig i); cbn [written]; try reflexivity.
  apply length_replaceNth.
Qed.

Lemma mousedown_wellShaped mouseX mouseY altKey target now s :
  wellShaped s -> wellShaped (mousedown mouseX mouseY altKey target now s).
Proof.
  intros (Hd & Hu & Hr & Ho). unfold mousedown.
  destruct (negb (shown target)); [repeat split; assumption|].
  destruct (outsideMedia mouseX mouseY target); [repeat split; assumption|].
  pose proof (saveState_stacks_fourCorners s Hd Hu) as Hs.
  destruct (hitTest _ _ _ _ _ _) as [d h| |] eqn:Eh.
  - assert (H4 : length (corners d) = 4%nat).
    { unfold fourCorners in Hd. rewrite Forall_forall in Hd.
      apply Hd. eapply displayOrder_In, hitTest_In, Eh. }
    destruct h; unfold wellShaped; fields;
      (split; [exact Hd|]); (split; [exact Hs|]);
      (split; [constructor|]); intros _; exact H4.
  - unfold wellShaped; fields. unfold push.
    split; [apply Forall_app; split; [exact Hd|repeat constructor]|].
    split; [exact Hs|]. split; [constructor|]. intros _. reflexivity.
  - repeat split; assumption.
Qed.

Lemma mousemove_wellShaped mouseX mouseY target s :
  wellShaped s -> wellShaped (mousemove mouseX mouseY target s).
Proof.
  intros (Hd & Hu & Hr & Ho). unfold mousemove.
  destruct (_ && _); [repeat split; assumption|].
  destruct (findDisplay _ _); [|repeat split; assumption].
  unfold wellShaped. fields.
  split; [|repeat split; assumption].
  apply fourCorners_updateFirst; [|exact Hd]. intros x Hx.
  destruct (isRotating s) eqn:Er.
  - cbn [corners set_corners set_rotation]. unfold rotatePoints.
    rewrite length_map. apply Ho. apply Bool.orb_true_r.
  - destruct (isDrawing s).
    + cbn [corners set_corners].
      now rewrite !assignY_length, !assignX_length.
    + destruct (isDragging s) eqn:Eg.
      * cbn [corners set_corners]. rewrite length_map. apply Ho.
        reflexivity.
      * destruct (isResizing s); cbn [corners set_corners];
          repeat (rewrite assignY_length || rewrite assignX_length);
          exact Hx.
Qed.

Lemma mouseup_wellShaped s : wellShaped s -> wellShaped (mouseup s).
Proof.
  intros (Hd & Hu & Hr & Ho). unfold mouseup.
  assert (He : wellShaped (endGesture s)).
  { unfold wellShaped, endGesture. fields. repeat split; try assumption.
    discriminate. }
  destruct (isDrawing s); [|exact He].
  destruct (drawingDisplayId s); [|exact He].
  destruct (findDisplay _ _) as [d|]; [|exact He].
  destruct (corner (corners d) 0), (corner (corners d) 2);
    try (repeat split; assumption).
  destruct (Js.ltb _ 20 || Js.ltb _ 20); [|exact He].
  unfold wellShaped, endGesture. fields.
  split; [apply Forall_filter_keep, Hd|]. repeat split; try assumption.
  discriminate.
Qed.

Lemma undo_wellShaped s : wellShaped s -> wellShaped (undo s).
Proof.
  intros (Hd & Hu & Hr & Ho). unfold undo.
  destruct (undoStack s) as [|x l] eqn:E; [repeat split; try assumption;
    now rewrite E|].
  unfold wellShaped. fields. unfold push.
  split; [apply Forall_last; [now inversion Hu|now inversion Hu]|].
  split; [apply Forall_removelast, Hu|].
  split; [|exact Ho].
  apply Forall_app. split; [exact Hr|].
  constructor; [apply fourCorners_jsonClone, Hd|constructor].
Qed.

Lemma redo_wellShaped s : wellShaped s -> wellShaped (redo s).
Proof.
  intros (Hd & Hu & Hr & Ho). unfold redo.
  destruct (redoStack s) as [|x l] eqn:E; [repeat split; try assumption;
    now rewrite E|].
  unfold wellShaped. fields. unfold push.
  split; [apply Forall_last; [now inversion Hr|now inversion Hr]|].
  split; [|split; [apply Forall_removelast, Hr|exact Ho]].
  apply Forall_app. split; [exact Hu|].
  constructor; [apply fourCorners_jsonClone, Hd|constructor].
Qed.

Lemma step_wellShaped e s :
  wellShapedEvent e -> wellShaped s -> wellShaped (step e s).
Proof.
  intros He Hs. destruct e; cbn [step].
  - apply mousedown_wellShaped, Hs.
  - apply mousemove_wellShaped, Hs.
  - apply mouseup_wellShaped, Hs.
  - apply undo_wellShaped, Hs.
  - apply redo_wellShaped, Hs.
  - destruct Hs as (Hd & Hu & Hr & Ho). unfold updateDisplay.
    destruct (findDisplay _ _); [|repeat split; assumption].
    unfold wellShaped. fields.
    split; [apply fourCorners_updateFirst; [intros x Hx; exact Hx|exact Hd]|].
    split; [apply saveState_stacks_fourCorners; assumption|].
    split; [constructor|exact Ho].
  - destruct Hs as (Hd & Hu & Hr & Ho). unfold deleteDisplay, wellShaped.
    fields.
    split; [apply Forall_filter_keep, Hd|].
    split; [apply saveState_stacks_fourCorners; assumption|].
    split; [constructor|exact Ho].
  - destruct Hs as (Hd & Hu & Hr & Ho). unfold closePanel, wellShaped. fields.
    repeat split; assumption.
  - destruct Hs as (Hd & Hu & Hr & Ho). unfold startAddDisplayMode.
    pose proof (saveState_stacks_fourCorners s Hd Hu) as Hsave.
    destruct (noCameraSelected _); unfold wellShaped; fields.
    + split; [exact Hd|]. split; [exact Hsave|]. split; [constructor|exact Ho].
    + unfold push.
      split; [apply Forall_app; split; [exact Hd|repeat constructor]|].
      split; [exact Hsave|]. split; [constructor|exact Ho].
  - destruct Hs as (Hd & Hu & Hr & Ho). unfold wellShaped. fields.
    repeat split; assumption.
Qed.

Lemma run_wellShaped (es : list Event) :
  Forall wellShapedEvent es -> wellShaped (run es init).
Proof.
  intros Hes.
  assert (H : forall s, wellShaped s -> wellShaped (run es s)).
  { induction Hes as [|e es He _ IH]; intros s Hs; [exact Hs|].
    cbn [run fold_left]. apply IH, step_wellShaped; assumption. }
  apply H. unfold wellShaped, init; cbn.
  repeat split; try constructor. discriminate.
Qed.

(** X12.  As long as no region without four corners is brought in from
    outside, every region on screen and in the history has exactly four
    corners, whatever the events: no handler adds or removes a corner. *)
Theorem four_corners_invariant (es : list Event) :
  Forall wellShapedEvent es ->
  let s := run es init in
  fourCorners (displays s)
  /\ Forall fourCorners (undoStack s)
  /\ Forall fourCorners (redoStack s).
Proof.
  intros Hes. destruct (run_wellShaped es Hes) as (Hd & Hu & Hr & _).
  repeat split; assumption.
Qed.

Lemma four_corners_invariant_witness :
  let s := run [External [region1] (Some "cam1"%string) None;
                StartAddDisplayMode 5; Undo; Redo; DeleteDisplay] init in
  fourCorners (displays s)
  /\ Forall fourCorners (undoStack s)
  /\ Forall fourCorners (redoStack s).
Proof.
  apply (four_corners_invariant
           [External [region1] (Some "cam1"%string) None;
            StartAddDisplayMode 5; Undo; Redo; DeleteDisplay]).
  repeat constructor.
Defined.

(** ** Undo and redo as inverses *)












(** ** Deleting and updating the selected region *)

Lemma others_None ds : others None ds = ds.
Proof.
  unfold others. induction ds as [|x ds IH]; [reflexivity|].
  cbn [filter]. rewrite hasId_None. cbn [negb]. now rewrite IH.
Qed.

Lemma others_In ident ds d :
  In d (others ident ds) <-> In d ds /\ hasId ident d = false.
Proof.
  unfold others. rewrite filter_In. split; intros [H1 H2]; split; auto.
  - now apply Bool.negb_true_iff.
  - now rewrite H2.
Qed.

Lemma findDisplay_others ident ds : findDisplay ident (others ident ds) = None.
Proof.
  unfold findDisplay. destruct (find _ _) as [d|] eqn:E; [|reflexivity].
  apply find_some in E. destruct E as [Hin Hid].
  apply others_In in Hin. destruct Hin as [_ Hn]. congruence.
Qed.

Lemma undo_saveState s f :
  undoStack (f (saveState s)) = undoStack (saveState s) ->
  displays (undo (f (saveState s))) = jsonClone (displays s).
Proof.
  intros H. destruct (saveState_top s) as [older Ho]. rewrite Ho in H.
  now destruct (undo_snoc _ _ _ H) as (_ & Hd & _).
Qed.

(** X14.  Deleting removes every region that carries the selected id and
    no other, and ends with nothing selected; it saves the list first, so
    one undo brings the list back as it was saved.  With nothing selected
    it removes nothing, but the redo stack is emptied all the same. *)
Theorem deleteDisplay_removes (s : State) :
  let s' := deleteDisplay s in
  (forall d, In d (displays s')
             <-> In d (displays s) /\ hasId (activeDisplayId s) d = false)
  /\ findDisplay (activeDisplayId s) (displays s') = None
  /\ activeDisplayId s' = None
  /\ displays (undo s') = jsonClone (displays s)
  /\ redoStack s' = []
  /\ (activeDisplayId s = None -> displays s' = displays s).
Proof.
  cbn zeta.
  assert (Hd : displays (deleteDisplay s)
               = others (activeDisplayId s) (displays s)).
  { unfold deleteDisplay, saveState. fields. reflexivity. }
  rewrite Hd. split; [intros d; apply others_In|].
  split; [apply findDisplay_others|].
  split; [unfold deleteDisplay; fields; reflexivity|].
  split.
  { apply (undo_saveState s
             (fun t => t |> set_displays
                              (filter (fun x => negb (hasId (activeDisplayId t) x))
                                      (displays t))
                         |> set_activeDisplayId None)).
    fields. reflexivity. }
  split; [unfold deleteDisplay, saveState; fields; reflexivity|].
  intros Hn. rewrite Hn. apply others_None.
Qed.

Lemma deleteDisplay_removes_witness :
  displays (deleteDisplay (closePanel oneRegion))
  = displays (closePanel oneRegion).
Proof.
  apply (deleteDisplay_removes (closePanel oneRegion)). reflexivity.
Defined.

(** X15.  The update handler of the property panel changes the name, the
    rotation and the perspective flag of the first region with the
    selected id, and nothing else: that region keeps its id, camera, box
    and corners, every other region, also one that should carry the same
    id, stays where and what it was, and the selection stays.  Before
    that, one snapshot is pushed as [saveState] does and the redo stack is
    emptied, so that one undo brings the list back as it was saved.  With
    no region of the selected id the handler does nothing at all. *)
Theorem updateDisplay_frame (propName propRotation : string)
  (propPerspective : bool) (s : State) :
  let s' := updateDisplay propName propRotation propPerspective s in
  activeDisplayId s' = activeDisplayId s
  /\ match findDisplay (activeDisplayId s) (displays s) with
     | None => s' = s
     | Some d =>
         exists ident,
           activeDisplayId s = Some ident
           /\ firstReplaced ident d
                (mkDisplay (id d) propName (camId d) (box d)
                   (enteredRotation propRotation) propPerspective (corners d))
                (displays s) (displays s')
           /\ undoStack s' = undoStack (saveState s)
           /\ redoStack s' = []
           /\ displays (undo s') = jsonClone (displays s)
     end.
Proof.
  cbn zeta. unfold updateDisplay.
  destruct (findDisplay (activeDisplayId s) (displays s)) as [d|] eqn:Ef;
    [|split; reflexivity].
  destruct (activeDisplayId s) as [ident|] eqn:Ea;
    [|now rewrite findDisplay_None in Ef].
  set (change := fun d0 : Display =>
                   mkDisplay (id d0) propName (camId d0) (box d0)
                     match Js.parseInt propRotation with
                     | Some z => RotNum z
                     | None => RotNaN
                     end propPerspective (corners d0)).
  assert (Hd : displays
                 (saveState s
                    |> set_displays
                         (updateFirst (activeDisplayId (saveState s)) change
                            (displays (saveState s))))
               = updateFirst (Some ident) change (displays s)).
  { unfold saveState. fields. now rewrite Ea. }
  rewrite Hd.
  split; [unfold saveState; fields; exact Ea|].
  exists ident. split; [reflexivity|].
  split; [exact (updateFirst_firstReplaced ident (displays s) d change Ef)|].
  split; [fields; reflexivity|].
  split; [unfold saveState; fields; reflexivity|].
  apply (undo_saveState s
           (fun t => t |> set_displays
                            (updateFirst (activeDisplayId t) change
                               (displays t)))).
  fields. reflexivity.
Qed.

(** ** Opening the property panel and applying it unchanged *)

Import Panel.

Lemma parseDigits_digits d acc :
  Js.parseDigits 10 (NilEmpty.string_of_uint d) (Some acc)
  = Some (digitsValue d acc).
Proof.
  revert acc. induction d; intros acc; cbn [NilEmpty.string_of_uint];
    [reflexivity|..];
    cbn [Js.parseDigits digitsValue];
    match goal with
    | |- context [Js.digitValue 10 ?c] =>
        change (Js.digitValue 10 c) with (Some (Z.of_nat (nat_of_ascii c) - 48)%Z)
    end; cbn [nat_of_ascii]; apply IHd.
Qed.

Lemma digitsValue_of_uint_acc d acc :
  Z.pos (Pos.of_uint_acc d acc) = digitsValue d (Z.pos acc).
Proof.
  revert acc. induction d; intros acc;
    cbn [Pos.of_uint_acc digitsValue]; [reflexivity|..];
    rewrite IHd; f_equal; lia.
Qed.

Lemma digitsValue_of_uint d : Z.of_N (N.of_uint d) = digitsValue d 0.
Proof.
  unfold N.of_uint.
  induction d; cbn [Pos.of_uint digitsValue]; [reflexivity|exact IHd|..];
    cbn [Z.of_N]; apply digitsValue_of_uint_acc.
Qed.

(** [parseInt] reads back what [String] printed. *)
Lemma parseInt_digits d :
  d <> Decimal.Nil ->
  Js.parseInt (NilEmpty.string_of_uint d) = Some (digitsValue d 0)
  /\ Js.parseInt (String "-" (NilEmpty.string_of_uint d))
     = Some (- digitsValue d 0)%Z.
Proof.
  intros Hd.
  assert (H : exists c tl,
             NilEmpty.string_of_uint d = String c tl
             /\ Js.parseDigits 10 (String c tl) None = Some (digitsValue d 0)
             /\ Js.isWhiteSpace c = false
             /\ c <> "-"%char /\ c <> "+"%char
             /\ (c = "0"%char ->
                 forall tl', tl <> String "x" tl' /\ tl <> String "X" tl')).
  { destruct d as [|d|d|d|d|d|d|d|d|d|d]; [congruence|..];
      cbn [NilEmpty.string_of_uint]; eexists; eexists;
      (split; [reflexivity|]);
      (split; [cbn [Js.parseDigits digitsValue];
               match goal with
               | |- context [Js.digitValue 10 ?c] =>
                   change (Js.digitValue 10 c)
                     with (Some (Z.of_nat (nat_of_ascii c) - 48)%Z)
               end; apply parseDigits_digits|]);
      (split; [reflexivity|]);
      (split; [discriminate|]); (split; [discriminate|]);
      try (intros [=]; fail).
    intros _ tl'. destruct d; cbn [NilEmpty.string_of_uint];
      split; discriminate. }
  destruct H as (c & tl & -> & Hp & Hw & Hm & Hpl & Hx).
  assert (Hplain : Js.parseInt (String c tl)
                   = option_map (Z.mul 1) (Js.parseDigits 10 (String c tl) None)
                   /\ Js.parseInt (String "-" (String c tl))
                   = option_map (Z.mul (-1))
                       (Js.parseDigits 10 (String c tl) None)).
  { unfold Js.parseInt. cbn [Js.trimStart]. rewrite Hw.
    change (Js.isWhiteSpace "-") with false. cbv iota.
    destruct (ascii_dec c "0") as [->|Hz].
    - destruct tl as [|c' tl']; [split; reflexivity|].
      destruct (Hx eq_refl tl') as [H1 H2].
      destruct (ascii_dec c' "x") as [->|H3]; [congruence|].
      destruct (ascii_dec c' "X") as [->|H4]; [congruence|].
      destruct c' as [[] [] [] [] [] [] [] []];
        try congruence; split; reflexivity.
    - destruct c as [[] [] [] [] [] [] [] []];
        try congruence; split; reflexivity. }
  destruct Hplain as [-> ->]. rewrite Hp. cbn [option_map].
  split; f_equal; lia.
Qed.

Lemma parseInt_decimal n :
  Js.parseInt (Js.decimal n) = Some (Z.of_N n)
  /\ Js.parseInt (String "-" (Js.decimal n)) = Some (- Z.of_N n)%Z.
Proof.
  unfold Js.decimal.
  rewrite <- (DecimalN.Unsigned.of_to n) at 2 4.
  rewrite digitsValue_of_uint.
  destruct (N.to_uint n) eqn:E;
    [split; reflexivity|..];
    match goal with
    | |- context [NilZero.string_of_uint ?d] =>
        change (NilZero.string_of_uint d) with (NilEmpty.string_of_uint d);
        apply (parseInt_digits d); discriminate
    end.
Qed.

Lemma parseInt_numberText z text :
  numberText z = Some text -> Js.parseInt text = Some z.
Proof.
  unfold numberText. destruct (Z.abs z <? 10 ^ 21)%Z; [|discriminate].
  intros [= <-]. destruct (Z.ltb_spec z 0) as [Hneg|Hpos].
  - destruct (parseInt_decimal (Z.to_N (- z))) as [_ ->]. f_equal. lia.
  - destruct (parseInt_decimal (Z.to_N z)) as [-> _]. f_equal. lia.
Qed.

Lemma updateFirst_fixed ident f ds d :
  findDisplay ident ds = Some d -> f d = d -> updateFirst ident f ds = ds.
Proof.
  unfold findDisplay. intros Hf Hd.
  induction ds as [|x ds IH]; [reflexivity|].
  cbn [find] in Hf. cbn [updateFirst]. destruct (hasId ident x).
  - injection Hf as ->. now rewrite Hd.
  - now rewrite IH.
Qed.

(** X16.  Pressing Update with the inputs as [openPropertyPanel] filled
    them rewrites the first region with the selected id and no other.
    The region gets its own name without line breaks, since the name
    input strips them, and its own rotation when that is a number, since
    [parseInt] reads back the text that the number was shown as; a
    rotation that is [null] or [NaN] is shown as an empty input and comes
    back as [NaN].  So the update changes no region when the name of the
    selected region holds no line break and its rotation is a number. *)
Theorem panel_round_trip (s : State) (d : Display)
  (propName propRotation : string) (propPerspective : bool) :
  findDisplay (activeDisplayId s) (displays s) = Some d ->
  openPropertyPanel d = Some (propName, propRotation, propPerspective) ->
  let s' := updateDisplay propName propRotation propPerspective s in
  let d' :=
    mkDisplay (id d) (stripNewlines (name d)) (camId d) (box d)
      (match rotation d with
       | RotNum z => RotNum z
       | RotNaN | RotNull => RotNaN
       end)
      (enablePerspective d) (corners d) in
  (exists ident,
      activeDisplayId s = Some ident
      /\ firstReplaced ident d d' (displays s) (displays s'))
  /\ (stripNewlines (name d) = name d ->
      (exists z, rotation d = RotNum z) ->
      displays s' = displays s).
Proof.
  intros Hf Hopen. cbn zeta.
  destruct (activeDisplayId s) as [ident|] eqn:Ea;
    [|now rewrite findDisplay_None in Hf].
  unfold openPropertyPanel in Hopen.
  destruct (rotationInput (rotation d)) as [text|] eqn:Et; [|discriminate].
  cbn [option_map] in Hopen. injection Hopen as <- <- <-.
  unfold updateDisplay. rewrite Ea, Hf.
  assert (Hd : forall change,
             displays
               (saveState s
                  |> set_displays
                       (updateFirst (activeDisplayId (saveState s)) change
                          (displays (saveState s))))
             = updateFirst (Some ident) change (displays s)).
  { intros change. unfold saveState. fields. now rewrite Ea. }
  rewrite Hd.
  assert (Hrot : match Js.parseInt text with
                 | Some z => RotNum z
                 | None => RotNaN
                 end
                 = match rotation d with
                   | RotNum z => RotNum z
                   | RotNaN | RotNull => RotNaN
                   end).
  { destruct (rotation d) as [z| |]; cbn [rotationInput] in Et.
    - now rewrite (parseInt_numberText z text Et).
    - injection Et as <-. reflexivity.
    - injection Et as <-. reflexivity. }
  split.
  - exists ident. split; [reflexivity|]. rewrite <- Hrot.
    exact (updateFirst_firstReplaced ident (displays s) d _ Hf).
  - intros Hname [z Hz].
    apply updateFirst_fixed with (d := d); [exact Hf|].
    rewrite Hrot, Hname, Hz. rewrite <- Hz. now destruct d.
Qed.

Lemma panel_round_trip_witness :
  displays (updateDisplay "New Display" "0" false oneRegion)
  = displays oneRegion.
Proof.
  apply (panel_round_trip oneRegion region1 "New Display" "0" false);
    try (vm_compute; reflexivity).
  exists 0%Z. reflexivity.
Defined.

(** ** The overlay and the pointer *)

Import Overlay.







(** ** The scale of the picture *)

(** X18.  The press handler works out the scale of the picture in one way,
    the move handler and the overlay in another.  The two agree for an
    image, and for a video whose frame width is known; for a video whose
    [videoWidth] is still 0 the press handler divides by 1 where the
    others divide by the [width] attribute. *)
Theorem scale_agreement (m : Media) :
  (tagVideo m = false \/ videoWidth m <> 0 -> scaleMove m = scaleDown m)
  /\ (tagVideo m = true -> videoWidth m = 0 ->
      scaleDown m = renderedW m
      /\ scaleMove m = renderedW m / Js.orElse (widthAttr m) 1).
Proof.
  unfold scaleMove, scaleDown, Js.orElse. split.
  - intros [Himg|Hvid].
    + rewrite Himg. destruct (Req_dec_T 0 0) as [_|H]; [|lra].
      destruct (Req_dec_T (naturalWidth m) 0) as [E|E].
      * destruct (Req_dec_T (widthAttr m) 0); reflexivity.
      * destruct (Req_dec_T (naturalWidth m) 0); [contradiction|reflexivity].
    + destruct (tagVideo m).
      * destruct (Req_dec_T (videoWidth m) 0); [contradiction|reflexivity].
      * destruct (Req_dec_T 0 0) as [_|H]; [|lra].
        destruct (Req_dec_T (naturalWidth m) 0) as [E|E].
        -- destruct (Req_dec_T (widthAttr m) 0); reflexivity.
        -- destruct (Req_dec_T (naturalWidth m) 0);
             [contradiction|reflexivity].
  - intros -> ->. destruct (Req_dec_T 0 0) as [_|H]; [|lra].
    split; [field|reflexivity].
Qed.

Lemma scale_agreement_witness :
  scaleMove image640 = scaleDown image640
  /\ (let m := mkMedia true true 0 0 640 360 0 0 320 in
      scaleDown m = 640 /\ scaleMove m = 640 / Js.orElse 320 1).
Proof.
  split.
  - apply (proj1 (scale_agreement image640)). left. reflexivity.
  - apply (proj2 (scale_agreement (mkMedia true true 0 0 640 360 0 0 320)));
      reflexivity.
Defined.

(** ** Further properties of the loader *)

Module LoaderFacts.

Import Config ConfigFacts.

Section Loader.

Variables parseFloat parseInt : value -> number.

(** X19.  What the loader makes of the shape of the response.  An object
    with an array under [displays] is read like the bare array.  An object
    with nothing, or something falsy, under [displays] is read like the
    empty array, so the region list is emptied; so is a number, a boolean
    or a string.  An object with something else under [displays] leaves
    the list alone, and [null] ends in the [catch] branch, which leaves
    the list alone as well. *)
Theorem loadConfig_response (props : list (string * value))
  (current : list value) :
  (forall l ps,
     lookup "displays" props = VObj (Some l) ps ->
     loadConfig parseFloat parseInt (object props)
     = loadConfig parseFloat parseInt (array l))
  /\ (truthy (lookup "displays" props) = false ->
      displaysAfter parseFloat parseInt (object props) current = [])
  /\ (forall ps,
        lookup "displays" props = VObj None ps ->
        loadConfig parseFloat parseInt (object props) = Skipped)
  /\ (forall v,
        match v with VNum _ | VBool _ | VStr _ => True | _ => False end ->
        loadConfig parseFloat parseInt v = Loaded [])
  /\ loadConfig parseFloat parseInt VNull = Failed
  /\ displaysAfter parseFloat parseInt VNull current = current.
Proof.
  unfold displaysAfter, loadConfig, object, array.
  cbn [getProp bind].
  repeat split.
  - intros l ps ->. reflexivity.
  - intros ->. reflexivity.
  - intros ps ->. reflexivity.
  - intros [| | b | n | s | e ps] Hv; try contradiction; reflexivity.
Qed.

End Loader.

Lemma loadConfig_response_witness :
  loadConfig numberOnly numberOnly
    (object [("displays"%string, array [boxOnly])])
  = loadConfig numberOnly numberOnly (array [boxOnly])
  /\ displaysAfter numberOnly numberOnly (object []) [boxOnly] = []
  /\ loadConfig numberOnly numberOnly
       (object [("displays"%string, object [])]) = Skipped
  /\ loadConfig numberOnly numberOnly (VStr "none") = Loaded [].
Proof.
  split; [|split; [|split]].
  - apply (proj1 (loadConfig_response numberOnly numberOnly
                    [("displays"%string, array [boxOnly])] [])
             [boxOnly] []).
    reflexivity.
  - apply (proj1 (proj2 (loadConfig_response numberOnly numberOnly [] [boxOnly]))).
    reflexivity.
  - apply (proj1 (proj2 (proj2 (loadConfig_response numberOnly numberOnly
                    [("displays"%string, object [])] []))) []).
    reflexivity.
  - apply (proj1 (proj2 (proj2 (proj2 (loadConfig_response numberOnly
                    numberOnly [] []))))).
    exact I.
Defined.

Section Records.

Import LoaderNotions.

Variables parseFloat parseInt : value -> number.




End Records.



End LoaderFacts.

(** ** What is saved *)

Import Saving.

(** X21.  As long as no region without four corners is brought in from
    outside, [saveConfig] never falls back on the box of a region: every
    region is saved with the corners it has on screen, the box around
    them, and a rotation that is a number, 0 standing in for [NaN] and
    [null]. *)
Theorem saveConfig_corners (es : list Event) :
  Forall wellShapedEvent es ->
  Forall (fun d =>
            toSave d
            = Some (mkSaved (id d) (name d) (camId d) (corners d)
                      (boundingBox (corners d))
                      (rotationOrZero (rotation d)) (enablePerspective d)))
         (displays (run es init)).
Proof.
  intros Hes. destruct (run_wellShaped es Hes) as (Hd & _).
  eapply Forall_impl; [|exact Hd]. intros d H4.
  unfold toSave, cornersToSave. rewrite H4. reflexivity.
Qed.

Lemma saveConfig_corners_witness :
  Forall (fun d =>
            toSave d
            = Some (mkSaved (id d) (name d) (camId d) (corners d)
                      (boundingBox (corners d))
                      (rotationOrZero (rotation d)) (enablePerspective d)))
         (displays
            (run [External [region1] (Some "cam1"%string) None;
                  StartAddDisplayMode 5; Undo; Redo] init)).
Proof.
  apply (saveConfig_corners
           [External [region1] (Some "cam1"%string) None;
            StartAddDisplayMode 5; Undo; Redo]).
  repeat constructor.
Defined.

(** X22.  With a camera selected, [startAddDisplayMode] adds one region at
    the end of the list and selects it.  The region belongs to the
    selected camera, its box is the box around its four corners, and the
    property panel shows it with the rotation 0; one undo brings the list
    back as it was saved. *)
Theorem startAddDisplayMode_adds (now : N) (s : State) :
  noCameraSelected s = false ->
  let s' := startAddDisplayMode now s in
  exists newD,
    displays s' = displays s ++ [newD]
    /\ activeDisplayId s' = Some (id newD)
    /\ id newD = newId now
    /\ camId newD = selectedCameraId s
    /\ length (corners newD) = 4%nat
    /\ box newD = Some (boundingBox (corners newD))
    /\ openPropertyPanel newD = Some ("New Display"%string, "0"%string, false)
    /\ displays (undo s') = jsonClone (displays s).
Proof.
  intros Hcam. cbn zeta.
  assert (Hs : noCameraSelected (saveState s) = false) by exact Hcam.
  unfold startAddDisplayMode. rewrite Hs.
  eexists. split; [unfold push, saveState; fields; reflexivity|].
  split; [fields; reflexivity|]. split; [reflexivity|].
  split; [unfold saveState; fields; reflexivity|]. split; [reflexivity|].
  split.
  { cbn [box corners]. f_equal.
    change [mkPoint 100 100; mkPoint 400 100; mkPoint 400 280; mkPoint 100 280]
      with (rectangle 100 100 400 280).
    rewrite boundingBox_rectangle. f_equal.
    - unfold Rmin. destruct (Rle_dec 100 400); lra.
    - unfold Rmin. destruct (Rle_dec 100 280); lra.
    - rewrite Rabs_right; lra.
    - rewrite Rabs_right; lra. }
  split; [reflexivity|].
  set (ident := newId now).
  apply (undo_saveState s
           (fun t =>
              t |> set_displays
                     (push (mkDisplay ident "New Display" (selectedCameraId t)
                              (Some (mkBox 100 100 300 180)) (RotNum 0) false
                              [mkPoint 100 100; mkPoint 400 100;
                               mkPoint 400 280; mkPoint 100 280])
                        (displays t))
                |> set_activeDisplayId (Some ident))).
  fields. reflexivity.
Qed.

Lemma startAddDisplayMode_adds_witness :
  exists newD,
    displays (startAddDisplayMode 7 oneRegion) = displays oneRegion ++ [newD]
    /\ activeDisplayId (startAddDisplayMode 7 oneRegion) = Some (id newD)
    /\ id newD = newId 7
    /\ camId newD = selectedCameraId oneRegion
    /\ length (corners newD) = 4%nat
    /\ box newD = Some (boundingBox (corners newD))
    /\ openPropertyPanel newD = Some ("New Display"%string, "0"%string, false)
    /\ displays (undo (startAddDisplayMode 7 oneRegion))
       = jsonClone (displays oneRegion).
Proof.
  apply (startAddDisplayMode_adds 7 oneRegion). reflexivity.
Defined.

(** ** Reconciling regions with the cameras found *)

Section Reconciling.

Import Reconcile.

Variable normalizeCameraName : string -> string.

Let isMatch := isMatch normalizeCameraName.
Let reconcile := reconcile normalizeCameraName.

Lemma reconcile_cases cameras d :
  reconcile cameras d = d
  \/ exists saved m,
       camera_name d = Some saved
       /\ present (camera_name d) = true
       /\ find (isMatch d saved) cameras = Some m
       /\ sameId (camId (display d)) (Some (cameraId m)) = false
       /\ reconcile cameras d
          = mkEntry
              (mkDisplay (id (display d)) (name (display d))
                 (Some (cameraId m)) (box (display d))
                 (rotation (display d)) (enablePerspective (display d))
                 (corners (display d)))
              (Some (cameraName m)) (hardware_id d).
Proof.
  unfold reconcile, Reconcile.reconcile, isMatch.
  destruct (camera_name d) as [saved|] eqn:Ec; [|now left].
  destruct (present (Some saved)) eqn:Ep; cbn [negb]; [|now left].
  destruct (find _ cameras) as [m|] eqn:Ef; [|now left].
  destruct (sameId _ _) eqn:Es; cbn [negb]; [now left|].
  right. exists saved, m. repeat split; assumption.
Qed.

Lemma sameId_refl a : sameId a a = true.
Proof. destruct a; cbn; [apply String.eqb_refl|reflexivity]. Qed.

(** X23.  The reconciliation keeps the regions, in order, and writes
    nothing but the camera and the saved camera name of a region.  A
    region that it rewrites had a saved camera name and now points at the
    first camera in the list that has its hardware id or its base name,
    under that camera's name: a camera earlier in the list that matches by
    name goes before a later one that matches by hardware id. *)
Theorem autoFuzzyMatch_frame (cameras : list Camera) (ds : list Entry) :
  let ds' := autoFuzzyMatch normalizeCameraName cameras ds in
  map untouched ds' = map untouched ds
  /\ Forall2
       (fun d d' =>
          d' = d
          \/ exists saved m before after,
               camera_name d = Some saved
               /\ cameras = before ++ m :: after
               /\ Forall (fun c => isMatch d saved c = false) before
               /\ isMatch d saved m = true
               /\ camId (display d') = Some (cameraId m)
               /\ camera_name d' = Some (cameraName m))
       ds ds'.
Proof.
  cbn zeta. unfold autoFuzzyMatch.
  fold reconcile. induction ds as [|d ds [IH1 IH2]];
    [split; [reflexivity|constructor]|].
  cbn [map]. split.
  - rewrite IH1. f_equal.
    destruct (reconcile_cases cameras d) as [->|(saved & m & _ & _ & _ & _ & ->)];
      reflexivity.
  - constructor; [|exact IH2].
    destruct (reconcile_cases cameras d)
      as [->|(saved & m & Hc & _ & Hf & _ & ->)]; [now left|].
    right.
    assert (Hsplit : exists before after,
               cameras = before ++ m :: after
               /\ Forall (fun c => isMatch d saved c = false) before
               /\ isMatch d saved m = true).
    { clear -Hf. induction cameras as [|c cs IH]; [discriminate|].
      cbn [find] in Hf. destruct (isMatch d saved c) eqn:E.
      - injection Hf as ->. exists [], cs. repeat split; [constructor|exact E].
      - destruct (IH Hf) as (b & a & -> & Hb & Hm).
        exists (c :: b), a. repeat split; [now constructor|exact Hm]. }
    destruct Hsplit as (before & after & Hcs & Hb & Hm).
    exists saved, m, before, after. repeat split; assumption.
Qed.

Lemma find_ext {A} (f g : A -> bool) (l : list A) :
  (forall x, f x = g x) -> find f l = find g l.
Proof.
  intros H. induction l as [|x l IH]; [reflexivity|].
  cbn [find]. rewrite H, IH. reflexivity.
Qed.

Lemma reconcile_again cameras d :
  (forall saved m,
     camera_name d = Some saved ->
     find (isMatch d saved) cameras = Some m ->
     normalizeCameraName (cameraName m) = normalizeCameraName saved) ->
  reconcile cameras (reconcile cameras d) = reconcile cameras d.
Proof.
  intros Hname.
  destruct (reconcile_cases cameras d)
    as [H|(saved & m & Hc & Hp & Hf & Hs & ->)]; [now rewrite !H|].
  unfold reconcile, Reconcile.reconcile. cbn [camera_name].
  destruct (present (Some (cameraName m))); cbn [negb]; [|reflexivity].
  cbn [display hardware_id camId].
  assert (Hsame : find (Reconcile.isMatch normalizeCameraName
                          (mkEntry
                             (mkDisplay (id (display d)) (name (display d))
                                (Some (cameraId m)) (box (display d))
                                (rotation (display d))
                                (enablePerspective (display d))
                                (corners (display d)))
                             (Some (cameraName m)) (hardware_id d))
                          (cameraName m)) cameras
                  = Some m).
  { rewrite <- Hf. apply find_ext. intros c.
    unfold isMatch, Reconcile.isMatch. cbn [hardware_id].
    now rewrite (Hname saved m Hc Hf). }
  rewrite Hsame, sameId_refl. reflexivity.
Qed.

(** X24.  A second pass of the reconciliation changes nothing, provided
    that the camera found for a region in the first pass has the base
    name that the region was saved with. *)
Theorem autoFuzzyMatch_twice (cameras : list Camera) (ds : list Entry) :
  Forall (fun d =>
            forall saved m,
              camera_name d = Some saved ->
              find (isMatch d saved) cameras = Some m ->
              normalizeCameraName (cameraName m) = normalizeCameraName saved)
         ds ->
  autoFuzzyMatch normalizeCameraName cameras
    (autoFuzzyMatch normalizeCameraName cameras ds)
  = autoFuzzyMatch normalizeCameraName cameras ds.
Proof.
  unfold autoFuzzyMatch. fold reconcile.
  induction 1 as [|d ds Hd _ IH]; [reflexivity|].
  cbn [map]. rewrite IH. f_equal. apply reconcile_again, Hd.
Qed.

(** X25.  Without that proviso a second pass can move a region again: a
    region found by its hardware id, under a camera whose base name is not
    the saved one, is handed in the second pass to an earlier camera that
    shares the base name of the camera found first. *)
Theorem autoFuzzyMatch_second_pass (d : Entry) (saved : string)
  (c0 c1 : Camera) :
  camera_name d = Some saved ->
  present (camera_name d) = true ->
  present (Some (cameraName c1)) = true ->
  present (hardware_id d) = true ->
  cameraHardwareId c1 = hardware_id d ->
  sameId (cameraHardwareId c0) (hardware_id d) = false ->
  normalizeCameraName (cameraName c0) = normalizeCameraName (cameraName c1) ->
  normalizeCameraName (cameraName c0) <> normalizeCameraName saved ->
  sameId (camId (display d)) (Some (cameraId c1)) = false ->
  cameraId c0 <> cameraId c1 ->
  let once := reconcile [c0; c1] d in
  camId (display once) = Some (cameraId c1)
  /\ camId (display (reconcile [c0; c1] once)) = Some (cameraId c0).
Proof.
  intros Hc Hp Hp1 Hh H1 H0 Hn Hs Hid Hne. cbn zeta.
  assert (Honce : reconcile [c0; c1] d
                  = mkEntry
                      (mkDisplay (id (display d)) (name (display d))
                         (Some (cameraId c1)) (box (display d))
                         (rotation (display d)) (enablePerspective (display d))
                         (corners (display d)))
                      (Some (cameraName c1)) (hardware_id d)).
  { unfold reconcile, Reconcile.reconcile. rewrite Hc. rewrite Hc in Hp.
    rewrite Hp. cbn [negb find]. unfold Reconcile.isMatch.
    rewrite Hh, H0, H1, sameId_refl. cbn [andb orb].
    destruct (String.eqb_spec (normalizeCameraName (cameraName c0))
                (normalizeCameraName saved)) as [E|_]; [contradiction|].
    rewrite Hid. reflexivity. }
  rewrite Honce. split; [reflexivity|].
  unfold reconcile, Reconcile.reconcile. cbn [camera_name display hardware_id].
  rewrite Hp1. cbn [negb find]. unfold Reconcile.isMatch. cbn [hardware_id].
  rewrite Hh, H0, Hn, String.eqb_refl. cbn [andb orb camId].
  assert (Hd : sameId (Some (cameraId c1)) (Some (cameraId c0)) = false).
  { cbn [sameId]. apply String.eqb_neq. congruence. }
  rewrite Hd. reflexivity.
Qed.

End Reconciling.

Lemma autoFuzzyMatch_twice_witness :
  let cameras := [Reconcile.mkCamera "0" "cam a" None;
                  Reconcile.mkCamera "1" "cam b" None] in
  let ds := [Reconcile.mkEntry region1 (Some "cam b"%string) None] in
  Reconcile.autoFuzzyMatch (fun x => x) cameras
    (Reconcile.autoFuzzyMatch (fun x => x) cameras ds)
  = Reconcile.autoFuzzyMatch (fun x => x) cameras ds.
Proof.
  apply (autoFuzzyMatch_twice (fun x => x)).
  repeat constructor. intros saved m [= <-]. vm_compute.
  intros [= <-]. reflexivity.
Defined.

Lemma autoFuzzyMatch_second_pass_witness :
  let base := fun x : string => String.substring 0 3 x in
  let c0 := Reconcile.mkCamera "0" "cam (Device 0)" (Some "hw-a"%string) in
  let c1 := Reconcile.mkCamera "1" "cam (Device 1)" (Some "hw-b"%string) in
  let d := Reconcile.mkEntry region1 (Some "old"%string)
             (Some "hw-b"%string) in
  let once := Reconcile.reconcile base [c0; c1] d in
  camId (Reconcile.display once) = Some "1"%string
  /\ camId (Reconcile.display (Reconcile.reconcile base [c0; c1] once))
     = Some "0"%string.
Proof.
  apply (autoFuzzyMatch_second_pass (fun x : string => String.substring 0 3 x)
           (Reconcile.mkEntry region1 (Some "old"%string) (Some "hw-b"%string))
           "old"
           (Reconcile.mkCamera "0" "cam (Device 0)" (Some "hw-a"%string))
           (Reconcile.mkCamera "1" "cam (Device 1)" (Some "hw-b"%string)));
    try reflexivity; vm_compute; discriminate.
Defined.

(** * Where rounding shows *)

(** The properties above that are marked as holding over exact reals are
    evaluated here on doubles, at inputs where rounding makes the program
    answer otherwise.  A decimal literal stands for the nearest double, as
    it does in JavaScript. *)
Section Rounding.

Import PrimFloat.
#[local] Open Scope float_scope.
#[local] Set Warnings "-inexact-float".

(** C1 as stated, on doubles.  An image 640 wide is shown 960 wide, so the
    scale is 1.5.  A drawing gesture is pressed at (26, 0) and released at
    (56, 150).  The native points under the pointer are 20 apart across,
    a little more when their difference is rounded, and 100 apart down,
    so that neither is below 20; yet the width that [mouseup] computes
    from the corners is 19.999999999999996, and the region is removed. *)
Theorem draw_release_rounding :
  let scale := 960 / 640 in
  let p0 := Doubles.toNative 0 0 scale (Doubles.mkPoint 26 0) in
  let p1 := Doubles.toNative 0 0 scale (Doubles.mkPoint 56 150) in
  (abs (Doubles.px p1 - Doubles.px p0) <? 20) = false
  /\ (abs (Doubles.py p1 - Doubles.py p0) <? 20) = false
  /\ Doubles.corners
       (Doubles.mousemove 56 150 scale (Doubles.mousedown 26 0 0 0 scale))
     = Doubles.mkQuad
         (Doubles.mkPoint 17.333333333333332 0)
         (Doubles.mkPoint 37.333333333333329 0)
         (Doubles.mkPoint 37.333333333333329 100)
         (Doubles.mkPoint 17.333333333333332 100)
  /\ Doubles.gesture 26 0 0 0 scale scale [(56, 150)] = None.
Proof. vm_compute. repeat split; reflexivity. Qed.

(** On doubles [isPointInPoly] is not invariant under translation: the
    point (5, -1e-17) is outside the square from (0, 0) to (10, 10), and
    inside once both are moved up by 1, where the point lands on the
    lower edge. *)
Lemma isPointInPoly_translate_rounding :
  let square := [Doubles.mkPoint 0 0; Doubles.mkPoint 10 0;
                 Doubles.mkPoint 10 10; Doubles.mkPoint 0 10] in
  let up p := Doubles.mkPoint (Doubles.px p) (Doubles.py p + 1) in
  Doubles.isPointInPoly (Doubles.mkPoint 5 (-1e-17)) square = false
  /\ Doubles.isPointInPoly (up (Doubles.mkPoint 5 (-1e-17))) (map up square)
     = true.
Proof. vm_compute. split; reflexivity. Qed.

(** On doubles a polygon of two vertices can contain a point: the two
    traversals of its one edge round the intercept differently. *)
Lemma isPointInPoly_degenerate_rounding :
  Doubles.isPointInPoly (Doubles.mkPoint 0.09999999999999998 0.1)
    [Doubles.mkPoint 0 0; Doubles.mkPoint 1 1]
  = true.
Proof. vm_compute. reflexivity. Qed.

(** On doubles the distance from an end of a segment to the segment need
    not be 0. *)
Lemma distToSegment_rounding :
  Doubles.distToSegment (Doubles.mkPoint 0.9 0.7) (Doubles.mkPoint 0.2 0.1)
    (Doubles.mkPoint 0.9 0.7)
  = 1.1102230246251565e-16.
Proof. vm_compute. reflexivity. Qed.

(** On doubles [x + w] of the saved box can fall below the largest corner:
    corners at 118 / 1.7 and 832 / 1.7 across give the width 420, and
    [x + w] is one unit in the last place below the right corners. *)
Lemma boundingBox_rounding :
  let left := 118 / 1.7 in
  let right := 832 / 1.7 in
  let cs := [Doubles.mkPoint left 10; Doubles.mkPoint right 10;
             Doubles.mkPoint right 200; Doubles.mkPoint left 200] in
  let '(x, y, w, h) := Doubles.boundingBox cs in
  x = left /\ w = 420 /\ (x + w <? right) = true
  /\ (x <=? right) = true
  /\ (right <=? Doubles.Math_max (map Doubles.px cs)) = true.
Proof. vm_compute. repeat split; reflexivity. Qed.

End Rounding.
